(** * Snap execution environment: isolate-side controller and host-side service

    A shallow embedding of
    - [packages/workers/src/SnapWorker.ts] (the [Controller] that runs inside
      the isolate), and
    - the iframe execution environment service
      ([IframeExecutionEnvironmentService]) that runs on the host,
    together with the properties of the isolation protocol they implement. *)

From Stdlib Require Import ZArith String Ascii DecimalString.
From stdpp Require Import base option gmap strings list fin_maps.

Local Open Scope string_scope.
Local Open Scope list_scope.
Local Open Scope Z_scope.

(** ** JavaScript values that travel over the streams *)

Module Js.

(** Numbers are restricted to the integers: the code only uses them as
    JSON-RPC ids and timer handles. [JErr m] is an [Error] object whose
    [message] is [m]. *)
#[warnings="-register-all"]
Inductive JsValue : Type :=
| JUndefined
| JNull
| JBool (b : bool)
| JNum (n : Z)
| JStr (s : string)
| JErr (message : string)
| JArr (items : list JsValue)
| JObj (fields : list (string * JsValue)).

(** [Boolean(v)], the truthiness used by [if (v)] and [!v]. *)
Definition truthy (v : JsValue) : bool :=
  match v with
  | JUndefined | JNull => false
  | JBool b => b
  | JNum n => negb (n =? 0)
  | JStr s => negb (String.eqb s "")
  | JErr _ | JArr _ | JObj _ => true
  end.

Definition typeof (v : JsValue) : string :=
  match v with
  | JUndefined => "undefined"
  | JBool _ => "boolean"
  | JNum _ => "number"
  | JStr _ => "string"
  | JNull | JErr _ | JArr _ | JObj _ => "object"
  end.

Definition isArray (v : JsValue) : bool :=
  match v with JArr _ => true | _ => false end.

Definition is_nullish (v : JsValue) : bool :=
  match v with JUndefined | JNull => true | _ => false end.

Fixpoint assoc (k : string) (fs : list (string * JsValue)) : JsValue :=
  match fs with
  | [] => JUndefined
  | (k', v) :: fs' => if String.eqb k k' then v else assoc k fs'
  end.

(** Property read [v.k]. [None] is the [TypeError] of reading a property of
    [null] or [undefined]; a missing property reads as [undefined]. *)
Definition get (v : JsValue) (k : string) : option JsValue :=
  match v with
  | JUndefined | JNull => None
  | JObj fs => Some (assoc k fs)
  | JErr m => Some (if String.eqb k "message" then JStr m else JUndefined)
  | JBool _ | JNum _ | JStr _ | JArr _ => Some JUndefined
  end.

Definition dq : string := String (ascii_of_nat 34) EmptyString.
Definition quoted (s : string) : string := dq +:+ s +:+ dq.

(** [String(v)], as used by template literals and by [new Error(v)]. *)
Fixpoint toString (v : JsValue) : string :=
  match v with
  | JUndefined => "undefined"
  | JNull => "null"
  | JBool true => "true"
  | JBool false => "false"
  | JNum n => NilZero.string_of_int (Z.to_int n)
  | JStr s => s
  | JErr m => if String.eqb m "" then "Error" else "Error: " +:+ m
  | JArr items =>
      String.concat ","
        (List.map (fun i => if is_nullish i then "" else toString i) items)
  | JObj _ => "[object Object]"
  end.

(** [new Error(m)]: an absent message leaves the inherited empty one. *)
Definition newError (m : JsValue) : JsValue :=
  match m with
  | JUndefined => JErr ""
  | _ => JErr (toString m)
  end.

(** [Object.prototype.hasOwnProperty.call(v, k)], and with it [k in v], for
    the plain objects that travel over the streams. *)
Definition hasKey (v : JsValue) (k : string) : bool :=
  match v with
  | JObj fs => existsb (fun kv => String.eqb (fst kv) k) fs
  | _ => false
  end.

(** A JavaScript [Map] with string keys, read with a key that arrived as an
    arbitrary value: only a string can hit an entry. *)
Definition map_get {V} (m : gmap string V) (k : JsValue) : option V :=
  match k with JStr s => m !! s | _ => None end.

End Js.
Export Js.

(** ** Computations that mutate a state and may throw *)

Inductive Result (A : Type) : Type :=
| Ok (a : A)
| Thrown (e : JsValue).
Arguments Ok {A} a.
Arguments Thrown {A} e.

Definition M (S A : Type) : Type := S -> Result A * S.

Definition ret {S A} (a : A) : M S A := fun s => (Ok a, s).
Definition throw {S A} (e : JsValue) : M S A := fun s => (Thrown e, s).
Definition bind {S A B} (m : M S A) (k : A -> M S B) : M S B :=
  fun s => match m s with
           | (Ok a, s') => k a s'
           | (Thrown e, s') => (Thrown e, s')
           end.
Definition try_catch {S A} (m : M S A) (h : JsValue -> M S A) : M S A :=
  fun s => match m s with
           | (Ok a, s') => (Ok a, s')
           | (Thrown e, s') => h e s'
           end.
Definition modify {S} (f : S -> S) : M S unit := fun s => (Ok tt, f s).
Definition gets {S A} (f : S -> A) : M S A := fun s => (Ok (f s), s).

Declare Scope js_scope.
Delimit Scope js_scope with js.
Notation "'let!' x ':=' m 'in' k" := (bind m (fun x => k))
  (at level 10, x name, m at level 100, k at level 200) : js_scope.
Notation "m ';;' k" := (bind m (fun _ => k))
  (at level 100, k at level 200, right associativity) : js_scope.
Local Open Scope js_scope.

(** ** The isolate side: [Controller] of SnapWorker.ts *)

Module Worker.

(** What awaiting a handler call yields: its resolved value or the value it
    threw (or rejected with). *)
Inductive Completion : Type :=
| Returns (v : JsValue)
| Rejects (e : JsValue).

Abbreviation SnapRpcHandler := (JsValue -> JsValue -> Completion).

(** The only ways evaluated snap code acts on the controller: it calls
    [wallet.registerRpcMessageHandler], and it may throw. *)
Inductive SnapAction : Type :=
| RegisterRpcMessageHandler (func : SnapRpcHandler)
| Throw (e : JsValue).

(** The SES [Compartment] is a declared global of the worker; its [evaluate]
    is taken as a parameter giving the actions a source text performs. *)
Class Compartment := evaluate : string -> list SnapAction.

Record Controller : Type := mkController {
  snapRpcHandlers : gmap string SnapRpcHandler;
  commandStream : list JsValue;      (* objects written to the parent *)
  console_error : list string;
}.

Definition new_Controller : Controller :=
  mkController ∅ [] [].

Definition set_handlers (f : gmap string SnapRpcHandler -> gmap string SnapRpcHandler)
    (c : Controller) : Controller :=
  mkController (f (snapRpcHandlers c)) (commandStream c) (console_error c).

Definition write (msg : JsValue) : M Controller unit :=
  modify (fun c => mkController (snapRpcHandlers c) (commandStream c ++ [msg])
                                (console_error c)).

Definition log_error (line : string) : M Controller unit :=
  modify (fun c => mkController (snapRpcHandlers c) (commandStream c)
                                (console_error c ++ [line])).

(** [this.commandStream.write({ ...responseObj, id, jsonrpc: '2.0' })] *)
Definition respond (id : JsValue) (responseObj : list (string * JsValue))
    : M Controller unit :=
  write (JObj (responseObj ++ [("id", id); ("jsonrpc", JStr "2.0")])).

Definition isTruthyString (value : JsValue) : bool :=
  String.eqb (typeof value) "string" && truthy value.

Definition removeSnap (snapId : string) : M Controller unit :=
  modify (set_handlers (delete snapId)).

(** The function the provider exposes as [registerRpcMessageHandler]. *)
Definition registerRpcMessageHandler (snapId : string) (func : SnapRpcHandler)
    : M Controller unit :=
  let! registered := gets (fun c => snapRpcHandlers c !! snapId) in
  match registered with
  | Some _ => throw (JErr "RPC handler already registered.")
  | None => modify (set_handlers (insert snapId func))
  end.

(** [compartment.evaluate(sourceCode)] with [wallet] bound to the provider
    of [snapId]. *)
Fixpoint run (snapId : string) (actions : list SnapAction) : M Controller unit :=
  match actions with
  | [] => ret tt
  | RegisterRpcMessageHandler func :: rest =>
      registerRpcMessageHandler snapId func ;; run snapId rest
  | Throw e :: _ => throw e
  end.

Section WithCompartment.
Context `{!Compartment}.

Definition startSnap (snapId sourceCode : string) : M Controller unit :=
  try_catch
    (run snapId (evaluate sourceCode))
    (fun err =>
       removeSnap snapId ;;
       log_error ("Error while running snap '" +:+ snapId +:+ "' in worker."))%js.

Definition str_of (v : JsValue) : string :=
  match v with JStr s => s | _ => "" end.

(** Destructuring [{ snapId, sourceCode } = {}] of the params: an absent
    params object defaults to the empty one, [null] cannot be destructured. *)
Definition executeSnap (id params : JsValue) : M Controller unit :=
  let params := match params with JUndefined => JObj [] | _ => params end in
  match get params "snapId", get params "sourceCode" with
  | Some snapId, Some sourceCode =>
      if negb (isTruthyString snapId) || negb (isTruthyString sourceCode) then
        respond id [("error", JErr "Invalid executeSnap parameters.")]
      else
        try_catch
          (startSnap (str_of snapId) (str_of sourceCode) ;;
           respond id [("result", JStr "OK")])
          (fun err => respond id [("error", err)])
  | _, _ => throw (JErr "Cannot destructure")
  end.

Definition handleSnapRpc (id params : JsValue) : M Controller unit :=
  match get params "origin", get params "request", get params "target" with
  | Some requestOrigin, Some request, Some target =>
      let! handler := gets (fun c => map_get (snapRpcHandlers c) target) in
      match handler with
      | None =>
          respond id
            [("error", JErr ("No RPC handler registered for snap "
                             +:+ quoted (toString target) +:+ "."))]
      | Some handler =>
          match handler requestOrigin request with
          | Returns result => respond id [("result", result)]
          | Rejects error => respond id [("error", error)]
          end
      end
  | _, _, _ => throw (JErr "Cannot destructure")
  end.

Definition valid_id (id : JsValue) : bool :=
  match id with JStr _ | JNum _ => true | _ => false end.

Definition onCommandRequest (message : JsValue) : M Controller unit :=
  if negb (truthy message) || negb (String.eqb (typeof message) "object")
     || isArray message then
    log_error "Command stream received non-object message."
  else
    match get message "id", get message "method", get message "params" with
    | Some id, Some method, Some params =>
        if negb (valid_id id) then
          log_error ("Command stream received invalid id "
                     +:+ quoted (toString id) +:+ ".")
        else
          match method with
          | JStr "executeSnap" => executeSnap id params
          | JStr "ping" => respond id [("result", JStr "OK")]
          | JStr "snapRpc" => handleSnapRpc id params
          | _ =>
              respond id
                [("error", JErr ("Unrecognized command: " +:+ toString method
                                 +:+ "."))]
          end
    | _, _, _ => throw (JErr "Cannot destructure")
    end.

End WithCompartment.
End Worker.

(** ** The host side: the execution environment service *)

Module Service.

Record SnapData : Type := mkSnapData {
  snapId : string;
  sourceCode : string;
}.

(** The [SnapData] object as it is put in the [params] of a command. *)
Definition SnapData_to_js (d : SnapData) : JsValue :=
  JObj [("snapId", JStr (snapId d)); ("sourceCode", JStr (sourceCode d))].

(** A stream object. [destroy_throws] says whether its [destroy()] throws;
    [errorHandler_on] whether the out-of-band error listener is attached. *)
Record Stream : Type := mkStream {
  destroyed : bool;
  destroy_throws : bool;
  errorHandler_on : bool;
}.

Record JobStreams : Type := mkJobStreams {
  command : Stream;
  rpc : option Stream;
  _connection : Stream;
}.

(** [streams] is the address of the job's stream objects in the heap of the
    host; the JSON-RPC engine of a job is its link to the command stream. *)
Record EnvMetadata : Type := mkEnvMetadata {
  id : string;
  streams : string;
}.

(** The closure built by [_createSnapHooks]: it captures [snapId] and
    [jobId]. *)
Record SnapRpcHook : Type := mkSnapRpcHook {
  hook_snapId : string;
  hook_jobId : string;
}.

Inductive TimerCallback : Type :=
| WindowTimedOut (jobId : string)      (* errorTimeout of _createWindow *)
| PollCallback (snapId jobId : string) (* the callback of _pollForJobStatus *)
| PingTimedOut.                        (* the timeout of _getJobStatus *)

Inductive ServiceEvent : Type :=
| Unresponsive (snapId : string)
| UnhandledError (snapId : string) (error : JsValue).

(** The fields of the class. [jobs] keeps the insertion order of the
    JavaScript [Map], which [terminateAllSnaps] iterates. *)
Record Service : Type := mkService {
  _snapRpcHooks : gmap string SnapRpcHook;
  iframeUrl : string;
  jobs : list (string * EnvMetadata);
  snapToJobMap : gmap string string;
  jobToSnapMap : gmap string string;
  _createWindowTimeout : Z;
  _unresponsivePollingInterval : Z;
  _unresponsiveTimeout : Z;
  _timeoutForUnresponsiveMap : gmap string nat;
}.

(** What the service acts on outside itself: the DOM (the ids of the iframes
    attached to the body), the stream objects, the pending timers, the
    messenger, the [setupSnapProvider] collaborator, the messages handed to
    the JSON-RPC engines, and the [idMap]s of the stream middlewares of the
    engines: the requests written and not yet answered, by job and id. *)
Record Platform : Type := mkPlatform {
  document : list string;
  heap : gmap string JobStreams;
  timers : gmap nat (TimerCallback * Z);
  nextTimer : nat;
  published : list ServiceEvent;
  provided : list (string * string);
  sent : list (string * JsValue);
  idMap : list (string * string);
}.

Record Host : Type := mkHost {
  svc : Service;
  env : Platform;
}.

Record Args : Type := mkArgs {
  arg_createWindowTimeout : option Z;
  arg_iframeUrl : string;
  arg_unresponsivePollingInterval : option Z;
  arg_unresponsiveTimeout : option Z;
}.

Definition constructor (a : Args) : Service :=
  {| _createWindowTimeout := default 60000 (arg_createWindowTimeout a);
     iframeUrl := arg_iframeUrl a;
     jobs := [];
     snapToJobMap := ∅;
     jobToSnapMap := ∅;
     _snapRpcHooks := ∅;
     _unresponsivePollingInterval :=
       default 5000 (arg_unresponsivePollingInterval a);
     _unresponsiveTimeout := default 30000 (arg_unresponsiveTimeout a);
     _timeoutForUnresponsiveMap := ∅ |}.

Definition empty_Platform : Platform :=
  mkPlatform [] ∅ ∅ 1%nat [] [] [] [].

Definition new_Host (a : Args) : Host := mkHost (constructor a) empty_Platform.

(** *** Field updates *)

Definition on_svc (f : Service -> Service) (h : Host) : Host :=
  mkHost (f (svc h)) (env h).
Definition on_env (f : Platform -> Platform) (h : Host) : Host :=
  mkHost (svc h) (f (env h)).

Definition upd_hooks (f : gmap string SnapRpcHook -> gmap string SnapRpcHook)
    (s : Service) : Service :=
  mkService (f (_snapRpcHooks s)) (iframeUrl s) (jobs s) (snapToJobMap s)
    (jobToSnapMap s) (_createWindowTimeout s) (_unresponsivePollingInterval s)
    (_unresponsiveTimeout s) (_timeoutForUnresponsiveMap s).
Definition upd_jobs (f : list (string * EnvMetadata) -> list (string * EnvMetadata))
    (s : Service) : Service :=
  mkService (_snapRpcHooks s) (iframeUrl s) (f (jobs s)) (snapToJobMap s)
    (jobToSnapMap s) (_createWindowTimeout s) (_unresponsivePollingInterval s)
    (_unresponsiveTimeout s) (_timeoutForUnresponsiveMap s).
Definition upd_snapToJob (f : gmap string string -> gmap string string)
    (s : Service) : Service :=
  mkService (_snapRpcHooks s) (iframeUrl s) (jobs s) (f (snapToJobMap s))
    (jobToSnapMap s) (_createWindowTimeout s) (_unresponsivePollingInterval s)
    (_unresponsiveTimeout s) (_timeoutForUnresponsiveMap s).
Definition upd_jobToSnap (f : gmap string string -> gmap string string)
    (s : Service) : Service :=
  mkService (_snapRpcHooks s) (iframeUrl s) (jobs s) (snapToJobMap s)
    (f (jobToSnapMap s)) (_createWindowTimeout s)
    (_unresponsivePollingInterval s) (_unresponsiveTimeout s)
    (_timeoutForUnresponsiveMap s).
Definition upd_timeoutMap (f : gmap string nat -> gmap string nat)
    (s : Service) : Service :=
  mkService (_snapRpcHooks s) (iframeUrl s) (jobs s) (snapToJobMap s)
    (jobToSnapMap s) (_createWindowTimeout s) (_unresponsivePollingInterval s)
    (_unresponsiveTimeout s) (f (_timeoutForUnresponsiveMap s)).

Definition upd_document (f : list string -> list string) (p : Platform)
    : Platform :=
  mkPlatform (f (document p)) (heap p) (timers p) (nextTimer p) (published p)
    (provided p) (sent p) (idMap p).
Definition upd_heap (f : gmap string JobStreams -> gmap string JobStreams)
    (p : Platform) : Platform :=
  mkPlatform (document p) (f (heap p)) (timers p) (nextTimer p) (published p)
    (provided p) (sent p) (idMap p).
Definition upd_timers
    (f : gmap nat (TimerCallback * Z) -> gmap nat (TimerCallback * Z))
    (p : Platform) : Platform :=
  mkPlatform (document p) (heap p) (f (timers p)) (nextTimer p) (published p)
    (provided p) (sent p) (idMap p).
Definition upd_nextTimer (f : nat -> nat) (p : Platform) : Platform :=
  mkPlatform (document p) (heap p) (timers p) (f (nextTimer p)) (published p)
    (provided p) (sent p) (idMap p).
Definition upd_published (f : list ServiceEvent -> list ServiceEvent)
    (p : Platform) : Platform :=
  mkPlatform (document p) (heap p) (timers p) (nextTimer p) (f (published p))
    (provided p) (sent p) (idMap p).
Definition upd_provided (f : list (string * string) -> list (string * string))
    (p : Platform) : Platform :=
  mkPlatform (document p) (heap p) (timers p) (nextTimer p) (published p)
    (f (provided p)) (sent p) (idMap p).
Definition upd_sent (f : list (string * JsValue) -> list (string * JsValue))
    (p : Platform) : Platform :=
  mkPlatform (document p) (heap p) (timers p) (nextTimer p) (published p)
    (provided p) (f (sent p)) (idMap p).
Definition upd_idMap (f : list (string * string) -> list (string * string))
    (p : Platform) : Platform :=
  mkPlatform (document p) (heap p) (timers p) (nextTimer p) (published p)
    (provided p) (sent p) (f (idMap p)).

(** *** The platform primitives the service calls *)

(** [setTimeout(callback, delay)] returns the handle of the new timer. *)
Definition setTimeout (callback : TimerCallback) (delay : Z) : M Host nat :=
  fun h =>
    let t := nextTimer (env h) in
    (Ok t, on_env (fun p => upd_nextTimer S
                              (upd_timers (insert t (callback, delay)) p)) h).

(** [clearTimeout(handle)]; clearing [undefined] does nothing. *)
Definition clearTimeout (handle : option nat) : M Host unit :=
  match handle with
  | Some t => modify (on_env (upd_timers (delete t)))
  | None => ret tt
  end.

Definition publish (e : ServiceEvent) : M Host unit :=
  modify (on_env (upd_published (fun l => l ++ [e]))).

(** [stream.destroy(); stream.removeAllListeners()] inside the [try] of
    [terminate]: a throwing [destroy] is caught and the stream left as is. *)
Definition destroy_stream (s : Stream) : Stream :=
  if destroyed s then s
  else if destroy_throws s then s
  else mkStream true (destroy_throws s) false.

Definition destroy_streams (js : JobStreams) : JobStreams :=
  mkJobStreams (destroy_stream (command js))
               (destroy_stream <$> rpc js)
               (destroy_stream (_connection js)).

(** [document.getElementById(id)?.remove()] *)
Fixpoint remove_element (i : string) (doc : list string) : list string :=
  match doc with
  | [] => []
  | x :: doc' => if String.eqb x i then doc' else x :: remove_element i doc'
  end.

(** *** JavaScript [Map] operations on [jobs] *)

Fixpoint jobs_get (js : list (string * EnvMetadata)) (k : string)
    : option EnvMetadata :=
  match js with
  | [] => None
  | (k', v) :: js' => if String.eqb k' k then Some v else jobs_get js' k
  end.

Fixpoint jobs_set (k : string) (v : EnvMetadata)
    (js : list (string * EnvMetadata)) : list (string * EnvMetadata) :=
  match js with
  | [] => [(k, v)]
  | (k', v') :: js' =>
      if String.eqb k' k then (k, v) :: js' else (k', v') :: jobs_set k v js'
  end.

Definition jobs_delete (k : string) (js : list (string * EnvMetadata))
    : list (string * EnvMetadata) :=
  List.filter (fun kv => negb (String.eqb (fst kv) k)) js.
Arguments jobs_delete : simpl never.

Definition jobs_keys (js : list (string * EnvMetadata)) : list string :=
  List.map fst js.

(** [!x] for an [x] that is a string or [undefined]: the empty string is
    falsy as well. *)
Definition falsy (x : option string) : bool :=
  match x with
  | None => true
  | Some s => String.eqb s ""
  end.

Definition truthy_string (x : option string) : option string :=
  if falsy x then None else x.

(** *** Synchronous methods *)

Definition _setJob (jobId : string) (jobWrapper : EnvMetadata) : M Host unit :=
  modify (on_svc (upd_jobs (jobs_set jobId jobWrapper))).

Definition _deleteJob (jobId : string) : M Host unit :=
  modify (on_svc (upd_jobs (jobs_delete jobId))).

Definition job_not_found (jobId : string) : JsValue :=
  JErr ("Job with id " +:+ quoted jobId +:+ " not found.").

Definition _removeSnapHooks (snapId : string) : M Host unit :=
  modify (on_svc (upd_hooks (delete snapId))).

Definition _createSnapHooks (snapId jobId : string) : M Host unit :=
  modify (on_svc (upd_hooks (insert snapId (mkSnapRpcHook snapId jobId)))).

Definition _mapSnapAndJob (snapId jobId : string) : M Host unit :=
  modify (on_svc (upd_snapToJob (insert snapId jobId))) ;;
  modify (on_svc (upd_jobToSnap (insert jobId snapId))).

Definition _removeSnapAndJobMapping (jobId : string) : M Host unit :=
  let! snapId := gets (fun h => jobToSnapMap (svc h) !! jobId) in
  match truthy_string snapId with
  | None => throw (JErr ("job: " +:+ quoted jobId +:+ " has no mapped snap."))
  | Some snapId =>
      modify (on_svc (upd_jobToSnap (delete jobId))) ;;
      modify (on_svc (upd_snapToJob (delete snapId))) ;;
      _removeSnapHooks snapId
  end.

Definition terminate (jobId : string) : M Host unit :=
  let! jobWrapper := gets (fun h => jobs_get (jobs (svc h)) jobId) in
  match jobWrapper with
  | None => throw (job_not_found jobId)
  | Some jobWrapper =>
      let! snapId := gets (fun h => jobToSnapMap (svc h) !! jobId) in
      match truthy_string snapId with
      | None =>
          throw (JErr ("Failed to find a snap for job with id "
                       +:+ quoted jobId))
      | Some snapId =>
          modify (on_env (upd_heap (alter destroy_streams
                                          (streams jobWrapper)))) ;;
          modify (on_env (upd_document (remove_element (id jobWrapper)))) ;;
          (let! handle :=
             gets (fun h => _timeoutForUnresponsiveMap (svc h) !! snapId) in
           clearTimeout handle) ;;
          modify (on_svc (upd_timeoutMap (delete snapId))) ;;
          _removeSnapAndJobMapping jobId ;;
          _deleteJob jobId
      end
  end.

Definition terminateSnap (snapId : string) : M Host unit :=
  let! jobId := gets (fun h => snapToJobMap (svc h) !! snapId) in
  match truthy_string jobId with
  | None =>
      throw (JErr ("Job not found for snap with id " +:+ quoted snapId
                   +:+ "."))
  | Some jobId => terminate jobId
  end.

Fixpoint for_of (keys : list string) (body : string -> M Host unit)
    : M Host unit :=
  match keys with
  | [] => ret tt
  | k :: keys' => body k ;; for_of keys' body
  end.

(** The loop deletes only the entry it is visiting, so iterating the keys
    present at its start is what the live [Map] iterator yields. *)
Definition terminateAllSnaps : M Host unit :=
  let! keys := gets (fun h => jobs_keys (jobs (svc h))) in
  for_of keys terminate ;;
  modify (on_svc (upd_hooks (fun _ => ∅))).

Definition getRpcMessageHandler (snapId : string) (h : Host)
    : option SnapRpcHook :=
  _snapRpcHooks (svc h) !! snapId.

(** *** [_command], on both sides of its [await] *)

Definition request (id method : string) (params : list (string * JsValue))
    : JsValue :=
  JObj ([("jsonrpc", JStr "2.0"); ("method", JStr method)] ++ params
        ++ [("id", JStr id)]).

(** *** The JSON-RPC engine of a job and its stream middleware

    [_init] gives every job a [JsonRpcEngine] whose only middleware is a
    stream middleware, and pumps the stream of that middleware into the
    command substream of the job and back. The three are libraries
    (json-rpc-engine, json-rpc-middleware-stream and eth-rpc-errors, pump);
    what follows is what they do with the requests and the replies of a
    job. *)

(** The [idMap] of the stream middleware: [idMap[req.id] = ...] when a
    request is written, [idMap[res.id]] and [delete idMap[res.id]] when a
    reply is read. The key is the id as a property name. *)
Definition registered (jobId key : string) (m : list (string * string))
    : bool :=
  existsb (fun e => String.eqb (fst e) jobId && String.eqb (snd e) key) m.

Definition register (jobId key : string) (m : list (string * string))
    : list (string * string) :=
  if registered jobId key m then m else m ++ [(jobId, key)].

Definition unregister (jobId key : string) (m : list (string * string))
    : list (string * string) :=
  List.filter
    (fun e => negb (String.eqb (fst e) jobId && String.eqb (snd e) key)) m.

(** The messages eth-rpc-errors has for the error codes it knows. *)
Definition errorValues (code : Z) : option string :=
  if code =? -32700 then
    Some ("Invalid JSON was received by the server. "
          +:+ "An error occurred on the server while parsing the JSON text.")
  else if code =? -32600 then Some "The JSON sent is not a valid Request object."
  else if code =? -32601 then Some "The method does not exist / is not available."
  else if code =? -32602 then Some "Invalid method parameter(s)."
  else if code =? -32603 then Some "Internal JSON-RPC error."
  else if code =? -32000 then Some "Invalid input."
  else if code =? -32001 then Some "Resource not found."
  else if code =? -32002 then Some "Resource unavailable."
  else if code =? -32003 then Some "Transaction rejected."
  else if code =? -32004 then Some "Method not supported."
  else if code =? -32005 then Some "Request limit exceeded."
  else if code =? 4001 then Some "User rejected the request."
  else if code =? 4100 then
    Some ("The requested account and/or method has not been authorized "
          +:+ "by the user.")
  else if code =? 4200 then
    Some "The requested method is not supported by this Ethereum provider."
  else if code =? 4900 then Some "The provider is disconnected from all chains."
  else if code =? 4901 then
    Some "The provider is disconnected from the specified chain."
  else None.

Definition isJsonRpcServerError (code : Z) : bool :=
  (-32099 <=? code) && (code <=? -32000).

Definition isValidCode (code : JsValue) : bool :=
  match code with
  | JNum n =>
      match errorValues n with
      | Some _ => true
      | None => isJsonRpcServerError n
      end
  | _ => false
  end.

Definition getMessageFromCode (code : JsValue) : string :=
  match code with
  | JNum n =>
      match errorValues n with
      | Some message => message
      | None =>
          if isJsonRpcServerError n then "Unspecified server error."
          else "Unspecified error message. This is a bug, please report it."
      end
  | _ => "Unspecified error message. This is a bug, please report it."
  end.

(** [serializeError(error)] for a truthy [error], as the engine calls it:
    the [code] and the [message] of the serialized error. Its [data], a copy
    of the original error, is left out; [_command] does not read it. The
    message of the error is kept when it is a non-empty string; otherwise it
    is the message of the code of the error, when that is a code of the
    tables, and "Internal JSON-RPC error." when not. *)
Definition serializeError (error : JsValue) : JsValue :=
  let message := default JUndefined (get error "message") in
  let kept := truthy message && String.eqb (typeof message) "string" in
  let code := default JUndefined (get error "code") in
  if String.eqb (typeof error) "object" && negb (isArray error)
     && hasKey error "code" && isValidCode code
  then
    JObj [("code", code);
          ("message",
           if kept then message else JStr (getMessageFromCode code))]
  else
    JObj [("code", JNum (-32603));
          ("message",
           if kept then message else JStr "Internal JSON-RPC error.")].

(** What [rpcEngine.handle(message)] resolves with once the reply [data] to
    the request has come: the stream middleware copies [data] onto the
    response and ends the request, and the engine replaces a truthy [error]
    by its serialization, dropping the [result]. Of the response this keeps
    the two properties [_command] reads. [None]: a reply that has neither a
    [result] nor an [error] property, which the controller of the isolate
    never writes ([respond] is always given one of the two); the engine
    fails such a request with an error that quotes the request as JSON
    text, and that text is left out here. *)
Definition handled (data : JsValue) : option JsValue :=
  let error := default JUndefined (get data "error") in
  if truthy error then Some (JObj [("error", serializeError error)])
  else if hasKey data "result" || hasKey data "error" then
    Some (JObj [("result", default JUndefined (get data "result"));
                ("error", error)])
  else None.

(** [pump] destroys the streams it joined when one of them fails; a stream
    whose [destroy] throws stays as it is (the throw leaves the event
    handler of [pump], nothing catches it). *)
Definition pump_destroy (s : Stream) : Stream :=
  if destroyed s || destroy_throws s then s
  else mkStream true (destroy_throws s) (errorHandler_on s).

Definition fail_command (js : JobStreams) : JobStreams :=
  mkJobStreams (pump_destroy (command js)) (rpc js) (_connection js).

(** Up to [await jobWrapper.rpcEngine.handle(message)]: the engine hands
    the message to the stream middleware, which writes it to the command
    substream of the job and files it under its id. *)
Definition _command_send (jobId : string) (message : JsValue) : M Host unit :=
  if negb (String.eqb (typeof message) "object") then
    throw (JErr "Must send object.")
  else
    let! jobWrapper := gets (fun h => jobs_get (jobs (svc h)) jobId) in
    match jobWrapper with
    | None => throw (job_not_found jobId)
    | Some _ =>
        modify (on_env (upd_sent (fun l => l ++ [(jobId, message)]))) ;;
        modify (on_env (upd_idMap
          (register jobId (toString (default JUndefined (get message "id"))))))
    end.

(** From the response on. *)
Definition _command_result (response : JsValue) : Result JsValue :=
  match get response "error" with
  | None => Thrown (JErr "Cannot read properties")
  | Some error =>
      if truthy error then
        Thrown (newError (default JUndefined (get error "message")))
      else Ok (default JUndefined (get response "result"))
  end.

(** *** Asynchronous methods, one definition per stretch between awaits *)

Inductive Task : Type :=
| CreatingWindow (snapData : SnapData) (jobId : string) (errorTimeout : nat)
| InitPing (snapData : SnapData) (jobId : string) (id : string)
| ExecuteCommand (snapData : SnapData) (jobId : string) (id : string)
| JobStatus (snapId jobId : string) (timeout : nat) (id : string)
| HookCall (jobId : string) (id : string).

(** A stretch either suspends on a task or returns; a throw rejects the
    promise of the call. *)
Inductive Progress : Type :=
| Await (t : Task)
| Return (v : JsValue).

Definition _createWindow (jobId : string) : M Host nat :=
  let! timeout := gets (fun h => _createWindowTimeout (svc h)) in
  let! errorTimeout := setTimeout (WindowTimedOut jobId) timeout in
  modify (on_env (upd_document (fun d => d ++ [jobId]))) ;;
  ret errorTimeout.

(** [executeSnap] up to the [await] inside [_createWindow]; [nanoid] is the
    id minted by [_init]. *)
Definition executeSnap (snapData : SnapData) (nanoid : string)
    : M Host Progress :=
  let! running := gets (fun h => snapToJobMap (svc h) !! snapId snapData) in
  match running with
  | Some _ =>
      throw (JErr ("Snap " +:+ quoted (snapId snapData)
                   +:+ " is already being executed."))
  | None =>
      let jobId := nanoid in
      let! errorTimeout := _createWindow jobId in
      ret (Await (CreatingWindow snapData jobId errorTimeout))
  end.

Definition createStream (destroy_throws : bool) : Stream :=
  mkStream false destroy_throws false.

(** The rest of [_initStreams]: the three stream objects, with the error
    listener put on the command substream. [faults] are the [destroy]
    behaviours of the objects the platform hands out. *)
Definition _initStreams (jobId : string) (faults : bool * bool * bool)
    : M Host string :=
  let '(fc, fr, fx) := faults in
  let commandStream := mkStream false fc true in
  modify (on_env (upd_heap (insert jobId
     (mkJobStreams commandStream (Some (createStream fr)) (createStream fx))))) ;;
  ret jobId.

(** The iframe fired [load]: [_createWindow] resolves, and [_initStreams]
    and [_init] run up to the [await] of the first ping. *)
Definition _init_loaded (snapData : SnapData) (jobId : string)
    (errorTimeout : nat) (faults : bool * bool * bool) (nanoid : string)
    : M Host Progress :=
  clearTimeout (Some errorTimeout) ;;
  let! streams := _initStreams jobId faults in
  _setJob jobId (mkEnvMetadata jobId streams) ;;
  _command_send jobId (request nanoid "ping" []) ;;
  ret (Await (InitPing snapData jobId nanoid)).

(** The [errorTimeout] of [_createWindow] fired. *)
Definition _createWindow_timeout (jobId : string) : M Host Progress :=
  modify (on_env (upd_document (remove_element jobId))) ;;
  let! uri := gets (fun h => iframeUrl (svc h)) in
  throw (JErr ("Timed out creating iframe window: " +:+ quoted uri)).

(** The first ping was answered: [_init] returns the job, and [executeSnap]
    runs up to the [await] of the [executeSnap] command. *)
Definition executeSnap_spawned (snapData : SnapData) (jobId : string)
    (response : JsValue) (nanoid : string) : M Host Progress :=
  match _command_result response with
  | Thrown e => throw e
  | Ok _ =>
      _mapSnapAndJob (snapId snapData) jobId ;;
      try_catch
        (_command_send jobId
           (request nanoid "executeSnap"
              [("params", SnapData_to_js snapData)]) ;;
         ret (Await (ExecuteCommand snapData jobId nanoid)))
        (fun error => terminate jobId ;; throw error)
  end.

Definition setupSnapProvider (snapId stream : string) : M Host unit :=
  modify (on_env (upd_provided (fun l => l ++ [(snapId, stream)]))).

Definition _pollForJobStatus (snapId : string) : M Host unit :=
  let! jobId := gets (fun h => snapToJobMap (svc h) !! snapId) in
  match truthy_string jobId with
  | None => throw (JErr "no job id found for snap")
  | Some jobId =>
      let! interval := gets (fun h => _unresponsivePollingInterval (svc h)) in
      let! timeout := setTimeout (PollCallback snapId jobId) interval in
      modify (on_svc (upd_timeoutMap (insert snapId timeout)))
  end.

(** The [executeSnap] command was answered. *)
Definition executeSnap_answered (snapData : SnapData) (jobId : string)
    (response : JsValue) : M Host Progress :=
  match _command_result response with
  | Thrown error => terminate jobId ;; throw error
  | Ok result =>
      setupSnapProvider (snapId snapData) jobId ;;
      _pollForJobStatus (snapId snapData) ;;
      _createSnapHooks (snapId snapData) jobId ;;
      ret (Return result)
  end.

(** The timer set by [_pollForJobStatus] fired: [_getJobStatus] arms its
    timeout and sends the ping; a ping that cannot be sent rejects the race
    at once. *)
Definition poll_fired (snapId jobId nanoid : string) : M Host Progress :=
  let! limit := gets (fun h => _unresponsiveTimeout (svc h)) in
  let! timeout := setTimeout PingTimedOut limit in
  try_catch
    (_command_send jobId (request nanoid "ping" [("params", JArr [])]) ;;
     ret (Await (JobStatus snapId jobId timeout nanoid)))
    (fun _ => publish (Unresponsive snapId) ;; ret (Return JUndefined)).

(** The ping of the race was answered before the timeout. *)
Definition poll_answered (snapId : string) (timeout : nat)
    (response : JsValue) : M Host Progress :=
  match _command_result response with
  | Ok _ =>
      clearTimeout (Some timeout) ;;
      try_catch (_pollForJobStatus snapId)
                (fun _ => publish (Unresponsive snapId)) ;;
      ret (Return JUndefined)
  | Thrown _ => publish (Unresponsive snapId) ;; ret (Return JUndefined)
  end.

(** The timeout of the race fired before the ping was answered. *)
Definition poll_timed_out (snapId : string) : M Host Progress :=
  publish (Unresponsive snapId) ;; ret (Return JUndefined).

(** Calling the hook closure, up to the [await] in [_command]. *)
Definition rpcHook (hook : SnapRpcHook) (origin : string) (request_ : JsValue)
    (nanoid : string) : M Host Progress :=
  _command_send (hook_jobId hook)
    (request nanoid "snapRpc"
       [("params", JObj [("origin", JStr origin); ("request", request_);
                         ("target", JStr (hook_snapId hook))])]) ;;
  ret (Await (HookCall (hook_jobId hook) nanoid)).

Definition rpcHook_answered (response : JsValue) : M Host Progress :=
  match _command_result response with
  | Ok result => ret (Return result)
  | Thrown e => throw e
  end.

(** The out-of-band error listener of [_initStreams]. *)
Definition set_errorHandler (on : bool) (js : JobStreams) : JobStreams :=
  mkJobStreams
    (mkStream (destroyed (command js)) (destroy_throws (command js)) on)
    (rpc js) (_connection js).

Definition errorHandler (jobId : string) (data : JsValue) : M Host unit :=
  match get data "error", get data "id" with
  | Some error, Some id =>
      if truthy error && is_nullish id then
        (let! snapId := gets (fun h => jobToSnapMap (svc h) !! jobId) in
         match truthy_string snapId with
         | Some snapId => publish (UnhandledError snapId error)
         | None => ret tt
         end) ;;
        modify (on_env (upd_heap (alter (set_errorHandler false) jobId)))
      else ret tt
  | _, _ => throw (JErr "Cannot read properties")
  end.

(** A message arrives on the command substream of a job: it is handed to
    the error listener while that is attached. *)
Definition emit_data (jobId : string) (data : JsValue) : M Host unit :=
  let! js := gets (fun h => heap (env h) !! jobId) in
  match js with
  | Some js =>
      if errorHandler_on (command js) then errorHandler jobId data else ret tt
  | None => ret tt
  end.

(** What the stream middleware of a job makes of a message of the command
    substream, which the listener of [_initStreams] has seen first. *)
Inductive Arrival : Type :=
| Notified                  (* no id: a notification; nothing listens *)
| Answered (key : string)   (* the reply to the request filed under [key] *)
| Failed.                   (* an id that no request is filed under *)

(** A message with a falsy [id] is a notification. A reply takes its
    request out of the [idMap]. For any other id the middleware throws
    "Unknown response id", its stream fails, and [pump] destroys the command
    substream; job, mapping and hooks stay as they are. [None]: the job has
    no streams, its command substream is destroyed, or the message is [null]
    or [undefined], which a stream in object mode does not carry. *)
Definition arrive (jobId : string) (data : JsValue) (h : Host)
    : option (Arrival * Host) :=
  match heap (env h) !! jobId, get data "id" with
  | Some js, Some id =>
      if destroyed (command js) then None
      else
        let h1 := snd (emit_data jobId data h) in
        if negb (truthy id) then Some (Notified, h1)
        else if registered jobId (toString id) (idMap (env h1)) then
          Some (Answered (toString id),
                on_env (upd_idMap (unregister jobId (toString id))) h1)
        else Some (Failed, on_env (upd_heap (alter fail_command jobId)) h1)
  | _, _ => None
  end.

(** *** The service on the host event loop *)

(** The calls whose promises the service settles. *)
Inductive Call : Type :=
| Of_executeSnap (snapData : SnapData)
| Of_terminateSnap (snapId : string)
| Of_terminate (jobId : string)
| Of_terminateAllSnaps
| Of_rpcHook (jobId : string)
| Of_poll (snapId : string).

(** [minted] are the ids [nanoid] does not return (any more): those it has
    returned and, from the start, the empty string; [confirmed] the snaps
    and jobs whose [executeSnap] command the isolate answered with a result,
    [results] the settled promises. The last two only record. *)
Record System : Type := mkSystem {
  host : Host;
  pending : list Task;
  minted : list string;
  confirmed : list (string * string);
  results : list (Call * Result JsValue);
}.

Definition start (a : Args) : System := mkSystem (new_Host a) [] [""] [] [].

(** One turn of the event loop is one of these. *)
Inductive Event : Type :=
| Call_executeSnap (snapData : SnapData)
| Call_terminateSnap (snapId : string)
| Call_terminate (jobId : string)
| Call_terminateAllSnaps
| Call_rpcHook (snapId origin : string) (request_ : JsValue)
| IframeLoad (jobId : string) (faults : bool * bool * bool)
| CommandData (jobId : string) (data : JsValue)
| TimerFires (handle : nat).

Definition call_of (t : Task) : Call :=
  match t with
  | CreatingWindow d _ _ | InitPing d _ _ | ExecuteCommand d _ _ =>
      Of_executeSnap d
  | JobStatus s _ _ _ => Of_poll s
  | HookCall j _ => Of_rpcHook j
  end.

Definition is_creating (jobId : string) (t : Task) : bool :=
  match t with
  | CreatingWindow _ j _ => String.eqb j jobId
  | _ => false
  end.

Definition awaits_response (jobId rid : string) (t : Task) : bool :=
  match t with
  | InitPing _ j i | ExecuteCommand _ j i | JobStatus _ j _ i | HookCall j i =>
      String.eqb j jobId && String.eqb i rid
  | CreatingWindow _ _ _ => false
  end.

Definition races_with (handle : nat) (t : Task) : bool :=
  match t with
  | JobStatus _ _ timeout _ => Nat.eqb timeout handle
  | _ => false
  end.

(** The first task that satisfies [p], and the others. *)
Fixpoint take (p : Task -> bool) (l : list Task) : option (Task * list Task) :=
  match l with
  | [] => None
  | t :: l' =>
      if p t then Some (t, l')
      else match take p l' with
           | Some (t', rest) => Some (t', t :: rest)
           | None => None
           end
  end.

Definition with_host (h : Host) (σ : System) : System :=
  mkSystem h (pending σ) (minted σ) (confirmed σ) (results σ).
Definition with_pending (l : list Task) (σ : System) : System :=
  mkSystem (host σ) l (minted σ) (confirmed σ) (results σ).

(** Where a stretch of a call ended. *)
Definition settle (c : Call) (r : Result Progress * Host) (σ : System)
    : System :=
  match r with
  | (Ok (Await t), h) =>
      mkSystem h (pending σ ++ [t]) (minted σ) (confirmed σ) (results σ)
  | (Ok (Return v), h) =>
      mkSystem h (pending σ) (minted σ) (confirmed σ)
               (results σ ++ [(c, Ok v)])
  | (Thrown e, h) =>
      mkSystem h (pending σ) (minted σ) (confirmed σ)
               (results σ ++ [(c, Thrown e)])
  end.

Definition settle_sync (c : Call) (r : Result unit * Host) (σ : System)
    : System :=
  settle c (match fst r with
            | Ok _ => Ok (Return JUndefined)
            | Thrown e => Thrown e
            end, snd r) σ.

Definition resume (t : Task) (response : JsValue) (nanoid : string)
    : M Host Progress :=
  match t with
  | InitPing d j _ => executeSnap_spawned d j response nanoid
  | ExecuteCommand d j _ => executeSnap_answered d j response
  | JobStatus s _ timeout _ => poll_answered s timeout response
  | HookCall _ _ => rpcHook_answered response
  | CreatingWindow _ _ _ => ret (Return JUndefined)
  end.

Definition confirm (t : Task) (response : JsValue) (σ : System) : System :=
  match t, _command_result response with
  | ExecuteCommand d j _, Ok _ =>
      mkSystem (host σ) (pending σ) (minted σ)
               (confirmed σ ++ [(snapId d, j)]) (results σ)
  | _, _ => σ
  end.

(** [step ev nanoid σ] is the state after the turn [ev], in which [nanoid]
    is the id minted if the turn mints one; [None] when [ev] cannot happen
    in [σ]: no such timer or waiting iframe, a command substream that is
    absent or destroyed, or an id that [nanoid] does not return; and for
    the one reply that is left out, see [handled]. A reply is read by the
    stream middleware in the turn in which it arrives; the engine ends the
    request from a timer that it sets to fire at once, and the call that
    awaits the reply goes on, in this same turn, with what the engine made
    of it. The reply to a request that no call awaits any more (a ping
    whose timeout has fired) only leaves the [idMap]. *)
Definition step (ev : Event) (nanoid : string) (σ0 : System) : option System :=
  if decide (nanoid ∈ minted σ0) then None else
  let σ := mkSystem (host σ0) (pending σ0) (nanoid :: minted σ0)
                    (confirmed σ0) (results σ0) in
  let h := host σ in
  match ev with
  | Call_executeSnap d =>
      Some (settle (Of_executeSnap d) (executeSnap d nanoid h) σ)
  | Call_terminateSnap s =>
      Some (settle_sync (Of_terminateSnap s) (terminateSnap s h) σ)
  | Call_terminate j =>
      Some (settle_sync (Of_terminate j) (terminate j h) σ)
  | Call_terminateAllSnaps =>
      Some (settle_sync Of_terminateAllSnaps (terminateAllSnaps h) σ)
  | Call_rpcHook s origin request_ =>
      match getRpcMessageHandler s h with
      | Some hook =>
          Some (settle (Of_rpcHook (hook_jobId hook))
                       (rpcHook hook origin request_ nanoid h) σ)
      | None => None
      end
  | IframeLoad j faults =>
      match take (is_creating j) (pending σ) with
      | Some (CreatingWindow d j' errorTimeout, rest) =>
          Some (settle (Of_executeSnap d)
                       (_init_loaded d j' errorTimeout faults nanoid h)
                       (with_pending rest σ))
      | _ => None
      end
  | CommandData j data =>
      match arrive j data h with
      | Some (Answered key, h1) =>
          match take (awaits_response j key) (pending σ) with
          | Some (t, rest) =>
              match handled data with
              | Some response =>
                  Some (confirm t response
                          (settle (call_of t) (resume t response nanoid h1)
                                  (with_pending rest σ)))
              | None => None
              end
          | None => Some (with_host h1 σ)
          end
      | Some (_, h1) => Some (with_host h1 σ)
      | None => None
      end
  | TimerFires handle =>
      match timers (env h) !! handle with
      | None => None
      | Some (callback, _) =>
          let h1 := on_env (upd_timers (delete handle)) h in
          match callback with
          | WindowTimedOut j =>
              match take (is_creating j) (pending σ) with
              | Some (t, rest) =>
                  Some (settle (call_of t) (_createWindow_timeout j h1)
                               (with_pending rest σ))
              | None => Some (with_host h1 σ)
              end
          | PollCallback s j =>
              Some (settle (Of_poll s) (poll_fired s j nanoid h1) σ)
          | PingTimedOut =>
              match take (races_with handle) (pending σ) with
              | Some (JobStatus s _ _ _, rest) =>
                  Some (settle (Of_poll s) (poll_timed_out s h1)
                               (with_pending rest σ))
              | _ => Some (with_host h1 σ)
              end
          end
      end
  end.

(** The turns of a run, each with the id it may mint. *)
Fixpoint run (evs : list (Event * string)) (σ : System) : option System :=
  match evs with
  | [] => Some σ
  | (ev, nanoid) :: evs' =>
      match step ev nanoid σ with
      | Some σ' => run evs' σ'
      | None => None
      end
  end.

Definition reachable (a : Args) (σ : System) : Prop :=
  ∃ evs, run evs (start a) = Some σ.

End Service.

(** ** Host and isolates together *)

Module Linked.
Import Worker Service.

(** [serve c message]: the controller of an isolate handles one message of
    the command stream; the second component is what it wrote in reply. *)
Definition serve `{!Compartment} (c : Controller) (message : JsValue)
    : Controller * list JsValue :=
  let c0 := mkController (snapRpcHandlers c) [] (console_error c) in
  let c1 := snd (onCommandRequest message c0) in
  (mkController (snapRpcHandlers c1) (commandStream c ++ commandStream c1)
                (console_error c1),
   commandStream c1).

(** [isolates] are the controllers of the loaded iframes, by job;
    [inflight] the replies written by isolates and not yet read by the
    host, oldest first. *)
Record World : Type := mkWorld {
  sys : System;
  isolates : gmap string Controller;
  inflight : list (string * JsValue);
}.

Definition boot (a : Args) : World := mkWorld (start a) ∅ [].

(** Whether the command substream of a job carries messages. *)
Definition connected (hp : gmap string JobStreams) (j : string) : bool :=
  match hp !! j with
  | Some js => negb (destroyed (command js))
  | None => false
  end.

(** The isolates read the messages the host wrote during a turn, over the
    command substreams that are not destroyed. *)
Fixpoint dispatch `{!Compartment} (hp : gmap string JobStreams)
    (msgs : list (string * JsValue))
    (cs : gmap string Controller) (replies : list (string * JsValue))
    : gmap string Controller * list (string * JsValue) :=
  match msgs with
  | [] => (cs, replies)
  | (j, m) :: msgs' =>
      match cs !! j with
      | Some c =>
          if connected hp j then
            let '(c', out) := serve c m in
            dispatch hp msgs' (<[j:=c']> cs) (replies ++ List.map (pair j) out)
          else dispatch hp msgs' cs replies
      | None => dispatch hp msgs' cs replies
      end
  end.

Inductive Turn : Type :=
| HostTurn (ev : Event)
| Deliver.

Definition turn `{!Compartment} (t : Turn) (nanoid : string) (w : World)
    : option World :=
  let before := length (sent (env (host (sys w)))) in
  let stepped :=
    match t with
    | HostTurn ev => (λ σ, (σ, inflight w)) <$> step ev nanoid (sys w)
    | Deliver =>
        match inflight w with
        | (j, data) :: rest =>
            (λ σ, (σ, rest)) <$> step (CommandData j data) nanoid (sys w)
        | [] => None
        end
    end in
  match stepped with
  | None => None
  | Some (σ, replies) =>
      let cs :=
        match t with
        | HostTurn (IframeLoad j _) => <[j:=new_Controller]> (isolates w)
        | _ => isolates w
        end in
      let '(cs', replies') :=
        dispatch (heap (env (host σ))) (drop before (sent (env (host σ))))
                 cs replies in
      Some (mkWorld σ cs' replies')
  end.

Fixpoint play `{!Compartment} (ts : list (Turn * string)) (w : World)
    : option World :=
  match ts with
  | [] => Some w
  | (t, nanoid) :: ts' =>
      match turn t nanoid w with
      | Some w' => play ts' w'
      | None => None
      end
  end.

(** The hook closure called on the host and the request answered by the
    controller [c] of the isolate of its job: the reply of the isolate goes
    through the stream middleware and the engine of the job, as in a
    [CommandData] turn. [None]: the promise stays pending (the command
    substream is destroyed, the isolate does not reply, or its reply is not
    taken for the answer of the request). *)
Definition hook_call `{!Compartment} (hook : SnapRpcHook) (origin : string)
    (request_ : JsValue) (nanoid : string) (h : Host) (c : Controller)
    : option (Result JsValue) :=
  match rpcHook hook origin request_ nanoid h with
  | (Ok (Await t), h') =>
      match last (sent (env h')) with
      | Some (j, message) =>
          match snd (serve c message) with
          | reply :: _ =>
              match arrive j reply h', handled reply with
              | Some (Answered key, h''), Some response =>
                  if awaits_response j key t then
                    match fst (resume t response nanoid h'') with
                    | Ok (Return v) => Some (Ok v)
                    | Ok (Await _) => None
                    | Thrown e => Some (Thrown e)
                    end
                  else None
              | _, _ => None
              end
          | [] => None
          end
      | None => None
      end
  | (Ok (Return v), _) => Some (Ok v)
  | (Thrown e, _) => Some (Thrown e)
  end.

End Linked.

(** ** Properties *)

Module Props.
Import Worker Service Linked.

(** The handler [async (o, r) => r.method]. *)
Definition echo_method : SnapRpcHandler :=
  fun _ request_ => Returns (default JUndefined (get request_ "method")).

(** A compartment for the examples: what two source texts do when they
    are evaluated; any other text does nothing. *)
Definition demo_Compartment : Compartment := fun src =>
  if String.eqb src "throw new Error('boom')" then [Throw (JErr "boom")]
  else if String.eqb src
            "wallet.registerRpcMessageHandler(async (o,r)=>r.method)"
  then [RegisterRpcMessageHandler echo_method]
  else [].

Definition default_Args : Args := mkArgs None "https://iframe.example" None None.

Definition snapA : SnapData :=
  mkSnapData "A" "wallet.registerRpcMessageHandler(async (o,r)=>r.method)".

(** Streams whose [destroy] does not throw. *)
Definition sound : bool * bool * bool := (false, false, false).

(** [executeSnap] of [d] on a healthy isolate, turn by turn: the call, the
    load of the iframe, the reply to the ping, the reply to the command. *)
Definition executes (d : SnapData) (jobId i1 i2 i3 : string)
    : list (Turn * string) :=
  [(HostTurn (Call_executeSnap d), jobId);
   (HostTurn (IframeLoad jobId sound), i1);
   (Deliver, i2);
   (Deliver, i3)].

Definition world_of (w : option World) : World :=
  default (boot default_Args) w.

(** The host once snap "A" runs in job "j1". *)
Definition hostA : Host :=
  host (sys (world_of (@play demo_Compartment
                         (executes snapA "j1" "p1" "c1" "z1")
                         (boot default_Args)))).

Definition listener_on (h : Host) (j : string) : Prop :=
  ∃ js, heap (env h) !! j = Some js ∧ errorHandler_on (command js) = true.

Definition listener_off (h : Host) (j : string) : Prop :=
  ∃ js, heap (env h) !! j = Some js ∧ errorHandler_on (command js) = false.

Definition oob_error (m : string) : JsValue :=
  JObj [("error", JObj [("message", JStr m)]); ("id", JNull)].

(** The effect of [clearTimeout handle]. *)
Definition clear (handle : option nat) (h : Host) : Host :=
  match handle with
  | Some t => on_env (upd_timers (delete t)) h
  | None => h
  end.

(** The host after a [terminate jobId] that does not throw, for the job
    record [jw] and the snap [s] of the job. *)
Definition terminated (j : string) (jw : EnvMetadata) (s : string) (h : Host)
    : Host :=
  on_svc (upd_jobs (jobs_delete j))
    (on_svc (upd_hooks (delete s))
      (on_svc (upd_snapToJob (delete s))
        (on_svc (upd_jobToSnap (delete j))
          (on_svc (upd_timeoutMap (delete s))
            (clear (_timeoutForUnresponsiveMap (svc h) !! s)
              (on_env (upd_document (remove_element (id jw)))
                (on_env (upd_heap (alter destroy_streams (streams jw)))
                   h))))))).

(** The maps of the service fit together: every job record is filed under
    its own id, a mapped job is in the jobs map, the snap-to-job map is
    inverted by the job-to-snap map, a liveness timer belongs to a mapped
    snap, and no id occurs twice among the keys of the jobs map or among the
    iframes of the document. *)
Record wf_at (s : Service) (doc : list string) : Prop := mk_wf {
  wf_keys : NoDup (jobs_keys (jobs s));
  wf_record : ∀ j jw, jobs_get (jobs s) j = Some jw → id jw = j ∧ streams jw = j;
  wf_jobs : ∀ j sn, jobToSnapMap s !! j = Some sn → is_Some (jobs_get (jobs s) j);
  wf_snaps : ∀ sn j, snapToJobMap s !! sn = Some j → jobToSnapMap s !! j = Some sn;
  wf_timers : ∀ sn, is_Some (_timeoutForUnresponsiveMap s !! sn) →
              is_Some (snapToJobMap s !! sn);
  wf_document : NoDup doc;
}.
Arguments wf_keys {s doc}.
Arguments wf_record {s doc}.
Arguments wf_jobs {s doc}.
Arguments wf_snaps {s doc}.
Arguments wf_timers {s doc}.
Arguments wf_document {s doc}.

Definition wf (h : Host) : Prop := wf_at (svc h) (document (env h)).

(** A stream after [terminate]: destroyed, unless its [destroy] threw. *)
Definition gone (st : Stream) : Prop :=
  destroyed st = true ∨ destroy_throws st = true.

Definition all_gone (js : JobStreams) : Prop :=
  gone (command js) ∧ (∀ r, rpc js = Some r → gone r) ∧ gone (_connection js).

(** The job a task is still spawning. *)
Definition spawning (t : Task) : option string :=
  match t with
  | CreatingWindow _ j _ | InitPing _ j _ => Some j
  | _ => None
  end.

(** What holds of the service after every turn of the event loop, stated
    on the fields it is about: the maps fit together; every job in the jobs
    map has its stream objects; a hook was installed for the snap it is
    filed under, after the isolate confirmed that snap and job, and its
    snap is in the mapping; the ids of iframes and jobs were minted; the
    jobs that pending calls are still spawning are distinct, minted and not
    yet mapped; and a call that awaits its first ping has its job in the
    jobs map. *)
Record Inv_at (s : Service) (doc : list string) (hp : gmap string JobStreams)
    (p : list Task) (m : list string) (c : list (string * string)) : Prop :=
  mk_Inv {
  inv_wf : wf_at s doc;
  inv_streams : ∀ j, is_Some (jobs_get (jobs s) j) → is_Some (hp !! j);
  inv_hooks : ∀ sn hk, _snapRpcHooks s !! sn = Some hk →
              hook_snapId hk = sn ∧ (sn, hook_jobId hk) ∈ c;
  inv_hooked : ∀ sn, is_Some (_snapRpcHooks s !! sn) →
               is_Some (snapToJobMap s !! sn);
  inv_doc_minted : ∀ j, j ∈ doc → j ∈ m;
  inv_jobs_minted : ∀ j, is_Some (jobs_get (jobs s) j) → j ∈ m;
  inv_spawning : NoDup (omap spawning p);
  inv_spawning_new : ∀ j, j ∈ omap spawning p →
                     j ∈ m ∧ jobToSnapMap s !! j = None;
  inv_pinging : ∀ d j i, InitPing d j i ∈ p → is_Some (jobs_get (jobs s) j);
}.
Arguments inv_wf {s doc hp p m c}.
Arguments inv_streams {s doc hp p m c}.
Arguments inv_hooks {s doc hp p m c}.
Arguments inv_hooked {s doc hp p m c}.
Arguments inv_doc_minted {s doc hp p m c}.
Arguments inv_jobs_minted {s doc hp p m c}.
Arguments inv_spawning {s doc hp p m c}.
Arguments inv_spawning_new {s doc hp p m c}.
Arguments inv_pinging {s doc hp p m c}.

Definition Inv (σ : System) : Prop :=
  Inv_at (svc (host σ)) (document (env (host σ))) (heap (env (host σ)))
         (pending σ) (minted σ) (confirmed σ).

(** Reads fields through the updates of the records. *)
Ltac proj :=
  cbn [svc env on_svc on_env
       _snapRpcHooks iframeUrl jobs snapToJobMap jobToSnapMap
       _createWindowTimeout _unresponsivePollingInterval _unresponsiveTimeout
       _timeoutForUnresponsiveMap
       document heap timers nextTimer published provided sent idMap
       upd_hooks upd_jobs upd_snapToJob upd_jobToSnap upd_timeoutMap
       upd_document upd_heap upd_timers upd_nextTimer upd_published
       upd_provided upd_sent upd_idMap
       host pending minted confirmed results with_host with_pending
       fst snd] in *.

Definition Inv_host (h : Host) (p : list Task) (m : list string)
    (c : list (string * string)) : Prop :=
  Inv_at (svc h) (document (env h)) (heap (env h)) p m c.

(** What the invariant asks of the outcome of a stretch. *)
Definition Inv_settled (r : Result Progress * Host) (p : list Task)
    (m : list string) (c : list (string * string)) : Prop :=
  match r with
  | (Ok (Await t), h) => Inv_host h (t :: p) m c
  | (_, h) => Inv_host h p m c
  end.

(** What [confirm] adds to the confirmed snaps. *)
Definition confirmation (t : Task) (response : JsValue)
    : list (string * string) :=
  match t, _command_result response with
  | ExecuteCommand d j _, Ok _ => [(snapId d, j)]
  | _, _ => []
  end.

(** What the isolate side does while one call of [executeSnap] runs to
    completion: the iframe never loads, or it loads and the isolate answers
    the first ping and, if it gets that far, the [executeSnap] command;
    [pong] and [answer] are the responses the engine of the job resolves
    the two requests with. The answers carry the id of their request, so the
    out-of-band listener ignores them. *)
Inductive Behaviour : Type :=
| TimesOut
| Loads (faults : bool * bool * bool) (pong answer : JsValue).

(** The host once the stream middleware of the job [j] has read the reply
    to the request [i]. *)
Definition answered (j i : string) (h : Host) : Host :=
  on_env (upd_idMap (unregister j i)) h.

(** The promise of a call whose last stretch ended with [r]. *)
Definition finished (r : Result Progress * Host) : Result JsValue * Host :=
  match r with
  | (Ok (Return v), h) => (Ok v, h)
  | (Ok (Await _), h) => (Ok JUndefined, h)
  | (Thrown e, h) => (Thrown e, h)
  end.

(** [executeSnap snapData] from the call to the settling of its promise;
    [jobId], [id1] and [id2] are the ids [nanoid] returns. *)
Definition executeSnap_completed (d : SnapData) (b : Behaviour)
    (jobId id1 id2 : string) : M Host JsValue :=
  fun h =>
    match executeSnap d jobId h with
    | (Ok (Await (CreatingWindow _ j t)), h1) =>
        match b with
        | TimesOut =>
            finished (_createWindow_timeout j
                        (on_env (upd_timers (delete t)) h1))
        | Loads faults pong answer =>
            match _init_loaded d j t faults id1 h1 with
            | (Ok (Await _), h2) =>
                match executeSnap_spawned d j pong id2 (answered j id1 h2) with
                | (Ok (Await _), h3) =>
                    finished (executeSnap_answered d j answer
                                (answered j id2 h3))
                | r => finished r
                end
            | r => finished r
            end
        end
    | r => finished r
    end.

(** The states of the host between calls that are made one after the other,
    each awaited before the next; snap ids and minted ids are not empty,
    and [nanoid] does not return the id of a job that exists. *)
Inductive sequential (a : Args) : Host → Prop :=
| seq_start : sequential a (new_Host a)
| seq_executeSnap (h : Host) (d : SnapData) (b : Behaviour)
    (jobId id1 id2 : string) :
    sequential a h →
    snapId d ≠ "" → jobId ≠ "" → jobs_get (jobs (svc h)) jobId = None →
    sequential a (snd (executeSnap_completed d b jobId id1 id2 h))
| seq_terminateSnap (h : Host) (sn : string) :
    sequential a h → sequential a (snd (terminateSnap sn h)).

(** Hooks and mapping go together: a snap has a hook exactly when it is
    mapped, the two maps invert each other, and a mapped job is in the jobs
    map, under a snap id that is not empty. *)
Record paired (s : Service) : Prop := mk_paired {
  paired_hooks : ∀ sn, is_Some (_snapRpcHooks s !! sn)
                       ↔ is_Some (snapToJobMap s !! sn);
  paired_maps : ∀ sn j, snapToJobMap s !! sn = Some j
                        ↔ jobToSnapMap s !! j = Some sn;
  paired_named : ∀ j sn, jobToSnapMap s !! j = Some sn → sn ≠ "";
  paired_known : ∀ j sn, jobToSnapMap s !! j = Some sn →
                 is_Some (jobs_get (jobs s) j);
}.

(** The states of the host after the stretches of [executeSnap] and of the
    liveness loop, when they do not throw. *)
Definition mapped (sn j : string) (h : Host) : Host :=
  on_svc (upd_jobToSnap (insert j sn)) (on_svc (upd_snapToJob (insert sn j)) h).

Definition sent_to (j : string) (message : JsValue) (h : Host) : Host :=
  on_env (upd_idMap
            (register j (toString (default JUndefined (get message "id")))))
    (on_env (upd_sent (λ l, l ++ [(j, message)])) h).

Definition window_created (j : string) (h : Host) : Host :=
  on_env (upd_document (λ doc, doc ++ [j]))
    (on_env (λ p, upd_nextTimer S
               (upd_timers (insert (nextTimer (env h))
                              (WindowTimedOut j, _createWindowTimeout (svc h)))
                           p)) h).

Definition spawned (j : string) (t : nat) (faults : bool * bool * bool)
    (h : Host) : Host :=
  on_svc (upd_jobs (jobs_set j (mkEnvMetadata j j)))
    (on_env (upd_heap (insert j
       (mkJobStreams (mkStream false faults.1.1 true)
                     (Some (createStream faults.1.2))
                     (createStream faults.2))))
       (on_env (upd_timers (delete t)) h)).

Definition polled (sn j : string) (h : Host) : Host :=
  on_svc (upd_timeoutMap (insert sn (nextTimer (env h))))
    (on_env (λ p, upd_nextTimer S
               (upd_timers (insert (nextTimer (env h))
                              (PollCallback sn j,
                               _unresponsivePollingInterval (svc h))) p)) h).

(** The request a task awaits the answer of, and the timeout it races. *)
Definition request_id (t : Task) : option string :=
  match t with
  | InitPing _ _ i | ExecuteCommand _ _ i | JobStatus _ _ _ i | HookCall _ i =>
      Some i
  | CreatingWindow _ _ _ => None
  end.

Definition race_timer (t : Task) : option nat :=
  match t with
  | JobStatus _ _ timeout _ => Some timeout
  | _ => None
  end.

(** Pending tasks await distinct requests, with minted ids, and race
    distinct timers, set in the past. *)
Record Distinct_at (next : nat) (p : list Task) (m : list string) : Prop :=
  mk_Distinct {
  d_ids : NoDup (omap request_id p);
  d_ids_minted : ∀ i, i ∈ omap request_id p → i ∈ m;
  d_timers : NoDup (omap race_timer p);
  d_timers_old : ∀ t, t ∈ omap race_timer p → (t < next)%nat;
}.
Arguments d_ids {next p m}.
Arguments d_ids_minted {next p m}.
Arguments d_timers {next p m}.
Arguments d_timers_old {next p m}.

Definition Distinct (σ : System) : Prop :=
  Distinct_at (nextTimer (env (host σ))) (pending σ) (minted σ).

(** What a stretch run with the fresh id [n] from the timer count [next]
    may leave: a later timer count, and a task that awaits the request [n],
    if any, and races the timer [next], if any. *)
Definition modest (n : string) (next : nat) (r : Result Progress * Host)
    : Prop :=
  (next ≤ nextTimer (env (snd r)))%nat
  ∧ match fst r with
    | Ok (Await t) =>
        (request_id t = None ∨ request_id t = Some n)
        ∧ (race_timer t = None
           ∨ (race_timer t = Some next ∧ (next < nextTimer (env (snd r)))%nat))
    | _ => True
    end.

(** The job and the id of the request a task awaits the answer of. *)
Definition awaited_request (t : Task) : option (string * string) :=
  match t with
  | InitPing _ j i | ExecuteCommand _ j i | JobStatus _ j _ i | HookCall j i =>
      Some (j, i)
  | CreatingWindow _ _ _ => None
  end.

(** The request every pending task awaits is filed in the [idMap] of the
    stream middleware of its job, under an id that is not empty. *)
Record Filed_at (idm : list (string * string)) (p : list Task)
    (m : list string) : Prop := mk_Filed {
  f_minted : "" ∈ m;
  f_filed : ∀ j i, (j, i) ∈ omap awaited_request p →
            i ≠ "" ∧ registered j i idm = true;
}.
Arguments f_minted {idm p m}.
Arguments f_filed {idm p m}.

Definition Filed (σ : System) : Prop :=
  Filed_at (idMap (env (host σ))) (pending σ) (minted σ).

(** What a stretch run with the fresh id [n] from the host [h] may leave:
    the requests that were filed stay filed, and the request of the task it
    suspends on, if any, is filed under [n]. *)
Definition files (n : string) (h : Host) (r : Result Progress * Host) : Prop :=
  (∀ j i, registered j i (idMap (env h)) = true →
          registered j i (idMap (env (snd r))) = true)
  ∧ match fst r with
    | Ok (Await t) =>
        ∀ j i, awaited_request t = Some (j, i) →
               i = n ∧ registered j i (idMap (env (snd r))) = true
    | _ => True
    end.

(** A reply of a healthy isolate to the request [i]. *)
Definition ok_reply (i : string) : JsValue :=
  JObj [("result", JStr "OK"); ("id", JStr i); ("jsonrpc", JStr "2.0")].

(** A reply that refuses the request [i]. *)
Definition error_reply (i message : string) : JsValue :=
  JObj [("error", JObj [("message", JStr message)]); ("id", JStr i);
        ("jsonrpc", JStr "2.0")].

(** The turns of the host in which snap "A" gets to run in job "j1". *)
Definition spawnsA : list (Event * string) :=
  [(Call_executeSnap snapA, "j1");
   (IframeLoad "j1" sound, "p1");
   (CommandData "j1" (ok_reply "p1"), "c1")].

(** ... and in which the isolate confirms it. *)
Definition runsA : list (Event * string) :=
  spawnsA ++ [(CommandData "j1" (ok_reply "c1"), "z1")].

Definition system_of (σ : option System) : System :=
  default (start default_Args) σ.

Definition sysA : System := system_of (Service.run runsA (start default_Args)).

(** The same once the first poll timer has fired and the ping is out. *)
Definition sysP : System :=
  system_of (Service.run (runsA ++ [(TimerFires 2, "q1")]) (start default_Args)).

(** The host after one completed [executeSnap] of snap "A". *)
Definition seqA : Host :=
  snd (executeSnap_completed snapA
         (Loads sound (ok_reply "p1") (ok_reply "c1")) "j1" "p1" "c1"
         (new_Host default_Args)).

(** The controller of an isolate in which [handler] is registered for the
    snap [sn]. *)
Definition handling (sn : string) (handler : SnapRpcHandler) : Controller :=
  set_handlers (insert sn handler) new_Controller.

Definition worldA : World :=
  world_of (@play demo_Compartment (executes snapA "j1" "p1" "c1" "z1")
              (boot default_Args)).

Definition ctrlA : Controller := default new_Controller (isolates worldA !! "j1").

(** The state in which snap "A" runs in job "j1" and a message has come
    from the job with an id that no request is filed under. *)
Definition sysZ : System :=
  system_of (Service.run (runsA ++ [(CommandData "j1" (ok_reply "zz"), "q1")])
               (start default_Args)).

(** What [onCommandRequest] takes for a request: an object that is not
    [null] and not an array. *)
Definition is_request_object (message : JsValue) : bool :=
  truthy message && String.eqb (typeof message) "object"
  && negb (isArray message).

(** The object [respond] writes for the id [id_]. *)
Definition response_to (id_ : JsValue) (body : list (string * JsValue))
    : JsValue :=
  JObj (body ++ [("id", id_); ("jsonrpc", JStr "2.0")]).

(** Splits the next character of a string, bit by bit, closing the goals in
    which both sides of an equation already agree. *)
Ltac next_char m :=
  destruct m as [|[b0 b1 b2 b3 b4 b5 b6 b7] m]; [try reflexivity |];
  destruct b0; try reflexivity; destruct b1; try reflexivity;
  destruct b2; try reflexivity; destruct b3; try reflexivity;
  destruct b4; try reflexivity; destruct b5; try reflexivity;
  destruct b6; try reflexivity; destruct b7; try reflexivity.

(** The host while [_init] awaits the first ping of job "j1". *)
Definition hostI : Host :=
  host (system_of (Service.run [(Call_executeSnap snapA, "j1");
                                (IframeLoad "j1" sound, "p1")]
                               (start default_Args))).

(** The handles of the pending timers and the stored liveness handles were
    all handed out in the past, and a stored handle that is still pending
    is the poll of its snap. *)
Record Timed_at (s : Service) (tm : gmap nat (TimerCallback * Z)) (next : nat)
    : Prop := mk_Timed {
  t_fresh : ∀ t, is_Some (tm !! t) → (t < next)%nat;
  t_stored : ∀ sn t, _timeoutForUnresponsiveMap s !! sn = Some t →
             (t < next)%nat;
  t_poll : ∀ sn t cb d, _timeoutForUnresponsiveMap s !! sn = Some t →
           tm !! t = Some (cb, d) → ∃ j, cb = PollCallback sn j;
}.
Arguments t_fresh {s tm next}.
Arguments t_stored {s tm next}.
Arguments t_poll {s tm next}.

Definition Timed (h : Host) : Prop :=
  Timed_at (svc h) (timers (env h)) (nextTimer (env h)).

(** A computation that keeps the timers in order. *)
Definition keeps {A} (m : M Host A) : Prop :=
  ∀ h, Timed h → Timed (snd (m h)).

(** What a state the service has reached offers a call of [executeSnap]
    for a snap that is not mapped, with a job id that was not minted
    before: nothing of the snap or of the job is in the maps, the document
    or the timers. *)
Record fresh_for (h : Host) (s j : string) : Prop := mk_fresh {
  fresh_snap : snapToJobMap (svc h) !! s = None;
  fresh_hook : _snapRpcHooks (svc h) !! s = None;
  fresh_timer : _timeoutForUnresponsiveMap (svc h) !! s = None;
  fresh_job : jobs_get (jobs (svc h)) j = None;
  fresh_mapping : jobToSnapMap (svc h) !! j = None;
  fresh_iframe : j ∉ document (env h);
  fresh_handle : ∀ t, (nextTimer (env h) ≤ t)%nat → timers (env h) !! t = None;
}.
Arguments fresh_snap {h s j}.
Arguments fresh_hook {h s j}.
Arguments fresh_timer {h s j}.
Arguments fresh_job {h s j}.
Arguments fresh_mapping {h s j}.
Arguments fresh_iframe {h s j}.
Arguments fresh_handle {h s j}.

(** The host when [executeSnap] has sent its command to the job and the
    reply to it has been read. *)
Definition commanded (d : SnapData) (j : string) (faults : bool * bool * bool)
    (id1 id2 : string) (h : Host) : Host :=
  answered j id2
    (sent_to j (request id2 "executeSnap" [("params", SnapData_to_js d)])
       (mapped (snapId d) j
          (answered j id1
             (sent_to j (request id1 "ping" [])
                (spawned j (nextTimer (env h)) faults (window_created j h)))))).

(** No stream of the job has been destroyed. *)
Definition live (js : JobStreams) : Prop :=
  destroyed (command js) = false
  ∧ (∀ r, rpc js = Some r → destroyed r = false)
  ∧ destroyed (_connection js) = false.

(** The host after a successful [executeSnap]. *)
Definition executing (d : SnapData) (j : string) (faults : bool * bool * bool)
    (id1 id2 : string) (h : Host) : Host :=
  on_svc (upd_hooks (insert (snapId d) (mkSnapRpcHook (snapId d) j)))
    (polled (snapId d) j
       (on_env (upd_provided (λ l, l ++ [(snapId d, j)]))
          (commanded d j faults id1 id2 h))).

(** The job whose window a task is waiting for. *)
Definition creating (t : Task) : option string :=
  match t with
  | CreatingWindow _ j _ => Some j
  | _ => None
  end.

(** The iframes of the document are those of the jobs of the jobs map and
    of the jobs [cr] whose windows are still being created, one each; and
    the streams of a job that is not in the jobs map are destroyed. *)
Record Housed_at (js : list (string * EnvMetadata)) (doc : list string)
    (hp : gmap string JobStreams) (cr : list string) : Prop := mk_Housed {
  h_doc_nodup : NoDup doc;
  h_record : ∀ j jw, jobs_get js j = Some jw → id jw = j ∧ streams jw = j;
  h_creating_nodup : NoDup cr;
  h_doc : ∀ j, j ∈ doc ↔ is_Some (jobs_get js j) ∨ j ∈ cr;
  h_creating : ∀ j, j ∈ cr → jobs_get js j = None;
  h_heap : ∀ j s, hp !! j = Some s → is_Some (jobs_get js j) ∨ all_gone s;
}.
Arguments h_doc_nodup {js doc hp cr}.
Arguments h_record {js doc hp cr}.
Arguments h_creating_nodup {js doc hp cr}.
Arguments h_doc {js doc hp cr}.
Arguments h_creating {js doc hp cr}.
Arguments h_heap {js doc hp cr}.

Definition Housed (h : Host) (cr : list string) : Prop :=
  Housed_at (jobs (svc h)) (document (env h)) (heap (env h)) cr.

(** A computation that keeps the iframes and streams in order. *)
Definition houses {A} (cr : list string) (m : M Host A) : Prop :=
  ∀ h, Housed h cr → Housed (snd (m h)) cr.

(** A computation whose value, when it returns one, satisfies [ok]. *)
Definition yields {A} (ok : A → Prop) (m : M Host A) : Prop :=
  ∀ h a, fst (m h) = Ok a → ok a.

(** Does not suspend on the creation of a window. *)
Definition settled (r : Progress) : Prop :=
  match r with
  | Await t => creating t = None
  | Return _ => True
  end.

Definition Housed_sys (σ : System) : Prop :=
  Housed (host σ) (omap creating (pending σ)).

(** The tasks a stretch adds to the pending ones. *)
Definition awaited (r : Result Progress * Host) : list Task :=
  match fst r with
  | Ok (Await t) => [t]
  | _ => []
  end.

(** The host once snap "A" runs in job "j1" and a second call of
    [executeSnap], for snap "B", awaits the first ping of its job "j2". *)
Definition sysAB : System :=
  system_of (Service.run
               (runsA ++ [(Call_executeSnap (mkSnapData "B" "1"), "j2");
                          (IframeLoad "j2" sound, "p2")])
               (start default_Args)).

(** The state after snap "A" was executed and terminated again. *)
Definition sysT : System :=
  system_of (Service.run (runsA ++ [(Call_terminateSnap "A", "q1")])
               (start default_Args)).

(** *** executeSnap on a snap that is already mapped *)

Lemma executeSnap_mapped_rejects (d : SnapData) (nanoid : string) (h : Host) :
  is_Some (snapToJobMap (svc h) !! snapId d) →
  executeSnap d nanoid h
  = (Thrown (JErr ("Snap " +:+ quoted (snapId d)
                   +:+ " is already being executed.")), h).
Proof.
  intros [j Hj]. unfold executeSnap, bind, gets. rewrite Hj. reflexivity.
Qed.

(** C6: [executeSnap] with a snapId that is in the snap-to-job mapping
    rejects with the error "Snap ... is already being executed." and leaves
    the whole state of the host (jobs, mappings, hooks, timers and
    everything else) as it was. *)
Theorem executeSnap_already_executing (d : SnapData) (nanoid : string)
    (h : Host) :
  is_Some (snapToJobMap (svc h) !! snapId d) →
  executeSnap d nanoid h
  = (Thrown (JErr ("Snap " +:+ quoted (snapId d)
                   +:+ " is already being executed.")), h).
Proof. exact (executeSnap_mapped_rejects d nanoid h). Qed.

Lemma executeSnap_already_executing_witness :
  is_Some (snapToJobMap (svc hostA) !! "A")
  ∧ executeSnap snapA "j2" hostA
    = (Thrown (JErr ("Snap " +:+ quoted "A" +:+ " is already being executed.")),
       hostA).
Proof.
  assert (Hmapped : is_Some (snapToJobMap (svc hostA) !! snapId snapA))
    by (exists "j1"; vm_compute; reflexivity).
  split; [exact Hmapped |].
  exact (executeSnap_already_executing snapA "j2" hostA Hmapped).
Defined.

(** *** The out-of-band error listener *)

Lemma emit_data_detached (h : Host) (j : string) (data : JsValue) :
  listener_off h j → emit_data j data h = (Ok tt, h).
Proof.
  intros (js & Hjs & Hoff). unfold emit_data, bind, gets.
  rewrite Hjs, Hoff. reflexivity.
Qed.

(** C9, amended: while the listener is attached to the command substream of
    a job that is mapped to a snap, a message with a truthy [error] and a
    null or undefined [id] publishes [unhandledError] once, with the snapId
    of the job and that error, and detaches the listener, after which no
    message publishes anything; a message with an [id], or without a truthy
    [error], changes nothing. *)
Theorem errorHandler_one_shot (h : Host) (j s : string)
    (data error id_ : JsValue) :
  listener_on h j →
  jobToSnapMap (svc h) !! j = Some s → s ≠ "" →
  get data "error" = Some error → get data "id" = Some id_ →
  let h' := snd (emit_data j data h) in
  (truthy error = true ∧ is_nullish id_ = true →
     published (env h') = published (env h) ++ [UnhandledError s error]
     ∧ listener_off h' j
     ∧ ∀ data', emit_data j data' h' = (Ok tt, h'))
  ∧ (truthy error = false ∨ is_nullish id_ = false → h' = h).
Proof.
  intros (js & Hjs & Hon) Hs Hne Herr Hid h'.
  assert (Hts : truthy_string (Some s) = Some s).
  { unfold truthy_string, falsy. destruct (String.eqb_spec s ""); congruence. }
  assert (Hrun : emit_data j data h
                 = if truthy error && is_nullish id_
                   then (Ok tt,
                         on_env (upd_heap (alter (set_errorHandler false) j))
                           (on_env (upd_published
                                      (λ l, l ++ [UnhandledError s error])) h))
                   else (Ok tt, h)).
  { unfold emit_data, errorHandler, bind, gets, modify, publish.
    rewrite Hjs, Hon, Herr, Hid.
    destruct (truthy error && is_nullish id_); [| reflexivity].
    rewrite Hs, Hts. reflexivity. }
  subst h'. rewrite Hrun. split.
  - intros [-> ->]. cbn [andb snd].
    match goal with |- _ ∧ listener_off ?h1 _ ∧ _ =>
      assert (Hoff : listener_off h1 j) end.
    { exists (set_errorHandler false js). split; [| reflexivity].
      cbn. rewrite lookup_alter_eq, Hjs. reflexivity. }
    split; [reflexivity |]. split; [exact Hoff |].
    intros data'. by apply emit_data_detached.
  - intros [-> | ->]; [reflexivity |].
    by rewrite andb_false_r.
Qed.

Lemma hostA_listener_on : listener_on hostA "j1".
Proof.
  exists (mkJobStreams (mkStream false false true)
                       (Some (createStream false)) (createStream false)).
  split; vm_compute; reflexivity.
Qed.

Lemma errorHandler_one_shot_witness :
  published (env (snd (emit_data "j1" (oob_error "x") hostA)))
  = published (env hostA) ++ [UnhandledError "A" (JObj [("message", JStr "x")])]
  ∧ published (env hostA) = [].
Proof.
  assert (Hs : jobToSnapMap (svc hostA) !! "j1" = Some "A")
    by (vm_compute; reflexivity).
  assert (Hne : "A" ≠ "") by discriminate.
  destruct (errorHandler_one_shot hostA "j1" "A" (oob_error "x")
              (JObj [("message", JStr "x")]) JNull
              hostA_listener_on Hs Hne eq_refl eq_refl) as [Hfires _].
  destruct (Hfires (conj eq_refl eq_refl)) as (Hpub & _ & _).
  split; [exact Hpub | vm_compute; reflexivity].
Defined.

(** C9 as stated fails: of two messages that both carry an [error] and a
    null [id], only the first is published. *)
Lemma second_oob_error_not_published :
  let h1 := snd (emit_data "j1" (oob_error "x") hostA) in
  let h2 := snd (emit_data "j1" (oob_error "y") h1) in
  get (oob_error "y") "error" = Some (JObj [("message", JStr "y")])
  ∧ get (oob_error "y") "id" = Some JNull
  ∧ published (env h1) = [UnhandledError "A" (JObj [("message", JStr "x")])]
  ∧ published (env h2) = published (env h1).
Proof. vm_compute. repeat split. Qed.

(** *** A snap whose evaluation throws *)

Lemma truthy_JStr (s : string) : s ≠ "" → truthy (JStr s) = true.
Proof. intros Hs. cbn. by destruct (String.eqb_spec s ""). Qed.

Lemma startSnap_catches `{!Compartment} (s src : string) (c c' : Controller)
    (e : JsValue) :
  Worker.run s (evaluate src) c = (Thrown e, c') →
  startSnap s src c
  = (Ok tt,
     mkController (delete s (snapRpcHandlers c')) (commandStream c')
       (console_error c'
        ++ ["Error while running snap '" +:+ s +:+ "' in worker."])).
Proof. intros Hrun. unfold startSnap, try_catch. rewrite Hrun. reflexivity. Qed.

(** Whatever the compartment, when the evaluation of the source throws the
    controller drops the handler of the snap, logs, and answers the
    [executeSnap] command with the result "OK". *)
Lemma executeSnap_swallows_throw `{!Compartment} (id_ : JsValue)
    (s src : string) (c c' : Controller) (e : JsValue) :
  s ≠ "" → src ≠ "" →
  Worker.run s (evaluate src) c = (Thrown e, c') →
  let c'' := snd (Worker.executeSnap id_
                    (JObj [("snapId", JStr s); ("sourceCode", JStr src)]) c) in
  snapRpcHandlers c'' = delete s (snapRpcHandlers c')
  ∧ commandStream c''
    = commandStream c'
      ++ [JObj [("result", JStr "OK"); ("id", id_); ("jsonrpc", JStr "2.0")]].
Proof.
  intros Hs Hsrc Hrun. unfold Worker.executeSnap.
  cbn [get assoc String.eqb Ascii.eqb Bool.eqb].
  unfold isTruthyString. cbn [typeof]. rewrite !truthy_JStr by done.
  cbn [String.eqb Ascii.eqb Bool.eqb andb negb orb str_of].
  unfold try_catch, bind. rewrite (startSnap_catches _ _ _ _ _ Hrun).
  cbn. split; reflexivity.
Qed.

(** C1 fails on the code: [executeSnap] of a source that throws. The
    isolate answers the command with the result "OK" (it drops the handler
    and logs), so the promise of the host resolves, and snap "A" stays
    mapped to job "j1", with its hook installed and the job alive. *)
Theorem executeSnap_throwing_source_resolves :
  let d := mkSnapData "A" "throw new Error('boom')" in
  ∃ w,
    @play demo_Compartment (executes d "j1" "p1" "c1" "z1") (boot default_Args)
    = Some w
    ∧ results (sys w) = [(Of_executeSnap d, Ok (JStr "OK"))]
    ∧ (commandStream <$> isolates w !! "j1")
      = Some [JObj [("result", JStr "OK"); ("id", JStr "p1");
                    ("jsonrpc", JStr "2.0")];
              JObj [("result", JStr "OK"); ("id", JStr "c1");
                    ("jsonrpc", JStr "2.0")]]
    ∧ (isolates w !! "j1" ≫= λ c, snapRpcHandlers c !! "A") = None
    ∧ snapToJobMap (svc (host (sys w))) !! "A" = Some "j1"
    ∧ jobToSnapMap (svc (host (sys w))) !! "j1" = Some "A"
    ∧ _snapRpcHooks (svc (host (sys w))) !! "A" = Some (mkSnapRpcHook "A" "j1")
    ∧ jobs_get (jobs (svc (host (sys w)))) "j1" = Some (mkEnvMetadata "j1" "j1")
    ∧ document (env (host (sys w))) = ["j1"].
Proof.
  intros d. eexists. split; [vm_compute; reflexivity |].
  vm_compute. repeat split.
Qed.

(** *** A snap with the empty id *)

(** [executeSnap] of a snap whose id is the empty string: the isolate
    refuses the parameters, the host then calls [terminate], which takes
    the empty id for a missing one and throws; the mapping of the snap
    stays, without a hook. *)
Lemma executeSnap_empty_id_leaves_mapping :
  let d := mkSnapData "" "wallet.registerRpcMessageHandler(async (o,r)=>r.method)" in
  ∃ w,
    @play demo_Compartment (executes d "j1" "p1" "c1" "z1") (boot default_Args)
    = Some w
    ∧ results (sys w)
      = [(Of_executeSnap d,
          Thrown (JErr ("Failed to find a snap for job with id " +:+ quoted "j1")))]
    ∧ pending (sys w) = []
    ∧ snapToJobMap (svc (host (sys w))) !! "" = Some "j1"
    ∧ jobToSnapMap (svc (host (sys w))) !! "j1" = Some ""
    ∧ _snapRpcHooks (svc (host (sys w))) !! "" = None
    ∧ size (snapToJobMap (svc (host (sys w)))) = 1%nat
    ∧ size (_snapRpcHooks (svc (host (sys w)))) = 0%nat.
Proof.
  intros d. eexists. split; [vm_compute; reflexivity |].
  vm_compute. repeat split.
Qed.

(** *** A first ping that fails *)

(** C4 fails on the code: when the first ping is answered with an error,
    [executeSnap] rejects and nothing of the isolate is taken down: the job
    record, the iframe and the open streams all stay, and no snap is mapped
    to the job. *)
Theorem failed_ping_leaves_isolate :
  ∃ σ,
    Service.run [(Call_executeSnap snapA, "j1");
                 (IframeLoad "j1" sound, "p1");
                 (CommandData "j1" (error_reply "p1" "no"), "c1")]
                (start default_Args)
    = Some σ
    ∧ results σ = [(Of_executeSnap snapA, Thrown (JErr "no"))]
    ∧ pending σ = []
    ∧ jobs (svc (host σ)) = [("j1", mkEnvMetadata "j1" "j1")]
    ∧ document (env (host σ)) = ["j1"]
    ∧ heap (env (host σ)) !! "j1"
      = Some (mkJobStreams (mkStream false false true)
                           (Some (createStream false)) (createStream false))
    ∧ jobToSnapMap (svc (host σ)) !! "j1" = None.
Proof.
  eexists. split; [vm_compute; reflexivity |].
  vm_compute. repeat split.
Qed.

(** *** Two overlapping calls for one snap *)

(** C10 fails on the code: a second [executeSnap] of snap "A" made while
    the first still awaits its iframe is not rejected; both calls resolve,
    and the two live jobs "j1" and "j2" are both mapped to "A". *)
Theorem overlapping_executeSnap_two_jobs :
  ∃ w,
    @play demo_Compartment
      [(HostTurn (Call_executeSnap snapA), "j1");
       (HostTurn (Call_executeSnap snapA), "j2");
       (HostTurn (IframeLoad "j1" sound), "p1");
       (HostTurn (IframeLoad "j2" sound), "p2");
       (Deliver, "c1"); (Deliver, "c2"); (Deliver, "z1"); (Deliver, "z2")]
      (boot default_Args)
    = Some w
    ∧ results (sys w) = [(Of_executeSnap snapA, Ok (JStr "OK"));
                         (Of_executeSnap snapA, Ok (JStr "OK"))]
    ∧ jobs_keys (jobs (svc (host (sys w)))) = ["j1"; "j2"]
    ∧ jobToSnapMap (svc (host (sys w))) !! "j1" = Some "A"
    ∧ jobToSnapMap (svc (host (sys w))) !! "j2" = Some "A"
    ∧ snapToJobMap (svc (host (sys w))) !! "A" = Some "j2".
Proof.
  eexists. split; [vm_compute; reflexivity |].
  vm_compute. repeat split.
Qed.

(** *** terminate and terminateAllSnaps *)

Lemma truthy_string_Some (s : string) : s ≠ "" → truthy_string (Some s) = Some s.
Proof.
  intros Hs. unfold truthy_string, falsy. by destruct (String.eqb_spec s "").
Qed.

Lemma truthy_string_inv (x : option string) (s : string) :
  truthy_string x = Some s → x = Some s ∧ s ≠ "".
Proof.
  unfold truthy_string, falsy. destruct x as [s'|]; [| discriminate].
  destruct (String.eqb_spec s' ""); [discriminate |]. by intros [= ->].
Qed.

Lemma terminate_ok (j : string) (jw : EnvMetadata) (s : string) (h : Host) :
  jobs_get (jobs (svc h)) j = Some jw →
  jobToSnapMap (svc h) !! j = Some s → s ≠ "" →
  terminate j h = (Ok tt, terminated j jw s h).
Proof.
  intros Hjw Hs Hne. unfold terminate, bind, gets. rewrite Hjw, Hs.
  rewrite (truthy_string_Some _ Hne). unfold modify at 1 2.
  unfold terminated.
  destruct (_timeoutForUnresponsiveMap (svc h) !! s) as [t|] eqn:Ht;
    cbn -[lookup]; rewrite Ht; cbn -[lookup];
    unfold _removeSnapAndJobMapping, bind, gets; cbn -[lookup];
    rewrite Hs, (truthy_string_Some _ Hne); reflexivity.
Qed.

Lemma terminate_cases (j : string) (h : Host) :
  (∃ e, terminate j h = (Thrown e, h))
  ∨ (∃ jw s, jobs_get (jobs (svc h)) j = Some jw
             ∧ jobToSnapMap (svc h) !! j = Some s ∧ s ≠ ""
             ∧ terminate j h = (Ok tt, terminated j jw s h)).
Proof.
  destruct (jobs_get (jobs (svc h)) j) as [jw|] eqn:Hjw.
  - destruct (truthy_string (jobToSnapMap (svc h) !! j)) as [s|] eqn:Hs.
    + apply truthy_string_inv in Hs as [Hs Hne]. right. exists jw, s.
      eauto using terminate_ok.
    + left. eexists. unfold terminate, bind, gets. rewrite Hjw, Hs. reflexivity.
  - left. eexists. unfold terminate, bind, gets. rewrite Hjw. reflexivity.
Qed.

(** *** The jobs map and the document *)
Lemma jobs_delete_cons (k k0 : string) (v : EnvMetadata)
    (l : list (string * EnvMetadata)) :
  jobs_delete k ((k0, v) :: l)
  = if String.eqb k0 k then jobs_delete k l else (k0, v) :: jobs_delete k l.
Proof. unfold jobs_delete. cbn. by destruct (String.eqb k0 k). Qed.

Lemma jobs_get_delete_eq (k : string) (l : list (string * EnvMetadata)) :
  jobs_get (jobs_delete k l) k = None.
Proof.
  induction l as [|[k' v] l IH]; [reflexivity |]. rewrite jobs_delete_cons.
  destruct (String.eqb_spec k' k) as [->|Hne]; cbn; [exact IH |].
  destruct (String.eqb_spec k' k); [done | exact IH].
Qed.

Lemma jobs_get_delete_ne (k k' : string) (l : list (string * EnvMetadata)) :
  k ≠ k' → jobs_get (jobs_delete k l) k' = jobs_get l k'.
Proof.
  intros Hne. induction l as [|[k0 v] l IH]; [reflexivity |].
  rewrite jobs_delete_cons.
  destruct (String.eqb_spec k0 k) as [->|Hk]; cbn.
  - destruct (String.eqb_spec k k'); [done | exact IH].
  - destruct (String.eqb_spec k0 k'); [reflexivity | exact IH].
Qed.

Lemma jobs_get_set_eq (k : string) (v : EnvMetadata)
    (l : list (string * EnvMetadata)) :
  jobs_get (jobs_set k v l) k = Some v.
Proof.
  induction l as [|[k0 v0] l IH]; cbn.
  - by rewrite String.eqb_refl.
  - destruct (String.eqb_spec k0 k) as [->|Hk]; cbn.
    + by rewrite String.eqb_refl.
    + destruct (String.eqb_spec k0 k); [done | exact IH].
Qed.

Lemma jobs_get_set_ne (k k' : string) (v : EnvMetadata)
    (l : list (string * EnvMetadata)) :
  k ≠ k' → jobs_get (jobs_set k v l) k' = jobs_get l k'.
Proof.
  intros Hne. induction l as [|[k0 v0] l IH]; cbn.
  - destruct (String.eqb_spec k k'); [done | reflexivity].
  - destruct (String.eqb_spec k0 k) as [->|Hk]; cbn.
    + destruct (String.eqb_spec k k'); [done | reflexivity].
    + destruct (String.eqb_spec k0 k'); [reflexivity | exact IH].
Qed.

Lemma jobs_get_keys (k : string) (l : list (string * EnvMetadata)) :
  is_Some (jobs_get l k) ↔ k ∈ jobs_keys l.
Proof.
  induction l as [|[k0 v0] l IH]; cbn.
  - split; [intros [? [=]] | intros H; inversion H].
  - destruct (String.eqb_spec k0 k) as [->|Hk].
    + split; [intros _; left | eauto].
    + rewrite IH. split; [by right |].
      intros H. inversion H; subst; [done | assumption].
Qed.

Lemma jobs_keys_delete (k : string) (l : list (string * EnvMetadata)) :
  NoDup (jobs_keys l) → NoDup (jobs_keys (jobs_delete k l)).
Proof.
  induction l as [|[k0 v0] l IH]; [done |]. cbn [jobs_keys List.map fst].
  intros Hnd. apply NoDup_cons in Hnd as [Hin Hnd].
  rewrite jobs_delete_cons.
  destruct (String.eqb_spec k0 k) as [->|Hk]; cbn; [by apply IH |].
  apply NoDup_cons. split; [| by apply IH].
  intros Hin'. apply Hin. apply jobs_get_keys. apply jobs_get_keys in Hin'.
  by rewrite jobs_get_delete_ne in Hin' by done.
Qed.

Lemma jobs_keys_set (k : string) (v : EnvMetadata)
    (l : list (string * EnvMetadata)) :
  NoDup (jobs_keys l) → NoDup (jobs_keys (jobs_set k v l)).
Proof.
  induction l as [|[k0 v0] l IH]; cbn.
  - intros _. apply NoDup_singleton.
  - intros Hnd. apply NoDup_cons in Hnd as [Hin Hnd].
    destruct (String.eqb_spec k0 k) as [->|Hk]; cbn.
    + by apply NoDup_cons.
    + apply NoDup_cons. split; [| by apply IH].
      intros Hin'. apply Hin. apply jobs_get_keys. apply jobs_get_keys in Hin'.
      by rewrite jobs_get_set_ne in Hin' by done.
Qed.

Lemma jobs_empty (l : list (string * EnvMetadata)) :
  (∀ k, jobs_get l k = None) → l = [].
Proof.
  destruct l as [|[k v] l]; [done |]. intros H. specialize (H k). cbn in H.
  by rewrite String.eqb_refl in H.
Qed.

Lemma remove_element_subset (i x : string) (doc : list string) :
  x ∈ remove_element i doc → x ∈ doc.
Proof.
  induction doc as [|y doc IH]; cbn; [done |].
  destruct (String.eqb_spec y i) as [->|Hy]; [by right |].
  intros H. inversion H; subst; [left | right; auto].
Qed.

Lemma remove_element_NoDup (i : string) (doc : list string) :
  NoDup doc → NoDup (remove_element i doc).
Proof.
  induction doc as [|y doc IH]; cbn; [done |].
  intros Hnd. apply NoDup_cons in Hnd as [Hin Hnd].
  destruct (String.eqb_spec y i) as [->|Hy]; [done |].
  apply NoDup_cons. split; [| auto].
  intros H. apply Hin. eauto using remove_element_subset.
Qed.

Lemma remove_element_gone (i : string) (doc : list string) :
  NoDup doc → i ∉ remove_element i doc.
Proof.
  induction doc as [|y doc IH]; cbn; [intros _ H; inversion H |].
  intros Hnd. apply NoDup_cons in Hnd as [Hin Hnd].
  destruct (String.eqb_spec y i) as [->|Hy]; [done |].
  intros H. inversion H; subst; [done |]. by apply IH.
Qed.

Lemma destroy_stream_gone (st : Stream) : gone (destroy_stream st).
Proof.
  unfold gone, destroy_stream.
  destruct (destroyed st) eqn:Hd; [by left |].
  destruct (destroy_throws st) eqn:Ht; [by right | by left].
Qed.

Lemma destroy_streams_gone (js : JobStreams) : all_gone (destroy_streams js).
Proof.
  unfold all_gone, destroy_streams. cbn. repeat split.
  - apply destroy_stream_gone.
  - intros r. destruct (rpc js); cbn; [| done]. intros [= <-].
    apply destroy_stream_gone.
  - apply destroy_stream_gone.
Qed.

Lemma clear_svc (o : option nat) (h : Host) : svc (clear o h) = svc h.
Proof. by destruct o. Qed.

Lemma clear_env (o : option nat) (h : Host) :
  env (clear o h)
  = match o with
    | Some t => upd_timers (delete t) (env h)
    | None => env h
    end.
Proof. by destruct o. Qed.

Lemma terminated_svc (j : string) (jw : EnvMetadata) (s : string) (h : Host) :
  svc (terminated j jw s h)
  = upd_jobs (jobs_delete j)
      (upd_hooks (delete s)
        (upd_snapToJob (delete s)
          (upd_jobToSnap (delete j)
            (upd_timeoutMap (delete s) (svc h))))).
Proof. unfold terminated. cbn. by rewrite clear_svc. Qed.

Lemma terminated_env (j : string) (jw : EnvMetadata) (s : string) (h : Host) :
  env (terminated j jw s h)
  = let p := upd_document (remove_element (id jw))
               (upd_heap (alter destroy_streams (streams jw)) (env h)) in
    match _timeoutForUnresponsiveMap (svc h) !! s with
    | Some t => upd_timers (delete t) p
    | None => p
    end.
Proof. unfold terminated. cbn. by rewrite clear_env. Qed.

Ltac cons_solver :=
  repeat match goal with
         | H : _ ∈ _ :: _ |- _ => apply elem_of_cons in H
         | H : _ ∉ _ :: _ |- _ => rewrite not_elem_of_cons in H
         end;
  intuition (subst; try congruence; eauto).

(** What a run of the loop of [terminateAllSnaps] over the keys [ks] leaves. *)
Lemma for_of_terminate (ks : list string) (h : Host) :
  NoDup ks →
  (∀ j, j ∈ ks → ∃ jw s, jobs_get (jobs (svc h)) j = Some jw
                         ∧ jobToSnapMap (svc h) !! j = Some s ∧ s ≠ "") →
  ∃ h', for_of ks terminate h = (Ok tt, h')
    ∧ (∀ j, jobs_get (jobs (svc h')) j
            = if decide (j ∈ ks) then None else jobs_get (jobs (svc h)) j)
    ∧ (∀ j, jobToSnapMap (svc h') !! j
            = if decide (j ∈ ks) then None else jobToSnapMap (svc h) !! j)
    ∧ (∀ s j, snapToJobMap (svc h') !! s = Some j →
              snapToJobMap (svc h) !! s = Some j
              ∧ ∀ j', j' ∈ ks → jobToSnapMap (svc h) !! j' ≠ Some s)
    ∧ (∀ s t, _timeoutForUnresponsiveMap (svc h') !! s = Some t →
              _timeoutForUnresponsiveMap (svc h) !! s = Some t
              ∧ ∀ j', j' ∈ ks → jobToSnapMap (svc h) !! j' ≠ Some s).
Proof.
  revert h. induction ks as [|k ks IH]; intros h Hnd Hall.
  - exists h. cbn. repeat split; try done.
    + intros j' Hin. inversion Hin.
    + intros j' Hin. inversion Hin.
  - apply NoDup_cons in Hnd as [Hk Hnd].
    destruct (Hall k) as (jw & s & Hjw & Hs & Hne); [left |].
    destruct (IH (terminated k jw s h) Hnd) as (h' & Hrun & Hjobs & Hj2s & Hs2j & Htm).
    { intros j Hj. destruct (Hall j) as (jw' & s' & Hjw' & Hs' & Hne'); [by right |].
      assert (k ≠ j) by (intros ->; done).
      exists jw', s'. rewrite terminated_svc. cbn.
      rewrite jobs_get_delete_ne, lookup_delete_ne by done. done. }
    exists h'. split.
    { cbn. unfold bind. by rewrite (terminate_ok k jw s h Hjw Hs Hne). }
    rewrite terminated_svc in Hjobs, Hj2s, Hs2j, Htm. cbn in Hjobs, Hj2s, Hs2j, Htm.
    split; [| split; [| split]].
    + intros j. rewrite Hjobs. repeat case_decide; try done.
      * exfalso. cons_solver.
      * assert (j = k) as -> by cons_solver. apply jobs_get_delete_eq.
      * apply jobs_get_delete_ne. cons_solver.
    + intros j. rewrite Hj2s. repeat case_decide; try done.
      * exfalso. cons_solver.
      * assert (j = k) as -> by cons_solver. apply lookup_delete_eq.
      * apply lookup_delete_ne. cons_solver.
    + intros s0 j Hl. apply Hs2j in Hl as [Hl Hno].
      apply lookup_delete_Some in Hl as [Hss Hl]. split; [done |].
      intros j' Hj' Hmap. apply elem_of_cons in Hj' as [-> | Hj'].
      * congruence.
      * apply (Hno j' Hj'). rewrite lookup_delete_ne; [done |].
        intros ->. done.
    + intros s0 t Hl. apply Htm in Hl as [Hl Hno].
      apply lookup_delete_Some in Hl as [Hss Hl]. split; [done |].
      intros j' Hj' Hmap. apply elem_of_cons in Hj' as [-> | Hj'].
      * congruence.
      * apply (Hno j' Hj'). rewrite lookup_delete_ne; [done |].
        intros ->. done.
Qed.

(** C5, amended: in a well-formed state of the host, [terminate jobId] of
    a job of the jobs map that is mapped to a snap does not throw, and after
    it every stream of the job is destroyed unless its [destroy] threw (the
    throw is swallowed), the iframe of the job is out of the document, the
    liveness timer of the snap is cancelled and forgotten, both directions
    of the mapping, the hook of the snap and the job record are gone; for a
    job of the jobs map that no snap is mapped to yet, [terminate] throws
    and changes nothing; and when every job of the jobs map is mapped to a
    snap, after [terminateAllSnaps] the hooks, both mappings, the jobs and
    the liveness-timer map are all empty. *)
Theorem terminate_known_job (h : Host) :
  wf h →
  (∀ j jw s,
     jobs_get (jobs (svc h)) j = Some jw →
     jobToSnapMap (svc h) !! j = Some s → s ≠ "" →
     ∃ h', terminate j h = (Ok tt, h')
       ∧ (∀ js, heap (env h) !! j = Some js →
                ∃ js', heap (env h') !! j = Some js' ∧ all_gone js')
       ∧ (j ∉ document (env h'))
       ∧ (∀ t, _timeoutForUnresponsiveMap (svc h) !! s = Some t →
               timers (env h') !! t = None)
       ∧ _timeoutForUnresponsiveMap (svc h') !! s = None
       ∧ snapToJobMap (svc h') !! s = None
       ∧ jobToSnapMap (svc h') !! j = None
       ∧ _snapRpcHooks (svc h') !! s = None
       ∧ jobs_get (jobs (svc h')) j = None)
  ∧ (∀ j jw,
       jobs_get (jobs (svc h)) j = Some jw →
       jobToSnapMap (svc h) !! j = None →
       terminate j h
       = (Thrown (JErr ("Failed to find a snap for job with id "
                        +:+ quoted j)), h))
  ∧ ((∀ j jw, jobs_get (jobs (svc h)) j = Some jw →
              ∃ s, jobToSnapMap (svc h) !! j = Some s ∧ s ≠ "") →
     ∃ h', terminateAllSnaps h = (Ok tt, h')
       ∧ _snapRpcHooks (svc h') = ∅
       ∧ snapToJobMap (svc h') = ∅
       ∧ jobToSnapMap (svc h') = ∅
       ∧ jobs (svc h') = []
       ∧ _timeoutForUnresponsiveMap (svc h') = ∅).
Proof.
  intros Hwf. split; [| split].
  - intros j jw s Hjw Hs Hne. exists (terminated j jw s h).
    destruct (wf_record Hwf j jw Hjw) as [Hid Hstreams].
    split; [by apply terminate_ok |].
    rewrite terminated_svc, terminated_env, Hid, Hstreams. cbn.
    split; [| split; [| split; [| split; [| split; [| split; [| split]]]]]].
    + intros js Hjs. exists (destroy_streams js). split.
      * destruct (_timeoutForUnresponsiveMap (svc h) !! s); cbn;
          by rewrite lookup_alter_eq, Hjs.
      * apply destroy_streams_gone.
    + destruct (_timeoutForUnresponsiveMap (svc h) !! s); cbn;
        apply remove_element_gone, (wf_document Hwf).
    + intros t ->. cbn. apply lookup_delete_eq.
    + apply lookup_delete_eq.
    + apply lookup_delete_eq.
    + apply lookup_delete_eq.
    + apply lookup_delete_eq.
    + apply jobs_get_delete_eq.
  - intros j jw Hjw Hs. unfold terminate, bind, gets. by rewrite Hjw, Hs.
  - intros Hall.
    destruct (for_of_terminate (jobs_keys (jobs (svc h))) h (wf_keys Hwf))
      as (h' & Hrun & Hjobs & Hj2s & Hs2j & Htm).
    { intros j Hj. apply jobs_get_keys in Hj as [jw Hjw].
      destruct (Hall j jw Hjw) as (s & Hs & Hne). by exists jw, s. }
    assert (Hin : ∀ j s, jobToSnapMap (svc h) !! j = Some s →
                         j ∈ jobs_keys (jobs (svc h))).
    { intros j s Hs. apply jobs_get_keys. eapply (wf_jobs Hwf); eauto. }
    eexists. split.
    { unfold terminateAllSnaps, bind, gets. rewrite Hrun. reflexivity. }
    cbn. split; [done |]. split; [| split; [| split]].
    + apply map_empty. intros s.
      destruct (snapToJobMap (svc h') !! s) as [j|] eqn:Hl; [| done].
      apply Hs2j in Hl as [Hl Hno]. apply (wf_snaps Hwf) in Hl.
      exfalso. apply (Hno j); eauto.
    + apply map_empty. intros j. rewrite Hj2s. case_decide; [done |].
      destruct (jobToSnapMap (svc h) !! j) as [s|] eqn:Hl; [| done].
      exfalso. eauto.
    + apply jobs_empty. intros j. rewrite Hjobs. case_decide; [done |].
      destruct (jobs_get (jobs (svc h)) j) eqn:Hl; [| done].
      exfalso. apply H, jobs_get_keys. eauto.
    + apply map_empty. intros s.
      destruct (_timeoutForUnresponsiveMap (svc h') !! s) as [t|] eqn:Hl; [| done].
      apply Htm in Hl as [Hl Hno].
      destruct (wf_timers Hwf s) as [j Hj]; [eauto |].
      apply (wf_snaps Hwf) in Hj. exfalso. apply (Hno j); eauto.
Qed.

(** *** An invariant of the event loop *)

Section invariant.
Context (s : Service) (doc : list string) (hp : gmap string JobStreams)
        (m : list string) (c : list (string * string)).

Lemma Inv_perm (p p' : list Task) :
  p ≡ₚ p' → Inv_at s doc hp p m c → Inv_at s doc hp p' m c.
Proof.
  intros Hp [Hwf Hlive Hhooks Hhooked Hdocm Hjobsm Hspawn Hnew Hping].
  assert (Hsp : omap spawning p ≡ₚ omap spawning p') by by apply omap_Permutation.
  split; try done.
  - by rewrite <- Hsp.
  - intros j Hj. rewrite <- Hsp in Hj. auto.
  - intros d j i Hj. rewrite <- Hp in Hj. eauto.
Qed.

Lemma Inv_mint (p : list Task) (n : string) :
  Inv_at s doc hp p m c → Inv_at s doc hp p (n :: m) c.
Proof.
  intros [Hwf Hlive Hhooks Hhooked Hdocm Hjobsm Hspawn Hnew Hping]. split; try done.
  - intros j Hj. right. auto.
  - intros j Hj. right. auto.
  - intros j Hj. destruct (Hnew j Hj). split; [by right | done].
Qed.

Lemma Inv_confirm (p : list Task) (x : string * string) :
  Inv_at s doc hp p m c → Inv_at s doc hp p m (c ++ [x]).
Proof.
  intros [Hwf Hlive Hhooks Hhooked Hdocm Hjobsm Hspawn Hnew Hping]. split; try done.
  intros sn hk Hhk. destruct (Hhooks sn hk Hhk). split; [done |].
  apply elem_of_app. by left.
Qed.

Lemma Inv_drop (p : list Task) (t : Task) :
  Inv_at s doc hp (t :: p) m c → Inv_at s doc hp p m c.
Proof.
  intros [Hwf Hlive Hhooks Hhooked Hdocm Hjobsm Hspawn Hnew Hping]. split; try done.
  - cbn in Hspawn. destruct (spawning t); [| done].
    by apply NoDup_cons in Hspawn as [_ ?].
  - intros j Hj. apply Hnew. cbn.
    destruct (spawning t); [by right | done].
  - intros d j i Hj. eapply Hping. by right.
Qed.

Lemma Inv_push (p : list Task) (t : Task) :
  spawning t = None →
  Inv_at s doc hp p m c → Inv_at s doc hp (t :: p) m c.
Proof.
  intros Ht []. split; try done.
  - cbn. by rewrite Ht.
  - intros j. cbn. rewrite Ht. auto.
  - intros d j i Hj. apply elem_of_cons in Hj as [<- | Hj]; [done | eauto].
Qed.

Lemma Inv_altered (p : list Task) (j : string) (f : JobStreams → JobStreams) :
  Inv_at s doc hp p m c → Inv_at s doc (alter f j hp) p m c.
Proof.
  intros [Hwf Hlive Hhooks Hhooked Hdocm Hjobsm Hspawn Hnew Hping]. split; try done.
  intros j' Hj'. destruct (Hlive j' Hj') as [js Hjs].
  destruct (decide (j = j')) as [-> | Hne].
  - exists (f js). by rewrite lookup_alter_eq, Hjs.
  - exists js. by rewrite lookup_alter_ne.
Qed.

Lemma Inv_hooks_cleared (p : list Task) :
  Inv_at s doc hp p m c → Inv_at (upd_hooks (λ _, ∅) s) doc hp p m c.
Proof.
  intros [[Hkeys Hrecord Hjobs Hsnaps Htimers Hdoc] Hlive Hhooks Hhooked Hdocm Hjobsm Hspawn Hnew Hping]. split; [split | ..]; try done.
  intros sn. proj. rewrite lookup_empty. by intros [? ?].
Qed.

Lemma Inv_hook_installed (p : list Task) (sn j : string) :
  is_Some (snapToJobMap s !! sn) → (sn, j) ∈ c →
  Inv_at s doc hp p m c →
  Inv_at (upd_hooks (insert sn (mkSnapRpcHook sn j)) s) doc hp p m c.
Proof.
  intros Hsn Hc [[Hkeys Hrecord Hjobs Hsnaps Htimers Hdoc] Hlive Hhooks Hhooked Hdocm Hjobsm Hspawn Hnew Hping]. split; [split | ..]; try done.
  - intros sn' hk. proj. rewrite lookup_insert.
    case_decide; [intros [= <-]; by subst | auto].
  - intros sn'. proj. rewrite lookup_insert.
    case_decide; [by subst | auto].
Qed.

Lemma Inv_poll_scheduled (p : list Task) (sn : string) (t : nat) :
  is_Some (snapToJobMap s !! sn) →
  Inv_at s doc hp p m c →
  Inv_at (upd_timeoutMap (insert sn t) s) doc hp p m c.
Proof.
  intros Hsn [[Hkeys Hrecord Hjobs Hsnaps Htimers Hdoc] Hlive Hhooks Hhooked Hdocm Hjobsm Hspawn Hnew Hping]. split; [split | ..]; try done.
  intros sn'. proj. rewrite lookup_insert. case_decide; [by subst | auto].
Qed.

Lemma Inv_doc_removed (p : list Task) (j : string) :
  Inv_at s doc hp p m c → Inv_at s (remove_element j doc) hp p m c.
Proof.
  intros [[Hkeys Hrecord Hjobs Hsnaps Htimers Hdoc] Hlive Hhooks Hhooked Hdocm Hjobsm Hspawn Hnew Hping]. split; [split | ..]; try done.
  - by apply remove_element_NoDup.
  - intros j' Hj'. eauto using remove_element_subset.
Qed.

End invariant.

Section invariant_steps.
Context (s : Service) (doc : list string) (hp : gmap string JobStreams)
        (m : list string) (c : list (string * string)).

Lemma Inv_terminated (p : list Task) (j : string) (jw : EnvMetadata)
    (sn : string) :
  jobs_get (jobs s) j = Some jw → jobToSnapMap s !! j = Some sn →
  Inv_at s doc hp p m c →
  Inv_at (upd_jobs (jobs_delete j)
            (upd_hooks (delete sn)
               (upd_snapToJob (delete sn)
                  (upd_jobToSnap (delete j)
                     (upd_timeoutMap (delete sn) s)))))
         (remove_element (id jw) doc)
         (alter destroy_streams (streams jw) hp) p m c.
Proof.
  intros Hjw Hsn [[Hkeys Hrecord Hjobs Hsnaps Htimers Hdoc] Hlive Hhooks Hhooked Hdocm Hjobsm Hspawn Hnew Hping].
  destruct (Hrecord j jw Hjw) as [_ Hstreams].
  assert (Hother : ∀ j' sn', jobToSnapMap s !! j' = Some sn' → sn' ≠ sn → j' ≠ j)
    by (intros j' sn' H1 H2 ->; congruence).
  split; [split | ..]; proj.
  - by apply jobs_keys_delete.
  - intros j' jw'. destruct (decide (j = j')) as [<- | Hne].
    + by rewrite jobs_get_delete_eq.
    + rewrite jobs_get_delete_ne by done. auto.
  - intros j' sn' H. apply lookup_delete_Some in H as [Hne H].
    rewrite jobs_get_delete_ne by done. eauto.
  - intros sn' j' H. apply lookup_delete_Some in H as [Hne H].
    rewrite lookup_delete_ne; [eauto |]. intros <-.
    apply Hsnaps in H. congruence.
  - intros sn' [t H]. apply lookup_delete_Some in H as [Hne H].
    rewrite lookup_delete_ne by done. eauto.
  - by apply remove_element_NoDup.
  - intros j' Hj'. destruct (decide (j = j')) as [<- | Hne].
    + rewrite jobs_get_delete_eq in Hj'. by destruct Hj'.
    + rewrite jobs_get_delete_ne in Hj' by done.
      rewrite Hstreams, lookup_alter_ne by done. auto.
  - intros sn' hk H. apply lookup_delete_Some in H as [Hne H]. auto.
  - intros sn' [hk H]. apply lookup_delete_Some in H as [Hne H].
    rewrite lookup_delete_ne by done. eauto.
  - intros j' Hj'. eauto using remove_element_subset.
  - intros j' Hj'. destruct (decide (j = j')) as [<- | Hne].
    + rewrite jobs_get_delete_eq in Hj'. by destruct Hj'.
    + rewrite jobs_get_delete_ne in Hj' by done. auto.
  - done.
  - intros j' Hj'. destruct (Hnew j' Hj') as [? Hnone].
    split; [done |]. destruct (decide (j = j')) as [<- | Hne].
    + apply lookup_delete_eq.
    + by rewrite lookup_delete_ne.
  - intros d j' i Hin. rewrite jobs_get_delete_ne; [eauto |].
    intros <-.
    assert (j ∈ omap spawning p)
      by (apply list_elem_of_omap; exists (InitPing d j i); by split).
    destruct (Hnew j) as [_ ?]; [done | congruence].
Qed.

Lemma Inv_created (p : list Task) (d : SnapData) (j : string) (t : nat) :
  j ∉ m →
  Inv_at s doc hp p m c →
  Inv_at s (doc ++ [j]) hp (CreatingWindow d j t :: p) (j :: m) c.
Proof.
  intros Hfresh [[Hkeys Hrecord Hjobs Hsnaps Htimers Hdoc] Hlive Hhooks Hhooked Hdocm Hjobsm Hspawn Hnew Hping]. split; [split | ..]; try done.
  - apply NoDup_app. split; [done |]. split; [| apply NoDup_singleton].
    intros x Hx Hx'. apply list_elem_of_singleton in Hx' as ->. auto.
  - intros j' Hj'. apply elem_of_app in Hj' as [Hj' | Hj'].
    + right. auto.
    + apply list_elem_of_singleton in Hj' as ->. left.
  - intros j' Hj'. right. auto.
  - cbn. apply NoDup_cons. split; [| done].
    intros Hin. apply Hfresh. by apply Hnew.
  - intros j'. cbn. intros Hj'. apply elem_of_cons in Hj' as [-> | Hj'].
    + split; [left |].
      destruct (jobToSnapMap s !! j) eqn:H; [| done].
      exfalso. apply Hfresh, Hjobsm. eauto.
    + destruct (Hnew j' Hj'). split; [by right | done].
  - intros d' j' i Hin. apply elem_of_cons in Hin as [[=] | Hin]. eauto.
Qed.

Lemma Inv_loaded (p : list Task) (d : SnapData) (j : string) (t : nat)
    (i : string) (fc fr fx : bool) :
  Inv_at s doc hp (CreatingWindow d j t :: p) m c →
  Inv_at (upd_jobs (jobs_set j (mkEnvMetadata j j)) s) doc
         (<[j := mkJobStreams (mkStream false fc true)
                              (Some (createStream fr)) (createStream fx)]> hp)
         (InitPing d j i :: p) m c.
Proof.
  intros [[Hkeys Hrecord Hjobs Hsnaps Htimers Hdoc] Hlive Hhooks Hhooked Hdocm Hjobsm Hspawn Hnew Hping]. split; [split | ..]; proj; try done.
  - by apply jobs_keys_set.
  - intros j' jw'. destruct (decide (j = j')) as [<- | Hne].
    + rewrite jobs_get_set_eq. by intros [= <-].
    + rewrite jobs_get_set_ne by done. auto.
  - intros j' sn' H. destruct (decide (j = j')) as [<- | Hne].
    + rewrite jobs_get_set_eq. eauto.
    + rewrite jobs_get_set_ne by done. eauto.
  - intros j' Hj'. destruct (decide (j = j')) as [<- | Hne].
    + rewrite lookup_insert_eq. eauto.
    + rewrite jobs_get_set_ne in Hj' by done. rewrite lookup_insert_ne by done.
      auto.
  - intros j' Hj'. destruct (decide (j = j')) as [<- | Hne].
    + apply Hnew. left.
    + rewrite jobs_get_set_ne in Hj' by done. auto.
  - intros d' j' i' Hin. apply elem_of_cons in Hin as [[= -> -> ->] | Hin].
    + rewrite jobs_get_set_eq. eauto.
    + destruct (decide (j = j')) as [<- | Hne].
      * rewrite jobs_get_set_eq. eauto.
      * rewrite jobs_get_set_ne by done. eapply Hping. by right.
Qed.

Lemma Inv_mapped (p : list Task) (d : SnapData) (j i : string) :
  Inv_at s doc hp (InitPing d j i :: p) m c →
  Inv_at (upd_jobToSnap (insert j (snapId d))
            (upd_snapToJob (insert (snapId d) j) s)) doc hp p m c.
Proof.
  intros HI. pose proof (Inv_drop _ _ _ _ _ _ _ HI) as Hdrop.
  destruct HI as [[Hkeys Hrecord Hjobs Hsnaps Htimers Hdoc] Hlive Hhooks Hhooked Hdocm Hjobsm Hspawn Hnew Hping].
  assert (Hunmapped : jobToSnapMap s !! j = None) by (apply Hnew; left).
  assert (Hknown : is_Some (jobs_get (jobs s) j)) by (eapply Hping; left).
  destruct Hdrop as [_ _ _ _ _ _ Hnd Hnew' Hping'].
  split; [split | ..]; proj; try done.
  - intros j' sn'. rewrite lookup_insert. case_decide; [by subst | eauto].
  - intros sn' j'. rewrite !lookup_insert. case_decide.
    + intros [= <-]. rewrite decide_True by done. by subst.
    + intros H'. case_decide; [| eauto]. subst j'.
      apply Hsnaps in H'. congruence.
  - intros sn' H'. rewrite lookup_insert. case_decide; [done | eauto].
  - intros sn' H'. rewrite lookup_insert. case_decide; [done | eauto].
  - intros j' Hj'. destruct (Hnew' j' Hj') as [? ?]. split; [done |].
    rewrite lookup_insert_ne; [done |]. intros <-.
    cbn in Hspawn. apply NoDup_cons in Hspawn as [? _]. done.
Qed.

End invariant_steps.

Lemma _command_send_run (j : string) (fs : list (string * JsValue)) (h : Host) :
  _command_send j (JObj fs) h
  = match jobs_get (jobs (svc h)) j with
    | Some _ => (Ok tt, sent_to j (JObj fs) h)
    | None => (Thrown (job_not_found j), h)
    end.
Proof.
  unfold _command_send, bind, gets. cbn [typeof String.eqb Ascii.eqb Bool.eqb negb].
  by destruct (jobs_get (jobs (svc h)) j).
Qed.

Lemma terminate_Inv (j : string) (h : Host) p m c :
  Inv_host h p m c → Inv_host (snd (terminate j h)) p m c.
Proof.
  intros HI. destruct (terminate_cases j h) as [[e ->] | (jw & sn & Hjw & Hsn & _ & ->)];
    [done |].
  unfold Inv_host. cbn [snd]. rewrite terminated_svc, terminated_env.
  destruct (_timeoutForUnresponsiveMap (svc h) !! sn); proj;
    by apply Inv_terminated.
Qed.

Lemma for_of_terminate_Inv (ks : list string) (h : Host) p m c :
  Inv_host h p m c → Inv_host (snd (for_of ks terminate h)) p m c.
Proof.
  revert h. induction ks as [|k ks IH]; intros h HI; [done |].
  cbn [for_of]. unfold bind.
  pose proof (terminate_Inv k h p m c HI) as H1.
  destruct (terminate k h) as [[[]|e] h1]; cbn [snd] in *; [by apply IH | done].
Qed.

Lemma terminateAllSnaps_Inv (h : Host) p m c :
  Inv_host h p m c → Inv_host (snd (terminateAllSnaps h)) p m c.
Proof.
  intros HI. unfold terminateAllSnaps, bind, gets.
  pose proof (for_of_terminate_Inv (jobs_keys (jobs (svc h))) h p m c HI) as H1.
  destruct (for_of _ terminate h) as [[[]|e] h1]; cbn [snd] in *; [| done].
  unfold Inv_host, modify. proj. by apply Inv_hooks_cleared.
Qed.

Lemma terminateSnap_Inv (sn : string) (h : Host) p m c :
  Inv_host h p m c → Inv_host (snd (terminateSnap sn h)) p m c.
Proof.
  intros HI. unfold terminateSnap, bind, gets.
  destruct (truthy_string _); [by apply terminate_Inv | done].
Qed.

Lemma executeSnap_Inv (d : SnapData) (n : string) (h : Host) p m c :
  n ∉ m → Inv_host h p m c →
  Inv_settled (executeSnap d n h) p (n :: m) c.
Proof.
  intros Hn HI. unfold executeSnap, bind, gets.
  destruct (snapToJobMap (svc h) !! snapId d).
  - cbn. by apply Inv_mint.
  - unfold _createWindow, bind, gets, setTimeout, modify. cbn [Inv_settled ret].
    unfold Inv_host. proj. by apply Inv_created.
Qed.

Lemma _init_loaded_Inv (d : SnapData) (j : string) (t : nat)
    (faults : bool * bool * bool) (n : string) (h : Host) p m c :
  Inv_host h (CreatingWindow d j t :: p) m c →
  Inv_settled (_init_loaded d j t faults n h) p m c.
Proof.
  intros HI. destruct faults as [[fc fr] fx].
  unfold _init_loaded, _initStreams, _setJob, request.
  cbn [bind clearTimeout modify ret fst snd]. unfold bind.
  rewrite _command_send_run. proj. rewrite jobs_get_set_eq. cbn [Inv_settled].
  unfold Inv_host, sent_to. proj.
  eapply Inv_loaded. exact HI.
Qed.

Lemma _createWindow_timeout_Inv (d : SnapData) (j : string) (t : nat)
    (h : Host) p m c :
  Inv_host h (CreatingWindow d j t :: p) m c →
  Inv_settled (_createWindow_timeout j h) p m c.
Proof.
  intros HI. unfold _createWindow_timeout, bind, modify, gets, throw.
  cbn [Inv_settled]. unfold Inv_host. proj.
  apply Inv_doc_removed. by eapply Inv_drop.
Qed.

Lemma executeSnap_spawned_Inv (d : SnapData) (j i : string) (r : JsValue)
    (n : string) (h : Host) p m c :
  Inv_host h (InitPing d j i :: p) m c →
  Inv_settled (executeSnap_spawned d j r n h) p m c.
Proof.
  intros HI. unfold executeSnap_spawned.
  destruct (_command_result r) as [v | e].
  - unfold _mapSnapAndJob, request.
    cbn [bind modify try_catch ret]. unfold try_catch, bind.
    rewrite _command_send_run. proj.
    destruct (inv_pinging HI d j i) as [jw Hjw]; [left |].
    unfold Inv_host in HI. rewrite Hjw. cbn [Inv_settled ret].
    unfold Inv_host, sent_to. proj.
    apply Inv_push; [done |]. by eapply Inv_mapped.
  - cbn. by eapply Inv_drop.
Qed.

Lemma _pollForJobStatus_run (sn : string) (h : Host) :
  (∃ e, _pollForJobStatus sn h = (Thrown e, h))
  ∨ (is_Some (snapToJobMap (svc h) !! sn)
     ∧ ∃ j, truthy_string (snapToJobMap (svc h) !! sn) = Some j
       ∧ _pollForJobStatus sn h
         = (Ok tt,
            on_svc (upd_timeoutMap (insert sn (nextTimer (env h))))
              (on_env (λ p, upd_nextTimer S
                         (upd_timers
                            (insert (nextTimer (env h))
                               (PollCallback sn j,
                                _unresponsivePollingInterval (svc h))) p))
                 h))).
Proof.
  unfold _pollForJobStatus, bind, gets.
  destruct (truthy_string (snapToJobMap (svc h) !! sn)) as [j|] eqn:Hj.
  - right. split; [apply truthy_string_inv in Hj as [-> _]; eauto |].
    exists j. split; [done |]. reflexivity.
  - left. eauto.
Qed.

Lemma _pollForJobStatus_Inv (sn : string) (h : Host) p m c :
  Inv_host h p m c → Inv_host (snd (_pollForJobStatus sn h)) p m c.
Proof.
  intros HI.
  destruct (_pollForJobStatus_run sn h) as [[e ->] | (Hsn & j & _ & ->)];
    [done |].
  unfold Inv_host. proj. by apply Inv_poll_scheduled.
Qed.

Lemma executeSnap_answered_Inv (d : SnapData) (j i : string) (r : JsValue)
    (h : Host) p m c :
  Inv_host h (ExecuteCommand d j i :: p) m c →
  Inv_settled (executeSnap_answered d j r h) p m
              (c ++ confirmation (ExecuteCommand d j i) r).
Proof.
  intros HI. apply Inv_drop in HI.
  unfold executeSnap_answered, confirmation.
  destruct (_command_result r) as [v | e].
  - apply (Inv_confirm _ _ _ _ _ _ (snapId d, j)) in HI.
    unfold bind at 1, setupSnapProvider, modify. unfold bind at 1.
    set (h1 := on_env _ h).
    assert (HI1 : Inv_host h1 p m (c ++ [(snapId d, j)])) by done.
    destruct (_pollForJobStatus_run (snapId d) h1)
      as [[e ->] | (Hsn & j' & _ & ->)]; [done |].
    unfold bind, _createSnapHooks, modify, ret. cbn [Inv_settled].
    unfold Inv_host. proj.
    apply Inv_hook_installed; [done | apply elem_of_app; right; left |].
    by apply Inv_poll_scheduled.
  - rewrite app_nil_r. unfold bind.
    pose proof (terminate_Inv j h p m c HI) as H1.
    by destruct (terminate j h) as [[[]|e'] h1].
Qed.

Lemma poll_fired_Inv (sn j n : string) (h : Host) p m c :
  Inv_host h p m c → Inv_settled (poll_fired sn j n h) p m c.
Proof.
  intros HI. unfold poll_fired, request.
  cbn [bind gets setTimeout ret]. unfold try_catch, bind.
  rewrite _command_send_run. proj.
  destruct (jobs_get (jobs (svc h)) j); cbn [Inv_settled];
    [by apply Inv_push | done].
Qed.

Lemma poll_answered_Inv (sn : string) (t : nat) (r : JsValue) (h : Host) p m c :
  Inv_host h p m c → Inv_settled (poll_answered sn t r h) p m c.
Proof.
  intros HI. unfold poll_answered.
  destruct (_command_result r); [| done].
  cbn [bind clearTimeout modify]. unfold bind, try_catch.
  set (h1 := on_env _ h).
  pose proof (_pollForJobStatus_Inv sn h1 p m c HI) as H1.
  by destruct (_pollForJobStatus sn h1) as [[[]|e] h2].
Qed.

Lemma rpcHook_Inv (hook : SnapRpcHook) (origin : string) (request_ : JsValue)
    (n : string) (h : Host) p m c :
  Inv_host h p m c → Inv_settled (rpcHook hook origin request_ n h) p m c.
Proof.
  intros HI. unfold rpcHook, request, bind. rewrite _command_send_run.
  destruct (jobs_get (jobs (svc h)) (hook_jobId hook)); cbn [Inv_settled];
    [by apply Inv_push | done].
Qed.

Lemma rpcHook_answered_Inv (r : JsValue) (h : Host) p m c :
  Inv_host h p m c → Inv_settled (rpcHook_answered r h) p m c.
Proof. intros HI. unfold rpcHook_answered. by destruct (_command_result r). Qed.

Lemma emit_data_effect (j : string) (data : JsValue) (h : Host) :
  let h' := snd (emit_data j data h) in
  svc h' = svc h ∧ document (env h') = document (env h)
  ∧ (heap (env h') = heap (env h)
     ∨ heap (env h') = alter (set_errorHandler false) j (heap (env h))).
Proof.
  unfold emit_data, errorHandler, bind, gets, modify, publish, ret, throw.
  repeat case_match; unfold modify in *; simplify_eq; cbn; auto.
Qed.

Lemma emit_data_Inv (j : string) (data : JsValue) (h : Host) p m c :
  Inv_host h p m c → Inv_host (snd (emit_data j data h)) p m c.
Proof.
  intros HI. destruct (emit_data_effect j data h) as (Hs & Hd & [Hh | Hh]);
    unfold Inv_host; rewrite Hs, Hd, Hh; [done | by apply Inv_altered].
Qed.

(** What [arrive] does to the host, by what it makes of the message. *)
Lemma arrive_effect (j : string) (data : JsValue) (h : Host) (a : Arrival)
    (h' : Host) :
  arrive j data h = Some (a, h') →
  let h1 := snd (emit_data j data h) in
  (∃ js, heap (env h) !! j = Some js ∧ destroyed (command js) = false)
  ∧ ∃ id_, get data "id" = Some id_
    ∧ match a with
      | Notified => truthy id_ = false ∧ h' = h1
      | Answered key =>
          truthy id_ = true ∧ key = toString id_
          ∧ registered j key (idMap (env h1)) = true
          ∧ h' = on_env (upd_idMap (unregister j key)) h1
      | Failed =>
          truthy id_ = true
          ∧ registered j (toString id_) (idMap (env h1)) = false
          ∧ h' = on_env (upd_heap (alter fail_command j)) h1
      end.
Proof.
  unfold arrive. destruct (heap (env h) !! j) as [js|]; [| done].
  destruct (get data "id") as [id_|]; [| done].
  destruct (destroyed (command js)) eqn:Hd; [done |]. cbn zeta.
  destruct (truthy id_) eqn:Hid; cbn [negb].
  - destruct (registered j (toString id_) _) eqn:Hreg; intros [= <- <-];
      (split; [eauto |]); exists id_; (split; [done |]); done.
  - intros [= <- <-]. split; [eauto |]. by exists id_.
Qed.

Lemma arrive_Inv (j : string) (data : JsValue) (h : Host) (a : Arrival)
    (h' : Host) p m c :
  arrive j data h = Some (a, h') → Inv_host h p m c → Inv_host h' p m c.
Proof.
  intros Harr HI. apply arrive_effect in Harr as (_ & id_ & _ & Ha).
  pose proof (emit_data_Inv j data h p m c HI) as HI1.
  destruct a as [| key |].
  - by destruct Ha as (_ & ->).
  - by destruct Ha as (_ & _ & _ & ->).
  - destruct Ha as (_ & _ & ->). unfold Inv_host. proj. by apply Inv_altered.
Qed.

Lemma take_perm (f : Task → bool) (p : list Task) (t : Task) (rest : list Task) :
  take f p = Some (t, rest) → p ≡ₚ t :: rest ∧ f t = true.
Proof.
  revert t rest. induction p as [|x p IH]; intros t rest; [done |]. cbn.
  destruct (f x) eqn:Hx; [by intros [= <- <-] |].
  destruct (take f p) as [[t' rest']|]; [| done]. intros [= <- <-].
  destruct (IH t' rest' eq_refl) as [Hp Hf]. split; [| done].
  rewrite Hp. apply perm_swap.
Qed.

Lemma resume_Inv (t : Task) (j rid : string) (r : JsValue) (n : string)
    (h : Host) p m c :
  awaits_response j rid t = true →
  Inv_host h (t :: p) m c →
  Inv_settled (resume t r n h) p m (c ++ confirmation t r).
Proof.
  intros Hf HI. destruct t as [| d j' i | d j' i | sn j' tm i | j' i];
    [done | ..]; cbn [resume].
  - cbn [confirmation]. rewrite app_nil_r. by eapply executeSnap_spawned_Inv.
  - by eapply executeSnap_answered_Inv.
  - cbn [confirmation]. rewrite app_nil_r.
    apply poll_answered_Inv. by eapply Inv_drop.
  - cbn [confirmation]. rewrite app_nil_r.
    apply rpcHook_answered_Inv. by eapply Inv_drop.
Qed.

Lemma confirmed_confirm (t : Task) (r : JsValue) (σ : System) :
  confirm t r σ
  = mkSystem (host σ) (pending σ) (minted σ)
             (confirmed σ ++ confirmation t r) (results σ).
Proof.
  unfold confirm, confirmation.
  destruct t, (_command_result r); rewrite ?app_nil_r; by destruct σ.
Qed.

Lemma settle_Inv (call : Call) (r : Result Progress * Host) (σ : System)
    (c : list (string * string)) :
  Inv_settled r (pending σ) (minted σ) c →
  let σ' := settle call r σ in
  Inv_host (host σ') (pending σ') (minted σ') c.
Proof.
  destruct r as [[[t | v] | e] h]; cbn; [| done..].
  intros HI. eapply Inv_perm; [| exact HI].
  apply Permutation_cons_append.
Qed.

Lemma settle_confirmed (call : Call) (r : Result Progress * Host) (σ : System) :
  confirmed (settle call r σ) = confirmed σ.
Proof. by destruct r as [[[t | v] | e] h]. Qed.

Lemma take_Inv (f : Task → bool) (t : Task) (rest : list Task) (h : Host) p m c :
  take f p = Some (t, rest) →
  Inv_host h p m c → Inv_host h (t :: rest) m c ∧ f t = true.
Proof.
  intros Htake HI. apply take_perm in Htake as [Hp Hf]. split; [| done].
  by eapply Inv_perm.
Qed.

Lemma Inv_of_settle (call : Call) (r : Result Progress * Host) (σ : System) :
  Inv_settled r (pending σ) (minted σ) (confirmed σ) → Inv (settle call r σ).
Proof.
  intros HI. apply (settle_Inv call) in HI. unfold Inv.
  by rewrite settle_confirmed.
Qed.

Lemma Inv_of_settle_sync (call : Call) (r : Result unit * Host) (σ : System) :
  Inv_host (snd r) (pending σ) (minted σ) (confirmed σ) →
  Inv (settle_sync call r σ).
Proof. by destruct r as [[[] | e] h]. Qed.

Lemma Inv_of_confirm (call : Call) (t : Task) (data : JsValue)
    (r : Result Progress * Host) (σ : System) :
  Inv_settled r (pending σ) (minted σ) (confirmed σ ++ confirmation t data) →
  Inv (confirm t data (settle call r σ)).
Proof.
  intros HI. apply (settle_Inv call) in HI. rewrite confirmed_confirm.
  unfold Inv. proj. by rewrite settle_confirmed.
Qed.

Lemma Inv_Some (σ σ' : System) : Inv σ → Some σ = Some σ' → Inv σ'.
Proof. by intros HI [= <-]. Qed.

(** The invariant holds along every turn. *)
Lemma step_Inv (ev : Event) (n : string) (σ σ' : System) :
  Inv σ → step ev n σ = Some σ' → Inv σ'.
Proof.
  intros HI. unfold step. case_decide as Hn; [done |].
  pose proof (Inv_mint _ _ _ _ _ _ n HI) as HI1.
  set (σ1 := mkSystem (host σ) (pending σ) (n :: minted σ) (confirmed σ)
                      (results σ)).
  change (Inv σ1) in HI1. cbn zeta. fold σ1.
  destruct ev as [d | sn | j | | sn origin rq | j faults | j data | t].
  - apply Inv_Some, Inv_of_settle.
    exact (executeSnap_Inv d n (host σ) _ _ _ Hn HI).
  - by apply Inv_Some, Inv_of_settle_sync, terminateSnap_Inv.
  - by apply Inv_Some, Inv_of_settle_sync, terminate_Inv.
  - by apply Inv_Some, Inv_of_settle_sync, terminateAllSnaps_Inv.
  - destruct (getRpcMessageHandler sn (host σ1)); [| done].
    by apply Inv_Some, Inv_of_settle, rpcHook_Inv.
  - destruct (take (is_creating j) (pending σ1)) as [[[d j' tm | | | |] rest]|]
      eqn:Htake; try done.
    destruct (take_Inv _ _ _ (host σ1) _ _ _ Htake HI1) as [HI2 _].
    by apply Inv_Some, Inv_of_settle, (_init_loaded_Inv d j' tm).
  - destruct (arrive j data (host σ1)) as [[arrival h1]|] eqn:Harr; [| done].
    pose proof (arrive_Inv _ _ _ _ _ _ _ _ Harr HI1) as HI2.
    destruct arrival as [| key |]; try (apply Inv_Some; exact HI2).
    destruct (take (awaits_response j key) (pending σ1)) as [[t rest]|]
      eqn:Htake; [| apply Inv_Some; exact HI2].
    destruct (handled data) as [response|]; [| done].
    destruct (take_Inv _ _ _ h1 _ _ _ Htake HI2) as [HI3 Hf].
    by apply Inv_Some, Inv_of_confirm, (resume_Inv t j key).
  - destruct (timers (env (host σ1)) !! t) as [[callback delay]|]; [| done].
    set (h1 := on_env (upd_timers (delete t)) (host σ1)).
    assert (HI2 : Inv_host h1 (pending σ1) (minted σ1) (confirmed σ1)) by done.
    destruct callback as [j | sn j |].
    + destruct (take (is_creating j) (pending σ1)) as [[tk rest]|] eqn:Htake;
        [| apply Inv_Some; exact HI2].
      destruct (take_Inv _ _ _ h1 _ _ _ Htake HI2) as [HI3 Hf].
      destruct tk as [d j' tm | | | |]; try done.
      cbn in Hf. apply String.eqb_eq in Hf as ->.
      by apply Inv_Some, Inv_of_settle, (_createWindow_timeout_Inv d j tm).
    + by apply Inv_Some, Inv_of_settle, poll_fired_Inv.
    + destruct (take (races_with t) (pending σ1)) as [[tk rest]|] eqn:Htake;
        [| apply Inv_Some; exact HI2].
      destruct (take_Inv _ _ _ h1 _ _ _ Htake HI2) as [HI3 Hf].
      destruct tk; try done.
      apply Inv_Some, Inv_of_settle. cbn. by eapply Inv_drop.
Qed.

Lemma start_Inv (a : Args) : Inv (start a).
Proof.
  split; [split | ..]; cbn; try done; try apply NoDup_nil_2;
    try (intros ? [? H]; by rewrite ?lookup_empty in H);
    try (intros ? ? H; by rewrite ?lookup_empty in H);
    try (intros ? H; by inversion H);
    try (intros ? ? ? H; by inversion H).
Qed.

Lemma run_Inv (evs : list (Event * string)) (σ σ' : System) :
  Inv σ → Service.run evs σ = Some σ' → Inv σ'.
Proof.
  revert σ. induction evs as [|[ev n] evs IH]; intros σ HI; cbn.
  - by intros [= <-].
  - destruct (step ev n σ) as [σ1|] eqn:Hstep; [| done].
    eauto using step_Inv.
Qed.

Lemma reachable_Inv (a : Args) (σ : System) : reachable a σ → Inv σ.
Proof. intros [evs Hrun]. eauto using run_Inv, start_Inv. Qed.

(** *** Calls made one after the other *)

Lemma paired_terminated (s : Service) (j sn : string) :
  jobToSnapMap s !! j = Some sn →
  paired s →
  paired (upd_jobs (jobs_delete j)
            (upd_hooks (delete sn)
               (upd_snapToJob (delete sn)
                  (upd_jobToSnap (delete j)
                     (upd_timeoutMap (delete sn) s))))).
Proof.
  intros Hj [Phooks Pmaps Pnamed Pknown]. split; proj.
  - intros sn'. destruct (decide (sn = sn')) as [<- | Hne].
    + rewrite !lookup_delete_eq. split; by intros [? ?].
    + rewrite !lookup_delete_ne by done. auto.
  - intros sn' j'. split.
    + intros H. apply lookup_delete_Some in H as [Hne H].
      apply Pmaps in H as H'. rewrite lookup_delete_ne; [done |].
      intros <-. congruence.
    + intros H. apply lookup_delete_Some in H as [Hne H].
      rewrite lookup_delete_ne; [by apply Pmaps |].
      intros <-. apply Pmaps in Hj. apply Pmaps in H. congruence.
  - intros j' sn' H. apply lookup_delete_Some in H as [Hne H]. eauto.
  - intros j' sn' H. apply lookup_delete_Some in H as [Hne H].
    rewrite jobs_get_delete_ne by done. eauto.
Qed.

Lemma terminate_paired (j : string) (h : Host) :
  paired (svc h) → paired (svc (snd (terminate j h))).
Proof.
  intros HP.
  destruct (terminate_cases j h) as [[e ->] | (jw & sn & Hjw & Hsn & _ & ->)];
    [done |].
  cbn [snd]. rewrite terminated_svc. by apply paired_terminated.
Qed.

Lemma terminateSnap_paired (sn : string) (h : Host) :
  paired (svc h) → paired (svc (snd (terminateSnap sn h))).
Proof.
  intros HP. unfold terminateSnap, bind, gets.
  destruct (truthy_string _); [by apply terminate_paired | done].
Qed.

Lemma paired_job_set (s : Service) (j : string) (jw : EnvMetadata) :
  paired s → paired (upd_jobs (jobs_set j jw) s).
Proof.
  intros [Phooks Pmaps Pnamed Pknown]. split; proj; try done.
  intros j' sn H. destruct (decide (j = j')) as [<- | Hne].
  - rewrite jobs_get_set_eq. eauto.
  - rewrite jobs_get_set_ne by done. eauto.
Qed.

(** *** The stretches of executeSnap, run *)

Lemma executeSnap_run (d : SnapData) (n : string) (h : Host) :
  snapToJobMap (svc h) !! snapId d = None →
  executeSnap d n h
  = (Ok (Await (CreatingWindow d n (nextTimer (env h)))), window_created n h).
Proof. intros Hfree. unfold executeSnap, bind, gets. by rewrite Hfree. Qed.

Lemma _init_loaded_run (d : SnapData) (j : string) (t : nat)
    (faults : bool * bool * bool) (n : string) (h : Host) :
  _init_loaded d j t faults n h
  = (Ok (Await (InitPing d j n)),
     sent_to j (request n "ping" []) (spawned j t faults h)).
Proof.
  destruct faults as [[fc fr] fx].
  unfold _init_loaded, _initStreams, _setJob, request.
  cbn [bind clearTimeout modify ret fst snd]. unfold bind.
  rewrite _command_send_run. proj. by rewrite jobs_get_set_eq.
Qed.

Lemma executeSnap_spawned_run (d : SnapData) (j : string) (pong : JsValue)
    (n : string) (h : Host) (v : JsValue) :
  is_Some (jobs_get (jobs (svc h)) j) →
  _command_result pong = Ok v →
  executeSnap_spawned d j pong n h
  = (Ok (Await (ExecuteCommand d j n)),
     sent_to j (request n "executeSnap" [("params", SnapData_to_js d)])
       (mapped (snapId d) j h)).
Proof.
  intros [jw Hjw] Hpong. unfold executeSnap_spawned. rewrite Hpong.
  unfold _mapSnapAndJob, request. cbn [bind modify try_catch ret].
  unfold try_catch, bind. rewrite _command_send_run. proj. by rewrite Hjw.
Qed.

Lemma executeSnap_spawned_failed (d : SnapData) (j : string) (pong : JsValue)
    (n : string) (h : Host) (e : JsValue) :
  _command_result pong = Thrown e →
  executeSnap_spawned d j pong n h = (Thrown e, h).
Proof. intros Hpong. unfold executeSnap_spawned. by rewrite Hpong. Qed.

Lemma _pollForJobStatus_ok (sn j : string) (h : Host) :
  snapToJobMap (svc h) !! sn = Some j → j ≠ "" →
  _pollForJobStatus sn h = (Ok tt, polled sn j h).
Proof.
  intros Hsn Hj. unfold _pollForJobStatus, bind, gets.
  by rewrite Hsn, (truthy_string_Some _ Hj).
Qed.

Lemma executeSnap_answered_run (d : SnapData) (j j' : string)
    (answer : JsValue) (h : Host) (v : JsValue) :
  snapToJobMap (svc h) !! snapId d = Some j' → j' ≠ "" →
  _command_result answer = Ok v →
  executeSnap_answered d j answer h
  = (Ok (Return v),
     on_svc (upd_hooks (insert (snapId d) (mkSnapRpcHook (snapId d) j)))
       (polled (snapId d) j'
          (on_env (upd_provided (λ l, l ++ [(snapId d, j)])) h))).
Proof.
  intros Hsn Hj Hok. unfold executeSnap_answered. rewrite Hok.
  unfold setupSnapProvider. cbn [bind modify]. unfold bind at 1.
  rewrite (_pollForJobStatus_ok _ j') by done. reflexivity.
Qed.

Lemma executeSnap_answered_failed (d : SnapData) (j : string)
    (answer : JsValue) (h : Host) (e : JsValue) (jw : EnvMetadata) (sn : string) :
  jobs_get (jobs (svc h)) j = Some jw →
  jobToSnapMap (svc h) !! j = Some sn → sn ≠ "" →
  _command_result answer = Thrown e →
  executeSnap_answered d j answer h = (Thrown e, terminated j jw sn h).
Proof.
  intros Hjw Hsn Hne Hfail. unfold executeSnap_answered. rewrite Hfail.
  unfold bind. by rewrite (terminate_ok j jw sn).
Qed.

Lemma paired_mapped_hooked (s : Service) (sn j : string) :
  snapToJobMap s !! sn = None → jobToSnapMap s !! j = None →
  sn ≠ "" → is_Some (jobs_get (jobs s) j) →
  paired s →
  paired (upd_hooks (insert sn (mkSnapRpcHook sn j))
            (upd_jobToSnap (insert j sn) (upd_snapToJob (insert sn j) s))).
Proof.
  intros Hfree Hunmapped Hsn Hjob [Phooks Pmaps Pnamed Pknown]. split; proj.
  - intros sn'. rewrite !lookup_insert. case_decide; [| auto]. split; eauto.
  - intros sn' j'. rewrite !lookup_insert. split.
    + case_decide as H1.
      * intros [= <-]. rewrite decide_True by done. by subst.
      * intros H. case_decide as H2; [| by apply Pmaps].
        subst j'. apply Pmaps in H. congruence.
    + case_decide as H1.
      * intros [= <-]. rewrite decide_True by done. by subst.
      * intros H. case_decide as H2; [| by apply Pmaps].
        subst sn'. apply Pmaps in H. congruence.
  - intros j' sn'. rewrite lookup_insert.
    case_decide; [intros [= <-]; done | eauto].
  - intros j' sn'. rewrite lookup_insert. case_decide; [subst; eauto | eauto].
Qed.

Lemma paired_same (s s' : Service) :
  _snapRpcHooks s' = _snapRpcHooks s → snapToJobMap s' = snapToJobMap s →
  jobToSnapMap s' = jobToSnapMap s →
  (∀ j sn, jobToSnapMap s !! j = Some sn →
           jobs_get (jobs s') j = jobs_get (jobs s) j) →
  paired s → paired s'.
Proof.
  intros H1 H2 H3 H4 [Phooks Pmaps Pnamed Pknown]. split; rewrite ?H1, ?H2, ?H3; try done.
  intros j sn H. rewrite (H4 j sn H). eauto.
Qed.

Lemma executeSnap_completed_paired (d : SnapData) (b : Behaviour)
    (jobId id1 id2 : string) (h : Host) :
  snapId d ≠ "" → jobId ≠ "" → jobs_get (jobs (svc h)) jobId = None →
  paired (svc h) →
  paired (svc (snd (executeSnap_completed d b jobId id1 id2 h))).
Proof.
  intros Hsn Hj Hfresh HP. unfold executeSnap_completed.
  destruct (snapToJobMap (svc h) !! snapId d) as [j0|] eqn:Hfree.
  { unfold executeSnap, bind, gets. by rewrite Hfree. }
  assert (Hunmapped : jobToSnapMap (svc h) !! jobId = None).
  { destruct (jobToSnapMap (svc h) !! jobId) eqn:H; [| done].
    apply (paired_known _ HP) in H as [? ?]. congruence. }
  rewrite executeSnap_run by done.
  destruct b as [| faults pong answer]; [done |].
  rewrite _init_loaded_run.
  set (h2 := answered _ _ (sent_to _ _ _)).
  assert (Hjob2 : jobs_get (jobs (svc h2)) jobId = Some (mkEnvMetadata jobId jobId))
    by (subst h2; proj; apply jobs_get_set_eq).
  assert (HP2 : paired (svc h2)) by (subst h2; proj; by apply paired_job_set).
  assert (Hfree2 : snapToJobMap (svc h2) !! snapId d = None) by done.
  assert (Hunmapped2 : jobToSnapMap (svc h2) !! jobId = None) by done.
  destruct (_command_result pong) as [v | e] eqn:Hpong.
  2: { by rewrite (executeSnap_spawned_failed _ _ _ _ _ e). }
  rewrite (executeSnap_spawned_run _ _ _ _ _ v) by eauto.
  set (h3 := answered _ _ (sent_to _ _ _)).
  destruct (_command_result answer) as [v' | e] eqn:Hanswer.
  - rewrite (executeSnap_answered_run _ _ jobId _ _ v'); [| | done..].
    2: { subst h3. proj. apply lookup_insert_eq. }
    cbn [finished snd].
    eapply paired_same;
      [.. | apply (paired_mapped_hooked (svc h2) (snapId d) jobId); eauto];
      try reflexivity.
  - rewrite (executeSnap_answered_failed _ _ _ _ e (mkEnvMetadata jobId jobId)
               (snapId d)); [| done | | done..].
    2: { subst h3. proj. apply lookup_insert_eq. }
    cbn [finished snd]. rewrite terminated_svc.
    eapply paired_same; [.. | exact HP2]; subst h3;
      unfold answered, sent_to, mapped; proj.
    + rewrite delete_id; [done |].
      destruct (_snapRpcHooks (svc h2) !! snapId d) eqn:H; [| done].
      assert (Hs : is_Some (snapToJobMap (svc h2) !! snapId d))
        by (apply (paired_hooks _ HP2); eauto).
      rewrite Hfree2 in Hs. by destruct Hs.
    + by rewrite delete_insert_eq, delete_id.
    + by rewrite delete_insert_eq, delete_id.
    + intros j sn H. apply jobs_get_delete_ne. intros <-. congruence.
Qed.

Lemma sequential_paired (a : Args) (h : Host) :
  sequential a h → paired (svc h).
Proof.
  induction 1 as [| h d b j i1 i2 _ IH Hsn Hj Hfresh | h sn _ IH].
  - split; cbn; try done. intros sn. rewrite !lookup_empty. split; by intros [? ?].
  - by apply executeSnap_completed_paired.
  - by apply terminateSnap_paired.
Qed.

Lemma same_keys_size {A B} (m1 : gmap string A) (m2 : gmap string B) :
  (∀ k, is_Some (m1 !! k) ↔ is_Some (m2 !! k)) → size m1 = size m2.
Proof.
  intros H. rewrite <- !size_dom. f_equal. apply set_eq. intros k.
  by rewrite !elem_of_dom.
Qed.

(** C3, amended: in every state reached by [executeSnap] and
    [terminateSnap] calls made one after the other, each run to completion,
    with snap ids that are not empty, a hook exists for a snapId if and only
    if the snapId is in the snap-to-job mapping, the two directions of the
    mapping are inverse to each other (one job per snap, one snap per mapped
    job), and the mapping has as many entries as there are hooks. *)
Theorem sequential_calls_keep_maps_paired (a : Args) (h : Host) :
  sequential a h →
  (∀ sn, is_Some (_snapRpcHooks (svc h) !! sn)
         ↔ is_Some (snapToJobMap (svc h) !! sn))
  ∧ (∀ sn j, snapToJobMap (svc h) !! sn = Some j
             ↔ jobToSnapMap (svc h) !! j = Some sn)
  ∧ size (snapToJobMap (svc h)) = size (_snapRpcHooks (svc h)).
Proof.
  intros Hseq. destruct (sequential_paired a h Hseq) as [Hh Hm _ _].
  split; [done |]. split; [done |].
  symmetry. by apply same_keys_size.
Qed.

(** *** Pending tasks are distinct *)

Lemma Distinct_perm next (p p' : list Task) m :
  p ≡ₚ p' → Distinct_at next p m → Distinct_at next p' m.
Proof.
  intros Hp [Hids Hminted Htimers Hold].
  assert (H1 : omap request_id p ≡ₚ omap request_id p') by by apply omap_Permutation.
  assert (H2 : omap race_timer p ≡ₚ omap race_timer p') by by apply omap_Permutation.
  split.
  - by rewrite <- H1.
  - intros i Hi. rewrite <- H1 in Hi. auto.
  - by rewrite <- H2.
  - intros t Ht. rewrite <- H2 in Ht. auto.
Qed.

Lemma Distinct_drop next (t : Task) (p : list Task) m :
  Distinct_at next (t :: p) m → Distinct_at next p m.
Proof.
  intros [Hids Hminted Htimers Hold]. cbn in *. split.
  - destruct (request_id t); [by apply NoDup_cons in Hids as [_ ?] | done].
  - intros i Hi. apply Hminted. destruct (request_id t); [by right | done].
  - destruct (race_timer t); [by apply NoDup_cons in Htimers as [_ ?] | done].
  - intros x Hx. apply Hold. destruct (race_timer t); [by right | done].
Qed.

Lemma Distinct_later next next' (p : list Task) m n :
  (next ≤ next')%nat → Distinct_at next p m → Distinct_at next' p (n :: m).
Proof.
  intros Hle [Hids Hminted Htimers Hold]. split; try done.
  - intros i Hi. right. auto.
  - intros t Ht. specialize (Hold t Ht). lia.
Qed.

Lemma Distinct_push next next' (t : Task) (p : list Task) m n :
  n ∉ m → (next ≤ next')%nat →
  (request_id t = None ∨ request_id t = Some n) →
  (race_timer t = None ∨ (race_timer t = Some next ∧ (next < next')%nat)) →
  Distinct_at next p m → Distinct_at next' (t :: p) (n :: m).
Proof.
  intros Hn Hle Hid Hrace [Hids Hminted Htimers Hold]. split; cbn.
  - destruct Hid as [-> | ->]; [done |]. apply NoDup_cons. split; [| done].
    intros Hin. apply Hn. auto.
  - destruct Hid as [-> | ->].
    + intros i Hi. right. auto.
    + intros i Hi. apply elem_of_cons in Hi as [-> | Hi]; [left | right; auto].
  - destruct Hrace as [-> | [-> Hlt]]; [done |]. apply NoDup_cons.
    split; [| done]. intros Hin. specialize (Hold next Hin). lia.
  - destruct Hrace as [-> | [-> Hlt]].
    + intros x Hx. specialize (Hold x Hx). lia.
    + intros x Hx. apply elem_of_cons in Hx as [-> | Hx]; [done |].
      specialize (Hold x Hx). lia.
Qed.

(** Where a stretch ends. *)
Lemma Distinct_settle (call : Call) (r : Result Progress * Host) (σ : System)
    (n : string) (next : nat) m :
  minted σ = n :: m → n ∉ m →
  modest n next r → Distinct_at next (pending σ) m →
  Distinct (settle call r σ).
Proof.
  intros Hm Hn [Hle Htask] HD. unfold Distinct.
  destruct r as [[[t | v] | e] h]; cbn in *; rewrite Hm.
  - destruct Htask as [Hid Hrace].
    eapply Distinct_perm; [apply Permutation_cons_append |].
    by eapply Distinct_push.
  - by eapply Distinct_later.
  - by eapply Distinct_later.
Qed.

Lemma terminate_nextTimer (j : string) (h : Host) :
  nextTimer (env (snd (terminate j h))) = nextTimer (env h).
Proof.
  destruct (terminate_cases j h) as [[e ->] | (jw & sn & _ & _ & _ & ->)];
    [done |].
  cbn [snd]. rewrite terminated_env. cbn.
  by destruct (_timeoutForUnresponsiveMap (svc h) !! sn).
Qed.

Lemma for_of_terminate_nextTimer (ks : list string) (h : Host) :
  nextTimer (env (snd (for_of ks terminate h))) = nextTimer (env h).
Proof.
  revert h. induction ks as [|k ks IH]; intros h; [done |].
  cbn [for_of]. unfold bind.
  pose proof (terminate_nextTimer k h) as H1.
  destruct (terminate k h) as [[[]|e] h1]; cbn [snd] in *; [| done].
  by rewrite IH.
Qed.

Lemma terminateAllSnaps_nextTimer (h : Host) :
  nextTimer (env (snd (terminateAllSnaps h))) = nextTimer (env h).
Proof.
  unfold terminateAllSnaps, bind, gets.
  pose proof (for_of_terminate_nextTimer (jobs_keys (jobs (svc h))) h) as H1.
  by destruct (for_of _ terminate h) as [[[]|e] h1].
Qed.

Lemma terminateSnap_nextTimer (sn : string) (h : Host) :
  nextTimer (env (snd (terminateSnap sn h))) = nextTimer (env h).
Proof.
  unfold terminateSnap, bind, gets.
  destruct (truthy_string _); [apply terminate_nextTimer | done].
Qed.

Lemma modest_sync (n : string) (r : Result unit * Host) (h : Host) :
  nextTimer (env (snd r)) = nextTimer (env h) →
  modest n (nextTimer (env h))
    (match fst r with
     | Ok _ => Ok (Return JUndefined)
     | Thrown e => Thrown e
     end, snd r).
Proof. intros H. split; cbn; [lia | by destruct (fst r)]. Qed.

Lemma executeSnap_modest (d : SnapData) (n : string) (h : Host) :
  modest n (nextTimer (env h)) (executeSnap d n h).
Proof.
  unfold executeSnap, bind, gets.
  destruct (snapToJobMap (svc h) !! snapId d); split; cbn; auto; lia.
Qed.

Lemma _init_loaded_modest (d : SnapData) (j : string) (t : nat)
    (faults : bool * bool * bool) (n : string) (h : Host) :
  modest n (nextTimer (env h)) (_init_loaded d j t faults n h).
Proof. rewrite _init_loaded_run. split; cbn; auto. Qed.

Lemma _createWindow_timeout_modest (j n : string) (h : Host) :
  modest n (nextTimer (env h)) (_createWindow_timeout j h).
Proof. split; cbn; auto. Qed.

Lemma _pollForJobStatus_nextTimer (sn : string) (h : Host) :
  (nextTimer (env h) ≤ nextTimer (env (snd (_pollForJobStatus sn h))))%nat.
Proof.
  destruct (_pollForJobStatus_run sn h) as [[e ->] | (_ & j & _ & ->)]; cbn; lia.
Qed.

Lemma resume_modest (t : Task) (response : JsValue) (n : string) (h : Host) :
  modest n (nextTimer (env h)) (resume t response n h).
Proof.
  destruct t as [d j tm | d j i | d j i | sn j tm i | j i]; cbn [resume].
  - split; cbn; auto.
  - unfold executeSnap_spawned. destruct (_command_result response);
      [| split; cbn; auto].
    unfold _mapSnapAndJob, request. cbn [bind modify try_catch ret].
    unfold try_catch, bind. rewrite _command_send_run. proj.
    destruct (jobs_get (jobs (svc h)) j); [split; cbn; auto |].
    set (h1 := on_svc _ _).
    pose proof (terminate_nextTimer j h1) as H1.
    destruct (terminate j h1) as [[[]|e] h2]; split; cbn in *; auto; lia.
  - unfold executeSnap_answered. destruct (_command_result response).
    + unfold setupSnapProvider. cbn [bind modify]. unfold bind.
      set (h1 := on_env _ h).
      pose proof (_pollForJobStatus_nextTimer (snapId d) h1) as H1.
      destruct (_pollForJobStatus (snapId d) h1) as [[[]|e] h2];
        split; cbn in *; auto.
    + unfold bind. pose proof (terminate_nextTimer j h) as H1.
      destruct (terminate j h) as [[[]|e'] h2]; split; cbn in *; auto; lia.
  - unfold poll_answered. destruct (_command_result response);
      [| split; cbn; auto].
    cbn [bind clearTimeout modify]. unfold bind, try_catch.
    set (h1 := on_env _ h).
    pose proof (_pollForJobStatus_nextTimer sn h1) as H1.
    destruct (_pollForJobStatus sn h1) as [[[]|e] h2]; split; cbn in *; auto.
  - unfold rpcHook_answered. destruct (_command_result response);
      split; cbn; auto.
Qed.

Lemma poll_fired_modest (sn j n : string) (h : Host) :
  modest n (nextTimer (env h)) (poll_fired sn j n h).
Proof.
  unfold poll_fired, request. cbn [bind gets setTimeout ret].
  unfold try_catch, bind. rewrite _command_send_run. proj.
  destruct (jobs_get (jobs (svc h)) j); split; cbn; auto.
Qed.

Lemma rpcHook_modest (hook : SnapRpcHook) (origin : string) (rq : JsValue)
    (n : string) (h : Host) :
  modest n (nextTimer (env h)) (rpcHook hook origin rq n h).
Proof.
  unfold rpcHook, request, bind. rewrite _command_send_run.
  destruct (jobs_get (jobs (svc h)) (hook_jobId hook)); split; cbn; auto.
Qed.

Lemma emit_data_nextTimer (j : string) (data : JsValue) (h : Host) :
  nextTimer (env (snd (emit_data j data h))) = nextTimer (env h).
Proof.
  unfold emit_data, errorHandler, bind, gets, modify, publish, ret, throw.
  repeat case_match; unfold modify in *; simplify_eq; cbn; auto.
Qed.

Lemma arrive_nextTimer (j : string) (data : JsValue) (h : Host) (a : Arrival)
    (h' : Host) :
  arrive j data h = Some (a, h') → nextTimer (env h') = nextTimer (env h).
Proof.
  intros Harr. apply arrive_effect in Harr as (_ & id_ & _ & Ha).
  rewrite <- (emit_data_nextTimer j data h).
  destruct a; [by destruct Ha as (_ & ->) | by destruct Ha as (_ & _ & _ & ->)
              | by destruct Ha as (_ & _ & ->)].
Qed.

Lemma Distinct_Some (σ σ' : System) : Distinct σ → Some σ = Some σ' → Distinct σ'.
Proof. by intros HD [= <-]. Qed.

Lemma Distinct_confirm (t : Task) (data : JsValue) (σ : System) :
  Distinct σ → Distinct (confirm t data σ).
Proof. intros HD. rewrite confirmed_confirm. exact HD. Qed.

Lemma take_Distinct (f : Task → bool) (t : Task) (rest p : list Task) next m :
  take f p = Some (t, rest) →
  Distinct_at next p m → Distinct_at next rest m.
Proof.
  intros Htake HD. apply take_perm in Htake as [Hp _].
  eapply Distinct_drop, Distinct_perm; eauto.
Qed.

(** Distinctness holds along every turn. *)
Lemma step_Distinct (ev : Event) (n : string) (σ σ' : System) :
  Distinct σ → step ev n σ = Some σ' → Distinct σ'.
Proof.
  intros HD. unfold step. case_decide as Hn; [done |].
  set (σ1 := mkSystem (host σ) (pending σ) (n :: minted σ) (confirmed σ)
                      (results σ)).
  cbn zeta. fold σ1.
  destruct ev as [d | sn | j | | sn origin rq | j faults | j data | t].
  - apply Distinct_Some.
    apply (Distinct_settle _ _ σ1 n (nextTimer (env (host σ))) (minted σ));
      auto using executeSnap_modest.
  - apply Distinct_Some.
    apply (Distinct_settle _ _ σ1 n (nextTimer (env (host σ))) (minted σ));
      auto using modest_sync, terminateSnap_nextTimer.
  - apply Distinct_Some.
    apply (Distinct_settle _ _ σ1 n (nextTimer (env (host σ))) (minted σ));
      auto using modest_sync, terminate_nextTimer.
  - apply Distinct_Some.
    apply (Distinct_settle _ _ σ1 n (nextTimer (env (host σ))) (minted σ));
      auto using modest_sync, terminateAllSnaps_nextTimer.
  - destruct (getRpcMessageHandler sn (host σ1)); [| done].
    apply Distinct_Some.
    apply (Distinct_settle _ _ σ1 n (nextTimer (env (host σ))) (minted σ));
      auto using rpcHook_modest.
  - destruct (take (is_creating j) (pending σ1)) as [[[d j' tm | | | |] rest]|]
      eqn:Htake; try done.
    apply Distinct_Some.
    apply (Distinct_settle _ _ (with_pending rest σ1) n
             (nextTimer (env (host σ))) (minted σ));
      eauto using _init_loaded_modest, take_Distinct.
  - destruct (arrive j data (host σ1)) as [[arrival h1]|] eqn:Harr; [| done].
    pose proof (arrive_nextTimer _ _ _ _ _ Harr) as Hnext.
    assert (HD1 : Distinct (with_host h1 σ1)).
    { unfold Distinct. proj. rewrite Hnext.
      by eapply Distinct_later. }
    destruct arrival as [| key |]; try (apply Distinct_Some; exact HD1).
    destruct (take (awaits_response j key) (pending σ1)) as [[t rest]|]
      eqn:Htake; [| apply Distinct_Some; exact HD1].
    destruct (handled data) as [response|]; [| done].
    apply Distinct_Some, Distinct_confirm.
    apply (Distinct_settle _ _ (with_pending rest σ1) n
             (nextTimer (env h1)) (minted σ)); auto using resume_modest.
    rewrite Hnext. eauto using take_Distinct.
  - destruct (timers (env (host σ1)) !! t) as [[callback delay]|]; [| done].
    set (h1 := on_env (upd_timers (delete t)) (host σ1)).
    assert (HD1 : Distinct (with_host h1 σ1)).
    { unfold Distinct. proj. by eapply Distinct_later. }
    destruct callback as [j | sn j |].
    + destruct (take (is_creating j) (pending σ1)) as [[tk rest]|] eqn:Htake;
        [| apply Distinct_Some; exact HD1].
      apply Distinct_Some.
      apply (Distinct_settle _ _ (with_pending rest σ1) n
               (nextTimer (env h1)) (minted σ));
        eauto using _createWindow_timeout_modest, take_Distinct.
    + apply Distinct_Some.
      apply (Distinct_settle _ _ σ1 n (nextTimer (env h1)) (minted σ));
        auto using poll_fired_modest.
    + destruct (take (races_with t) (pending σ1)) as [[tk rest]|] eqn:Htake;
        [| apply Distinct_Some; exact HD1].
      destruct tk; try (apply Distinct_Some; exact HD1).
      apply Distinct_Some.
      apply (Distinct_settle _ _ (with_pending rest σ1) n
               (nextTimer (env h1)) (minted σ)); eauto using take_Distinct.
      split; cbn; auto.
Qed.

Lemma start_Distinct (a : Args) : Distinct (start a).
Proof.
  split; cbn; try apply NoDup_nil_2; intros ? H; inversion H.
Qed.

Lemma run_Distinct (evs : list (Event * string)) (σ σ' : System) :
  Distinct σ → Service.run evs σ = Some σ' → Distinct σ'.
Proof.
  revert σ. induction evs as [|[ev n] evs IH]; intros σ HD; cbn.
  - by intros [= <-].
  - destruct (step ev n σ) as [σ1|] eqn:Hstep; [| done].
    eauto using step_Distinct.
Qed.

Lemma reachable_Distinct (a : Args) (σ : System) : reachable a σ → Distinct σ.
Proof. intros [evs Hrun]. eauto using run_Distinct, start_Distinct. Qed.

Lemma take_None (f : Task → bool) (p : list Task) :
  (∀ x, x ∈ p → f x = false) → take f p = None.
Proof.
  induction p as [|x p IH]; [done |]. intros H. cbn.
  rewrite (H x) by left. rewrite IH; [done |]. intros y Hy. apply H. by right.
Qed.

Lemma omap_key_unique {K} (key : Task → option K) (x0 : Task) (rest : list Task)
    (k : K) :
  NoDup (omap key (x0 :: rest)) → key x0 = Some k →
  ∀ y, y ∈ rest → key y ≠ Some k.
Proof.
  cbn. intros Hnd Hk y Hy Hyk. rewrite Hk in Hnd.
  apply NoDup_cons in Hnd as [Hnot _]. apply Hnot.
  apply list_elem_of_omap. by exists y.
Qed.

Lemma take_the_one {K} (f : Task → bool) (key : Task → option K) (k : K)
    (x0 : Task) (p : list Task) :
  (∀ x, f x = true → key x = Some k) → f x0 = true →
  NoDup (omap key p) → x0 ∈ p →
  ∃ rest, take f p = Some (x0, rest) ∧ p ≡ₚ x0 :: rest.
Proof.
  intros Hf Hx0 Hnd Hin. induction p as [|x p IH]; [inversion Hin |].
  cbn. destruct (f x) eqn:Hx.
  - assert (x0 = x) as ->.
    { apply elem_of_cons in Hin as [-> | Hin]; [done |].
      exfalso. apply (omap_key_unique key x p k Hnd (Hf x Hx) x0 Hin). auto. }
    by exists p.
  - apply elem_of_cons in Hin as [-> | Hin]; [congruence |].
    destruct IH as (rest & -> & Hp); [| done |].
    { cbn in Hnd. destruct (key x); [by apply NoDup_cons in Hnd as [_ ?] | done]. }
    exists (x :: rest). split; [done |]. rewrite Hp. apply perm_swap.
Qed.

Lemma races_with_key (t : nat) (x : Task) :
  races_with t x = true → race_timer x = Some t.
Proof.
  destruct x; cbn; try done. intros H. by apply Nat.eqb_eq in H as ->.
Qed.

Lemma awaits_response_key (j i : string) (x : Task) :
  awaits_response j i x = true → request_id x = Some i.
Proof.
  destruct x; cbn; try done; intros H; apply andb_true_iff in H as [_ H];
    by apply String.eqb_eq in H as ->.
Qed.

(** In a reachable state the task of a race is the only one that races its
    timer and the only one that awaits its request. *)
Lemma race_is_unique (a : Args) (σ : System) (sn j : string) (t : nat)
    (i : string) :
  reachable a σ → JobStatus sn j t i ∈ pending σ →
  (∃ rest, take (races_with t) (pending σ) = Some (JobStatus sn j t i, rest)
           ∧ take (awaits_response j i) rest = None
           ∧ pending σ ≡ₚ JobStatus sn j t i :: rest)
  ∧ (∃ rest, take (awaits_response j i) (pending σ)
             = Some (JobStatus sn j t i, rest)
             ∧ take (races_with t) rest = None
             ∧ pending σ ≡ₚ JobStatus sn j t i :: rest).
Proof.
  intros Hreach Hin. destruct (reachable_Distinct a σ Hreach) as [Hids _ Htimers _].
  split.
  - destruct (take_the_one (races_with t) race_timer t (JobStatus sn j t i)
                (pending σ)) as (rest & Htake & Hp);
      [apply races_with_key | cbn; apply Nat.eqb_refl | done.. |].
    exists rest. split; [done |]. split; [| done].
    apply take_None. intros y Hy.
    destruct (awaits_response j i y) eqn:Hf; [| done].
    exfalso. rewrite Hp in Hids.
    apply (omap_key_unique request_id _ rest i Hids eq_refl y Hy).
    by apply (awaits_response_key j).
  - destruct (take_the_one (awaits_response j i) request_id i
                (JobStatus sn j t i) (pending σ)) as (rest & Htake & Hp);
      [apply awaits_response_key | cbn; by rewrite !String.eqb_refl
      | done.. |].
    exists rest. split; [done |]. split; [| done].
    apply take_None. intros y Hy.
    destruct (races_with t y) eqn:Hf; [| done].
    exfalso. rewrite Hp in Htimers.
    apply (omap_key_unique race_timer _ rest t Htimers eq_refl y Hy).
    by apply races_with_key.
Qed.

(** *** Pending requests are filed *)

Lemma registered_true (j key : string) (m : list (string * string)) :
  registered j key m = true ↔ (j, key) ∈ m.
Proof.
  unfold registered. rewrite existsb_exists. split.
  - intros ([j' k'] & Hin & H). cbn in H. apply andb_true_iff in H as [H1 H2].
    apply String.eqb_eq in H1 as ->. apply String.eqb_eq in H2 as ->.
    by apply list_elem_of_In.
  - intros Hin. exists (j, key). split; [by apply list_elem_of_In |].
    cbn. by rewrite !String.eqb_refl.
Qed.

Lemma registered_register (j key : string) (m : list (string * string)) :
  registered j key (register j key m) = true.
Proof.
  unfold register. destruct (registered j key m) eqn:H; [done |].
  unfold registered. rewrite existsb_app. cbn. rewrite !String.eqb_refl.
  apply orb_true_r.
Qed.

Lemma registered_mono (j i j' key : string) (m : list (string * string)) :
  registered j i m = true → registered j i (register j' key m) = true.
Proof.
  intros H. unfold register. destruct (registered j' key m); [done |].
  apply registered_true. apply registered_true in H. apply elem_of_app. by left.
Qed.

Lemma registered_unregister (j i j' key : string) (m : list (string * string)) :
  (j, i) ≠ (j', key) →
  registered j i m = true → registered j i (unregister j' key m) = true.
Proof.
  intros Hne H. apply registered_true. apply registered_true in H.
  unfold unregister. apply list_elem_of_In, filter_In.
  split; [by apply list_elem_of_In |]. cbn.
  destruct (String.eqb_spec j j') as [-> |]; [| done].
  destruct (String.eqb_spec i key) as [-> |]; done.
Qed.

Lemma unregistered (j key : string) (m : list (string * string)) :
  registered j key (unregister j key m) = false.
Proof.
  destruct (registered j key (unregister j key m)) eqn:H; [| done].
  apply registered_true in H. unfold unregister in H.
  apply list_elem_of_In, filter_In in H as [_ H]. cbn in H.
  by rewrite !String.eqb_refl in H.
Qed.

Lemma sent_to_idMap (j n method : string) (h : Host) :
  idMap (env (sent_to j (request n method []) h)) = register j n (idMap (env h)).
Proof. reflexivity. Qed.

Lemma sent_to_idMap_params (j n method : string) (v : JsValue) (h : Host) :
  idMap (env (sent_to j (request n method [("params", v)]) h))
  = register j n (idMap (env h)).
Proof. reflexivity. Qed.

Lemma awaited_request_id (t : Task) (j i : string) :
  awaited_request t = Some (j, i) → request_id t = Some i.
Proof. destruct t; cbn; congruence. Qed.

Lemma awaits_response_awaited (j i : string) (t : Task) :
  awaits_response j i t = true ↔ awaited_request t = Some (j, i).
Proof.
  destruct t; cbn; [by split | ..]; rewrite andb_true_iff, !String.eqb_eq;
    (split; [intros [-> ->] | intros [= -> ->]]); done.
Qed.

Lemma Filed_perm idm (p p' : list Task) m :
  p ≡ₚ p' → Filed_at idm p m → Filed_at idm p' m.
Proof.
  intros Hp [Hm Hf].
  assert (H1 : omap awaited_request p ≡ₚ omap awaited_request p')
    by by apply omap_Permutation.
  split; [done |]. intros j i Hi. rewrite <- H1 in Hi. auto.
Qed.

Lemma Filed_drop idm (t : Task) (p : list Task) m :
  Filed_at idm (t :: p) m → Filed_at idm p m.
Proof.
  intros [Hm Hf]. split; [done |]. intros j i Hi. apply Hf. cbn.
  destruct (awaited_request t); [by right | done].
Qed.

Lemma Filed_later idm idm' (p : list Task) m n :
  (∀ j i, registered j i idm = true → registered j i idm' = true) →
  Filed_at idm p m → Filed_at idm' p (n :: m).
Proof.
  intros Hmono [Hm Hf]. split; [by right |].
  intros j i Hi. destruct (Hf j i Hi). auto.
Qed.

Lemma Filed_push idm idm' (t : Task) (p : list Task) m n :
  n ∉ m →
  (∀ j i, registered j i idm = true → registered j i idm' = true) →
  (∀ j i, awaited_request t = Some (j, i) →
          i = n ∧ registered j i idm' = true) →
  Filed_at idm p m → Filed_at idm' (t :: p) (n :: m).
Proof.
  intros Hn Hmono Ht [Hm Hf]. split; [by right |].
  intros j i. cbn. destruct (awaited_request t) as [[j' i']|] eqn:Hreq.
  - intros Hi. apply elem_of_cons in Hi as [[= -> ->] | Hi].
    + destruct (Ht j' i' eq_refl) as [-> Hreg]. split; [| done].
      intros ->. done.
    + destruct (Hf j i Hi). auto.
  - intros Hi. destruct (Hf j i Hi). auto.
Qed.

(** The reply to the request filed under [key] has been read: the request
    leaves the [idMap], and no task that is left awaits it. *)
Lemma Filed_unregister idm (p : list Task) m (j key : string) :
  (∀ x, x ∈ p → awaits_response j key x = false) →
  Filed_at idm p m → Filed_at (unregister j key idm) p m.
Proof.
  intros Hnone [Hm Hf]. split; [done |]. intros j' i' Hi.
  destruct (Hf j' i' Hi) as [Hne Hreg]. split; [done |].
  apply registered_unregister; [| done]. intros [= -> ->].
  apply list_elem_of_omap in Hi as (x & Hx & Hreq).
  apply awaits_response_awaited in Hreq. rewrite (Hnone x Hx) in Hreq. done.
Qed.

Lemma take_None_inv (f : Task → bool) (p : list Task) :
  take f p = None → ∀ x, x ∈ p → f x = false.
Proof.
  induction p as [|y p IH]; [intros _ x Hx; inversion Hx |]. cbn.
  destruct (f y) eqn:Hy; [done |].
  destruct (take f p) as [[t rest]|]; [done |]. intros _ x Hx.
  apply elem_of_cons in Hx as [-> | Hx]; [done | by apply IH].
Qed.

(** Among tasks that await distinct requests, the one [take] finds for a
    reply is the only one that awaits it. *)
Lemma take_awaits_only (j key : string) (p : list Task) (t : Task)
    (rest : list Task) :
  NoDup (omap request_id p) →
  take (awaits_response j key) p = Some (t, rest) →
  ∀ x, x ∈ rest → awaits_response j key x = false.
Proof.
  intros Hnd Htake x Hx. apply take_perm in Htake as [Hp Ht].
  destruct (awaits_response j key x) eqn:Hf; [| done]. exfalso.
  rewrite Hp in Hnd.
  apply (omap_key_unique request_id t rest key Hnd
           (awaits_response_key j key t Ht) x Hx).
  by apply (awaits_response_key j).
Qed.

(** Where a stretch ends. *)
Lemma Filed_settle (call : Call) (r : Result Progress * Host) (σ : System)
    (n : string) (h : Host) m :
  minted σ = n :: m → n ∉ m →
  files n h r → Filed_at (idMap (env h)) (pending σ) m →
  Filed (settle call r σ).
Proof.
  intros Hm Hn [Hmono Htask] HF. unfold Filed.
  destruct r as [[[t | v] | e] h']; cbn in *; rewrite Hm.
  - eapply Filed_perm; [apply Permutation_cons_append |].
    by eapply Filed_push.
  - by eapply Filed_later.
  - by eapply Filed_later.
Qed.

Lemma terminate_idMap (j : string) (h : Host) :
  idMap (env (snd (terminate j h))) = idMap (env h).
Proof.
  destruct (terminate_cases j h) as [[e ->] | (jw & sn & _ & _ & _ & ->)];
    [done |].
  cbn [snd]. rewrite terminated_env. cbn.
  by destruct (_timeoutForUnresponsiveMap (svc h) !! sn).
Qed.

Lemma for_of_terminate_idMap (ks : list string) (h : Host) :
  idMap (env (snd (for_of ks terminate h))) = idMap (env h).
Proof.
  revert h. induction ks as [|k ks IH]; intros h; [done |].
  cbn [for_of]. unfold bind.
  pose proof (terminate_idMap k h) as H1.
  destruct (terminate k h) as [[[]|e] h1]; cbn [snd] in *; [| done].
  by rewrite IH.
Qed.

Lemma terminateAllSnaps_idMap (h : Host) :
  idMap (env (snd (terminateAllSnaps h))) = idMap (env h).
Proof.
  unfold terminateAllSnaps, bind, gets.
  pose proof (for_of_terminate_idMap (jobs_keys (jobs (svc h))) h) as H1.
  by destruct (for_of _ terminate h) as [[[]|e] h1].
Qed.

Lemma terminateSnap_idMap (sn : string) (h : Host) :
  idMap (env (snd (terminateSnap sn h))) = idMap (env h).
Proof.
  unfold terminateSnap, bind, gets.
  destruct (truthy_string _); [apply terminate_idMap | done].
Qed.

Lemma files_same (n : string) (h h' : Host) (r : Result Progress) :
  idMap (env h') = idMap (env h) →
  match r with Ok (Await t) => awaited_request t = None | _ => True end →
  files n h (r, h').
Proof.
  intros Hsame Hr. split; cbn [fst snd]; [by rewrite Hsame |].
  destruct r as [[t | v] | e]; [| done..]. by rewrite Hr.
Qed.

Lemma files_sync (n : string) (r : Result unit * Host) (h : Host) :
  idMap (env (snd r)) = idMap (env h) →
  files n h (match fst r with
             | Ok _ => Ok (Return JUndefined)
             | Thrown e => Thrown e
             end, snd r).
Proof. intros H. apply files_same; [done | by destruct (fst r)]. Qed.

Lemma files_sent (n j : string) (h h' : Host) (t : Task) :
  idMap (env h') = register j n (idMap (env h)) →
  awaited_request t = Some (j, n) →
  files n h (Ok (Await t), h').
Proof.
  intros Hsame Ht. split; cbn [fst snd]; rewrite Hsame.
  - intros j' i'. apply registered_mono.
  - intros j' i'. rewrite Ht. intros [= <- <-]. split; [done |].
    apply registered_register.
Qed.

Lemma executeSnap_files (d : SnapData) (n : string) (h : Host) :
  files n h (executeSnap d n h).
Proof.
  unfold executeSnap, bind, gets.
  destruct (snapToJobMap (svc h) !! snapId d); by apply files_same.
Qed.

Lemma _init_loaded_files (d : SnapData) (j : string) (t : nat)
    (faults : bool * bool * bool) (n : string) (h : Host) :
  files n h (_init_loaded d j t faults n h).
Proof. rewrite _init_loaded_run. by apply (files_sent n j). Qed.

Lemma _pollForJobStatus_idMap (sn : string) (h : Host) :
  idMap (env (snd (_pollForJobStatus sn h))) = idMap (env h).
Proof.
  by destruct (_pollForJobStatus_run sn h) as [[e ->] | (_ & j & _ & ->)].
Qed.

Lemma resume_files (t : Task) (response : JsValue) (n : string) (h : Host) :
  files n h (resume t response n h).
Proof.
  destruct t as [d j tm | d j i | d j i | sn j tm i | j i]; cbn [resume].
  - by apply files_same.
  - unfold executeSnap_spawned. destruct (_command_result response);
      [| by apply files_same].
    unfold _mapSnapAndJob, request. cbn [bind modify try_catch ret].
    unfold try_catch, bind. rewrite _command_send_run. proj.
    destruct (jobs_get (jobs (svc h)) j); [by apply (files_sent n j) |].
    set (h1 := on_svc _ _).
    pose proof (terminate_idMap j h1) as H1.
    destruct (terminate j h1) as [[[]|e] h2]; by apply files_same.
  - unfold executeSnap_answered. destruct (_command_result response).
    + unfold setupSnapProvider. cbn [bind modify]. unfold bind.
      set (h1 := on_env _ h).
      pose proof (_pollForJobStatus_idMap (snapId d) h1) as H1.
      destruct (_pollForJobStatus (snapId d) h1) as [[[]|e] h2];
        by apply files_same.
    + unfold bind. pose proof (terminate_idMap j h) as H1.
      destruct (terminate j h) as [[[]|e'] h2]; by apply files_same.
  - unfold poll_answered. destruct (_command_result response);
      [| by apply files_same].
    cbn [bind clearTimeout modify]. unfold bind, try_catch.
    set (h1 := on_env _ h).
    pose proof (_pollForJobStatus_idMap sn h1) as H1.
    destruct (_pollForJobStatus sn h1) as [[[]|e] h2]; by apply files_same.
  - unfold rpcHook_answered. destruct (_command_result response);
      by apply files_same.
Qed.

Lemma poll_fired_files (sn j n : string) (h : Host) :
  files n h (poll_fired sn j n h).
Proof.
  unfold poll_fired, request. cbn [bind gets setTimeout ret].
  unfold try_catch, bind. rewrite _command_send_run. proj.
  destruct (jobs_get (jobs (svc h)) j);
    [by apply (files_sent n j) | by apply files_same].
Qed.

Lemma rpcHook_files (hook : SnapRpcHook) (origin : string) (rq : JsValue)
    (n : string) (h : Host) :
  files n h (rpcHook hook origin rq n h).
Proof.
  unfold rpcHook, request, bind. rewrite _command_send_run.
  destruct (jobs_get (jobs (svc h)) (hook_jobId hook));
    [by apply (files_sent n (hook_jobId hook)) | by apply files_same].
Qed.

Lemma emit_data_idMap (j : string) (data : JsValue) (h : Host) :
  idMap (env (snd (emit_data j data h))) = idMap (env h).
Proof.
  unfold emit_data, errorHandler, bind, gets, modify, publish, ret, throw.
  repeat case_match; unfold modify in *; simplify_eq; cbn; auto.
Qed.

Lemma Filed_Some (σ σ' : System) : Filed σ → Some σ = Some σ' → Filed σ'.
Proof. by intros HF [= <-]. Qed.

Lemma Filed_confirm (t : Task) (data : JsValue) (σ : System) :
  Filed σ → Filed (confirm t data σ).
Proof. intros HF. rewrite confirmed_confirm. exact HF. Qed.

Lemma take_Filed (f : Task → bool) (t : Task) (rest p : list Task) idm m :
  take f p = Some (t, rest) → Filed_at idm p m → Filed_at idm rest m.
Proof.
  intros Htake HF. apply take_perm in Htake as [Hp _].
  eapply Filed_drop, Filed_perm; eauto.
Qed.

Lemma Filed_same idm (p : list Task) m n :
  Filed_at idm p m → Filed_at idm p (n :: m).
Proof. by apply Filed_later. Qed.

(** What [arrive] leaves of the filed requests. *)
Lemma arrive_Filed (j : string) (data : JsValue) (h h' : Host) (a : Arrival)
    (p : list Task) m :
  arrive j data h = Some (a, h') →
  match a with
  | Answered key => ∀ x, x ∈ p → awaits_response j key x = false
  | _ => True
  end →
  Filed_at (idMap (env h)) p m → Filed_at (idMap (env h')) p m.
Proof.
  intros Harr Hnone HF. apply arrive_effect in Harr as (_ & id_ & _ & Ha).
  rewrite <- (emit_data_idMap j data h) in HF.
  destruct a as [| key |].
  - by destruct Ha as (_ & ->).
  - destruct Ha as (_ & _ & _ & ->). proj. by apply Filed_unregister.
  - by destruct Ha as (_ & _ & ->).
Qed.

(** The requests of the pending tasks stay filed along every turn. *)
Lemma step_Filed (ev : Event) (n : string) (σ σ' : System) :
  Distinct σ → Filed σ → step ev n σ = Some σ' → Filed σ'.
Proof.
  intros HD HF. unfold step. case_decide as Hn; [done |].
  set (σ1 := mkSystem (host σ) (pending σ) (n :: minted σ) (confirmed σ)
                      (results σ)).
  cbn zeta. fold σ1.
  destruct ev as [d | sn | j | | sn origin rq | j faults | j data | t].
  - apply Filed_Some.
    apply (Filed_settle _ _ σ1 n (host σ) (minted σ));
      auto using executeSnap_files.
  - apply Filed_Some.
    apply (Filed_settle _ _ σ1 n (host σ) (minted σ));
      auto using files_sync, terminateSnap_idMap.
  - apply Filed_Some.
    apply (Filed_settle _ _ σ1 n (host σ) (minted σ));
      auto using files_sync, terminate_idMap.
  - apply Filed_Some.
    apply (Filed_settle _ _ σ1 n (host σ) (minted σ));
      auto using files_sync, terminateAllSnaps_idMap.
  - destruct (getRpcMessageHandler sn (host σ1)); [| done].
    apply Filed_Some.
    apply (Filed_settle _ _ σ1 n (host σ) (minted σ));
      auto using rpcHook_files.
  - destruct (take (is_creating j) (pending σ1)) as [[[d j' tm | | | |] rest]|]
      eqn:Htake; try done.
    apply Filed_Some.
    apply (Filed_settle _ _ (with_pending rest σ1) n (host σ) (minted σ));
      eauto using _init_loaded_files, take_Filed.
  - destruct (arrive j data (host σ1)) as [[arrival h1]|] eqn:Harr; [| done].
    destruct arrival as [| key |].
    + apply Filed_Some. unfold Filed. proj. apply Filed_same.
      by apply (arrive_Filed j data (host σ) h1 Notified).
    + destruct (take (awaits_response j key) (pending σ1)) as [[t rest]|]
        eqn:Htake.
      * destruct (handled data) as [response|]; [| done].
        apply Filed_Some, Filed_confirm.
        apply (Filed_settle _ _ (with_pending rest σ1) n h1 (minted σ));
          auto using resume_files.
        apply (arrive_Filed j data (host σ) h1 (Answered key)); [done | |].
        -- by apply (take_awaits_only j key (pending σ) t rest (d_ids HD)).
        -- by eapply take_Filed.
      * apply Filed_Some. unfold Filed. proj. apply Filed_same.
        apply (arrive_Filed j data (host σ) h1 (Answered key)); [done | | done].
        by apply take_None_inv.
    + apply Filed_Some. unfold Filed. proj. apply Filed_same.
      by apply (arrive_Filed j data (host σ) h1 Failed).
  - destruct (timers (env (host σ1)) !! t) as [[callback delay]|]; [| done].
    set (h1 := on_env (upd_timers (delete t)) (host σ1)).
    assert (HF1 : Filed (with_host h1 σ1)).
    { unfold Filed. proj. by apply Filed_same. }
    destruct callback as [j | sn j |].
    + destruct (take (is_creating j) (pending σ1)) as [[tk rest]|] eqn:Htake;
        [| apply Filed_Some; exact HF1].
      apply Filed_Some.
      apply (Filed_settle _ _ (with_pending rest σ1) n h1 (minted σ));
        eauto using take_Filed.
      by apply files_same.
    + apply Filed_Some.
      apply (Filed_settle _ _ σ1 n h1 (minted σ)); auto using poll_fired_files.
    + destruct (take (races_with t) (pending σ1)) as [[tk rest]|] eqn:Htake;
        [| apply Filed_Some; exact HF1].
      destruct tk; try (apply Filed_Some; exact HF1).
      apply Filed_Some.
      apply (Filed_settle _ _ (with_pending rest σ1) n h1 (minted σ));
        eauto using take_Filed.
      by apply files_same.
Qed.

Lemma start_Filed (a : Args) : Filed (start a).
Proof. split; cbn; [left |]. intros j i H. inversion H. Qed.

Lemma run_Filed (evs : list (Event * string)) (σ σ' : System) :
  Distinct σ → Filed σ → Service.run evs σ = Some σ' → Filed σ'.
Proof.
  revert σ. induction evs as [|[ev n] evs IH]; intros σ HD HF; cbn.
  - by intros [= <-].
  - destruct (step ev n σ) as [σ1|] eqn:Hstep; [| done].
    eauto using step_Filed, step_Distinct.
Qed.

Lemma reachable_Filed (a : Args) (σ : System) : reachable a σ → Filed σ.
Proof.
  intros [evs Hrun]. eauto using run_Filed, start_Filed, start_Distinct.
Qed.

(** *** What every reachable state satisfies *)

Lemma sysA_reachable : reachable default_Args sysA.
Proof. exists runsA. vm_compute. reflexivity. Qed.

(** C2, amended: in every state the service reaches, a hook is installed
    only for a snap and job whose [executeSnap] command the isolate has
    answered with a result, and every snap that has a hook or is in the
    mapping is mapped, in both directions, to a job that is in the jobs map
    and has its streams (the mapping itself is written once the job is
    spawned, before the command is sent); [terminate] of a mapped job
    destroys the streams of the job, unless their [destroy] throws, and
    removes mapping, hook and job record in the same turn. So no state
    between turns has a hook for an unconfirmed snap, or a mapping or a hook
    for a snap whose job has been terminated. *)
Theorem hooks_only_after_confirmation (a : Args) (σ : System) :
  reachable a σ →
  (∀ sn hk, _snapRpcHooks (svc (host σ)) !! sn = Some hk →
            hook_snapId hk = sn ∧ (sn, hook_jobId hk) ∈ confirmed σ)
  ∧ (∀ sn, is_Some (_snapRpcHooks (svc (host σ)) !! sn)
           ∨ is_Some (snapToJobMap (svc (host σ)) !! sn) →
           ∃ j, snapToJobMap (svc (host σ)) !! sn = Some j
                ∧ jobToSnapMap (svc (host σ)) !! j = Some sn
                ∧ is_Some (jobs_get (jobs (svc (host σ))) j)
                ∧ is_Some (heap (env (host σ)) !! j))
  ∧ (∀ j sn, jobToSnapMap (svc (host σ)) !! j = Some sn → sn ≠ "" →
             ∃ h' js', terminate j (host σ) = (Ok tt, h')
                       ∧ heap (env h') !! j = Some js' ∧ all_gone js'
                       ∧ snapToJobMap (svc h') !! sn = None
                       ∧ jobToSnapMap (svc h') !! j = None
                       ∧ _snapRpcHooks (svc h') !! sn = None
                       ∧ jobs_get (jobs (svc h')) j = None)
  ∧ (∀ d j pong v n,
       is_Some (jobs_get (jobs (svc (host σ))) j) →
       _command_result pong = Ok v →
       let r := executeSnap_spawned d j pong n (host σ) in
       fst r = Ok (Await (ExecuteCommand d j n))
       ∧ snapToJobMap (svc (snd r)) !! snapId d = Some j
       ∧ _snapRpcHooks (svc (snd r)) = _snapRpcHooks (svc (host σ))).
Proof.
  intros Hreach. pose proof (reachable_Inv a σ Hreach) as HI.
  split; [exact (inv_hooks HI) |].
  split; [| split].
  - intros sn Hsn.
    assert (Hmapped : is_Some (snapToJobMap (svc (host σ)) !! sn))
      by (destruct Hsn; [by apply (inv_hooked HI) | done]).
    destruct Hmapped as [j Hj]. pose proof (wf_snaps (inv_wf HI) sn j Hj) as Hback.
    pose proof (wf_jobs (inv_wf HI) j sn Hback) as Hk.
    pose proof (inv_streams HI j Hk) as Hstreams. by exists j.
  - intros j sn Hj Hne.
    destruct (wf_jobs (inv_wf HI) j sn Hj) as [jw Hjw].
    destruct (wf_record (inv_wf HI) j jw Hjw) as [Hid Hstreams].
    destruct (inv_streams HI j) as [js Hjs]; [eauto |].
    exists (terminated j jw sn (host σ)), (destroy_streams js).
    split; [by apply terminate_ok |].
    rewrite terminated_svc, terminated_env, Hstreams. cbn.
    split; [| split; [apply destroy_streams_gone |]].
    { destruct (_timeoutForUnresponsiveMap (svc (host σ)) !! sn); cbn;
        by rewrite lookup_alter_eq, Hjs. }
    split; [apply lookup_delete_eq |]. split; [apply lookup_delete_eq |].
    split; [apply lookup_delete_eq | apply jobs_get_delete_eq].
  - intros d j pong v n Hknown Hpong r. subst r.
    rewrite (executeSnap_spawned_run d j pong n (host σ) v) by done.
    cbn. split; [done |]. split; [apply lookup_insert_eq | done].
Qed.

Lemma hooks_only_after_confirmation_witness :
  ("A", "j1") ∈ confirmed sysA
  ∧ (∃ j, snapToJobMap (svc (host sysA)) !! "A" = Some j
          ∧ jobToSnapMap (svc (host sysA)) !! j = Some "A"
          ∧ is_Some (jobs_get (jobs (svc (host sysA))) j)
          ∧ is_Some (heap (env (host sysA)) !! j))
  ∧ ∃ h' js', terminate "j1" (host sysA) = (Ok tt, h')
              ∧ heap (env h') !! "j1" = Some js' ∧ all_gone js'
              ∧ snapToJobMap (svc h') !! "A" = None
              ∧ jobToSnapMap (svc h') !! "j1" = None
              ∧ _snapRpcHooks (svc h') !! "A" = None
              ∧ jobs_get (jobs (svc h')) "j1" = None.
Proof.
  destruct (hooks_only_after_confirmation default_Args sysA sysA_reachable)
    as (Hconfirmed & Hmapped & Hterminate & _).
  split; [| split].
  - apply (Hconfirmed "A" (mkSnapRpcHook "A" "j1")). vm_compute. reflexivity.
  - apply Hmapped. left. exists (mkSnapRpcHook "A" "j1"). vm_compute. reflexivity.
  - apply Hterminate; [vm_compute; reflexivity | discriminate].
Defined.

(** C2 as stated fails: once the first ping is answered the snap is in
    the mapping, while the isolate has not yet answered [executeSnap]; and
    when a message comes with an id that no request of the job is filed
    under, the stream middleware of the job fails and its command substream
    is destroyed, while the snap keeps its mapping and its hook. *)
Lemma mapped_before_confirmation :
  (∃ σ, Service.run spawnsA (start default_Args) = Some σ
        ∧ pending σ = [ExecuteCommand snapA "j1" "c1"]
        ∧ confirmed σ = []
        ∧ snapToJobMap (svc (host σ)) !! "A" = Some "j1"
        ∧ jobToSnapMap (svc (host σ)) !! "j1" = Some "A"
        ∧ _snapRpcHooks (svc (host σ)) !! "A" = None)
  ∧ (∃ σ, Service.run (runsA ++ [(CommandData "j1" (ok_reply "zz"), "q1")])
                      (start default_Args) = Some σ
          ∧ (destroyed ∘ command <$> heap (env (host σ)) !! "j1") = Some true
          ∧ snapToJobMap (svc (host σ)) !! "A" = Some "j1"
          ∧ jobToSnapMap (svc (host σ)) !! "j1" = Some "A"
          ∧ _snapRpcHooks (svc (host σ)) !! "A" = Some (mkSnapRpcHook "A" "j1")
          ∧ jobs_get (jobs (svc (host σ))) "j1" = Some (mkEnvMetadata "j1" "j1")).
Proof.
  split; (eexists; split; [vm_compute; reflexivity |]); vm_compute; repeat split.
Qed.

(** C5 as stated fails: while [_init] awaits the first ping the job is in
    the jobs map and [terminate] throws for it. *)
Lemma terminate_throws_while_spawning :
  ∃ σ, Service.run [(Call_executeSnap snapA, "j1");
                    (IframeLoad "j1" sound, "p1")] (start default_Args)
       = Some σ
       ∧ jobs_get (jobs (svc (host σ))) "j1" = Some (mkEnvMetadata "j1" "j1")
       ∧ terminate "j1" (host σ)
         = (Thrown (JErr ("Failed to find a snap for job with id "
                          +:+ quoted "j1")), host σ).
Proof.
  eexists. split; [vm_compute; reflexivity |]. vm_compute. repeat split.
Qed.

Lemma sysA_wf : wf (host sysA).
Proof. exact (inv_wf (reachable_Inv _ _ sysA_reachable)). Qed.

Lemma terminate_known_job_witness :
  (∃ h', terminate "j1" (host sysA) = (Ok tt, h')
         ∧ ("j1" ∉ document (env h'))
         ∧ jobs_get (jobs (svc h')) "j1" = None
         ∧ _snapRpcHooks (svc h') !! "A" = None)
  ∧ (∃ h', terminateAllSnaps (host sysA) = (Ok tt, h')
           ∧ _snapRpcHooks (svc h') = ∅ ∧ snapToJobMap (svc h') = ∅
           ∧ jobToSnapMap (svc h') = ∅ ∧ jobs (svc h') = []
           ∧ _timeoutForUnresponsiveMap (svc h') = ∅).
Proof.
  destruct (terminate_known_job (host sysA) sysA_wf) as (Hone & _ & Hall).
  split.
  - destruct (Hone "j1" (mkEnvMetadata "j1" "j1") "A") as (h' & Hrun & H);
      [vm_compute; reflexivity.. | discriminate |].
    exists h'. split; [exact Hrun |]. tauto.
  - apply Hall. intros j jw Hj. exists "A".
    assert (j = "j1") as ->.
    { assert (Hjobs : jobs (svc (host sysA)) = [("j1", mkEnvMetadata "j1" "j1")])
        by (vm_compute; reflexivity).
      rewrite Hjobs in Hj. cbn [jobs_get] in Hj.
      destruct (String.eqb_spec "j1" j); [done | discriminate]. }
    split; [vm_compute; reflexivity | discriminate].
Defined.

Lemma seqA_sequential : sequential default_Args seqA.
Proof.
  apply seq_executeSnap; [apply seq_start | discriminate.. | reflexivity].
Qed.

Lemma sequential_calls_keep_maps_paired_witness :
  (is_Some (_snapRpcHooks (svc seqA) !! "A")
   ↔ is_Some (snapToJobMap (svc seqA) !! "A"))
  ∧ (snapToJobMap (svc seqA) !! "A" = Some "j1"
     ↔ jobToSnapMap (svc seqA) !! "j1" = Some "A")
  ∧ size (snapToJobMap (svc seqA)) = size (_snapRpcHooks (svc seqA))
  ∧ size (_snapRpcHooks (svc seqA)) = 1%nat.
Proof.
  destruct (sequential_calls_keep_maps_paired default_Args seqA seqA_sequential)
    as (Hhooks & Hmaps & Hsize).
  split; [apply Hhooks |]. split; [apply Hmaps |]. split; [exact Hsize |].
  vm_compute. reflexivity.
Defined.

(** C3 as stated fails: while [executeSnap] awaits the answer of the
    isolate the snap is in the mapping and has no hook. *)
Lemma mapped_without_hook_while_executing :
  ∃ w, @play demo_Compartment
         [(HostTurn (Call_executeSnap snapA), "j1");
          (HostTurn (IframeLoad "j1" sound), "p1");
          (Deliver, "c1")] (boot default_Args)
       = Some w
       ∧ inflight w = [("j1", ok_reply "c1")]
       ∧ snapToJobMap (svc (host (sys w))) !! "A" = Some "j1"
       ∧ _snapRpcHooks (svc (host (sys w))) !! "A" = None
       ∧ size (snapToJobMap (svc (host (sys w)))) = 1%nat
       ∧ size (_snapRpcHooks (svc (host (sys w)))) = 0%nat.
Proof.
  eexists. split; [vm_compute; reflexivity |]. vm_compute. repeat split.
Qed.

(** *** The liveness loop *)

Lemma poll_fired_run (sn j n : string) (h : Host) :
  is_Some (jobs_get (jobs (svc h)) j) →
  poll_fired sn j n h
  = (Ok (Await (JobStatus sn j (nextTimer (env h)) n)),
     sent_to j (request n "ping" [("params", JArr [])])
       (on_env (λ p, upd_nextTimer S
                  (upd_timers (insert (nextTimer (env h))
                                 (PingTimedOut, _unresponsiveTimeout (svc h)))
                              p)) h)).
Proof.
  intros [jw Hjw]. unfold poll_fired, request.
  cbn [bind gets setTimeout ret]. unfold try_catch, bind.
  rewrite _command_send_run. proj. by rewrite Hjw.
Qed.

Lemma poll_answered_ok (sn j : string) (timeout : nat) (response v : JsValue)
    (h : Host) :
  snapToJobMap (svc h) !! sn = Some j → j ≠ "" →
  _command_result response = Ok v →
  poll_answered sn timeout response h
  = (Ok (Return JUndefined),
     polled sn j (on_env (upd_timers (delete timeout)) h)).
Proof.
  intros Hsn Hj Hok. unfold poll_answered. rewrite Hok.
  cbn [bind clearTimeout modify]. unfold bind, try_catch.
  by rewrite (_pollForJobStatus_ok sn j).
Qed.

Lemma poll_answered_failed (sn : string) (timeout : nat) (response e : JsValue)
    (h : Host) :
  _command_result response = Thrown e →
  poll_answered sn timeout response h
  = (Ok (Return JUndefined),
     on_env (upd_published (λ l, l ++ [Unresponsive sn])) h).
Proof. intros Hfail. unfold poll_answered. by rewrite Hfail. Qed.

Lemma emit_data_with_id (j : string) (data id_ : JsValue) (h : Host) :
  get data "id" = Some id_ → is_nullish id_ = false →
  snd (emit_data j data h) = h.
Proof.
  intros Hid Hnn. unfold emit_data, errorHandler, bind, gets.
  destruct (heap (env h) !! j) as [js|]; [| done].
  destruct (errorHandler_on (command js)); [| done].
  rewrite Hid. destruct (get data "error") as [error|]; [| done].
  by rewrite Hnn, andb_false_r.
Qed.

(** A message with a string for its id, on an open command substream: the
    listener lets it pass, and the stream middleware changes neither the
    service, nor the timers, nor what is published. *)
Lemma arrive_with_id (j : string) (data : JsValue) (i : string) (h : Host)
    (js : JobStreams) :
  heap (env h) !! j = Some js → destroyed (command js) = false →
  get data "id" = Some (JStr i) →
  arrive j data h
  = Some (if negb (truthy (JStr i)) then (Notified, h)
          else if registered j i (idMap (env h))
               then (Answered i, on_env (upd_idMap (unregister j i)) h)
               else (Failed, on_env (upd_heap (alter fail_command j)) h)).
Proof.
  intros Hjs Hopen Hid. unfold arrive. rewrite Hjs, Hid, Hopen. cbn zeta.
  rewrite (emit_data_with_id j data (JStr i)) by done. cbn [toString].
  destruct (negb (truthy (JStr i))); [done |].
  by destruct (registered j i (idMap (env h))).
Qed.

Lemma arrive_quiet (j : string) (data : JsValue) (i : string) (h : Host)
    (js : JobStreams) :
  heap (env h) !! j = Some js → destroyed (command js) = false →
  get data "id" = Some (JStr i) →
  ∃ a h', arrive j data h = Some (a, h')
          ∧ svc h' = svc h ∧ published (env h') = published (env h)
          ∧ timers (env h') = timers (env h)
          ∧ ∀ key, a = Answered key → key = i.
Proof.
  intros Hjs Hopen Hid. rewrite (arrive_with_id j data i h js) by done.
  destruct (negb (truthy (JStr i))); [| destruct (registered j i _)];
    eexists _, _; (split; [reflexivity |]); repeat split; try done;
    by intros key [= <-].
Qed.

(** What [_command] makes of a response whose error the engine has
    serialized: it throws an error with the message of the serialized one. *)
Lemma _command_result_serialized (error : JsValue) :
  _command_result (JObj [("error", serializeError error)])
  = Thrown (newError (default JUndefined
                        (get (serializeError error) "message"))).
Proof.
  unfold _command_result. cbn [get assoc String.eqb Ascii.eqb Bool.eqb].
  unfold serializeError. by destruct (_ && _).
Qed.

(** What the engine makes of a reply that carries an error. *)
Lemma handled_failed (data id_ e : JsValue) :
  get data "id" = Some id_ → _command_result data = Thrown e →
  ∃ response e', handled data = Some response
                 ∧ _command_result response = Thrown e'.
Proof.
  intros Hid. unfold _command_result at 1. unfold handled.
  destruct (get data "error") as [error|] eqn:Herr; [| by destruct data].
  cbn [default from_option Datatypes.id].
  destruct (truthy error); [| done]. intros _. eexists _, _. split; [done |].
  apply _command_result_serialized.
Qed.

(** The race of [_getJobStatus] settles once: when the timeout wins, the
    late answer to the ping changes nothing. *)
Lemma race_timeout_first (σ : System) (sn j : string) (t : nat) (i : string)
    (rest : list Task) (delay : Z) (js : JobStreams) (data : JsValue)
    (n1 n2 : string) :
  take (races_with t) (pending σ) = Some (JobStatus sn j t i, rest) →
  take (awaits_response j i) rest = None →
  timers (env (host σ)) !! t = Some (PingTimedOut, delay) →
  heap (env (host σ)) !! j = Some js → destroyed (command js) = false →
  get data "id" = Some (JStr i) →
  n1 ∉ minted σ → n2 ∉ n1 :: minted σ →
  ∃ σ1 σ2,
    step (TimerFires t) n1 σ = Some σ1
    ∧ step (CommandData j data) n2 σ1 = Some σ2
    ∧ published (env (host σ1)) = published (env (host σ)) ++ [Unresponsive sn]
    ∧ published (env (host σ2)) = published (env (host σ1))
    ∧ timers (env (host σ2)) = delete t (timers (env (host σ)))
    ∧ svc (host σ2) = svc (host σ)
    ∧ pending σ2 = rest.
Proof.
  intros Hrace Hlate Ht Hjs Hopen Hid Hn1 Hn2.
  set (σ1 := settle (Of_poll sn)
               (poll_timed_out sn (on_env (upd_timers (delete t)) (host σ)))
               (with_pending rest
                  (mkSystem (host σ) (pending σ) (n1 :: minted σ)
                            (confirmed σ) (results σ)))).
  assert (H1 : step (TimerFires t) n1 σ = Some σ1).
  { unfold step. rewrite decide_False by done. cbn zeta. proj.
    rewrite Ht, Hrace. reflexivity. }
  destruct (arrive_quiet j data i (host σ1) js Hjs Hopen Hid)
    as (a & h' & Harr & Hsvc & Hpub & Htm & Hkey).
  exists σ1.
  assert (H2 : step (CommandData j data) n2 σ1
               = Some (with_host h'
                         (mkSystem (host σ1) (pending σ1) (n2 :: minted σ1)
                                   (confirmed σ1) (results σ1)))).
  { unfold step. rewrite decide_False by done. cbn zeta. proj.
    rewrite Harr. destruct a as [| key |]; [done | | done].
    rewrite (Hkey key eq_refl).
    change (pending σ1) with rest. by rewrite Hlate. }
  eexists. split; [exact H1 |]. split; [exact H2 |]. proj.
  rewrite Hpub, Htm, Hsvc. by cbn.
Qed.

(** When a failed answer wins, the late timeout changes nothing. *)
Lemma race_failure_first (σ : System) (sn j : string) (t : nat) (i : string)
    (rest : list Task) (delay : Z) (js : JobStreams) (data e : JsValue)
    (n1 n2 : string) :
  take (awaits_response j i) (pending σ) = Some (JobStatus sn j t i, rest) →
  take (races_with t) rest = None →
  i ≠ "" → registered j i (idMap (env (host σ))) = true →
  timers (env (host σ)) !! t = Some (PingTimedOut, delay) →
  heap (env (host σ)) !! j = Some js → destroyed (command js) = false →
  get data "id" = Some (JStr i) → _command_result data = Thrown e →
  n1 ∉ minted σ → n2 ∉ n1 :: minted σ →
  ∃ σ1 σ2,
    step (CommandData j data) n1 σ = Some σ1
    ∧ step (TimerFires t) n2 σ1 = Some σ2
    ∧ published (env (host σ1)) = published (env (host σ)) ++ [Unresponsive sn]
    ∧ published (env (host σ2)) = published (env (host σ1))
    ∧ timers (env (host σ2)) = delete t (timers (env (host σ)))
    ∧ svc (host σ2) = svc (host σ)
    ∧ pending σ2 = rest.
Proof.
  intros Hanswer Hlate Hi Hfiled Ht Hjs Hopen Hid Hfail Hn1 Hn2.
  destruct (handled_failed data (JStr i) e Hid Hfail)
    as (response & e' & Hhandled & Hfail').
  eexists _, _. split.
  { unfold step. rewrite decide_False by done. cbn zeta. proj.
    rewrite (arrive_with_id j data i (host σ) js) by done.
    rewrite (truthy_JStr i Hi), Hfiled. cbn [negb]. proj.
    rewrite Hanswer, Hhandled. cbn [resume].
    rewrite (poll_answered_failed sn t response e') by done.
    reflexivity. }
  split.
  { unfold step. rewrite decide_False by done. cbn zeta.
    cbn [confirm settle host pending minted with_pending confirmed results
         call_of].
    proj. rewrite Ht, Hlate. reflexivity. }
  cbn. done.
Qed.

(** C7: after a successful [executeSnap] the timer of the first poll is set
    with the delay [unresponsivePollingInterval] (5000 ms by default) and
    its handle is stored for the snap; when a poll timer fires, the job is
    pinged and a timeout of [unresponsiveTimeout] (30000 ms by default) is
    armed, the two racing; an answered ping clears the timeout and
    schedules exactly one next poll, publishing nothing; a failed ping, or
    the timeout, publishes [ServiceMessenger:unresponsive] with the snapId
    once and schedules no timer, and whichever of the two comes second
    changes nothing more; [terminate] cancels the stored timer and forgets
    its handle. *)
Theorem liveness_loop (h : Host) (sn j : string) (jw : EnvMetadata) :
  snapToJobMap (svc h) !! sn = Some j → j ≠ "" →
  jobToSnapMap (svc h) !! j = Some sn → sn ≠ "" →
  jobs_get (jobs (svc h)) j = Some jw →
  (∀ window url,
     _unresponsivePollingInterval (constructor (mkArgs window url None None))
     = 5000
     ∧ _unresponsiveTimeout (constructor (mkArgs window url None None))
       = 30000)
  ∧ (∀ d j0 answer v,
       snapId d = sn → _command_result answer = Ok v →
       let h' := snd (executeSnap_answered d j0 answer h) in
       timers (env h')
       = <[nextTimer (env h) :=
             (PollCallback sn j, _unresponsivePollingInterval (svc h))]>
           (timers (env h))
       ∧ _timeoutForUnresponsiveMap (svc h') !! sn = Some (nextTimer (env h)))
  ∧ (∀ n,
       let r := poll_fired sn j n h in
       fst r = Ok (Await (JobStatus sn j (nextTimer (env h)) n))
       ∧ timers (env (snd r))
         = <[nextTimer (env h) := (PingTimedOut, _unresponsiveTimeout (svc h))]>
             (timers (env h))
       ∧ sent (env (snd r))
         = sent (env h) ++ [(j, request n "ping" [("params", JArr [])])]
       ∧ published (env (snd r)) = published (env h))
  ∧ (∀ timeout response v,
       _command_result response = Ok v →
       let h' := snd (poll_answered sn timeout response h) in
       timers (env h')
       = <[nextTimer (env h) :=
             (PollCallback sn j, _unresponsivePollingInterval (svc h))]>
           (delete timeout (timers (env h)))
       ∧ _timeoutForUnresponsiveMap (svc h') !! sn = Some (nextTimer (env h))
       ∧ published (env h') = published (env h))
  ∧ (∀ timeout response e,
       _command_result response = Thrown e →
       let h' := snd (poll_answered sn timeout response h) in
       published (env h') = published (env h) ++ [Unresponsive sn]
       ∧ timers (env h') = timers (env h) ∧ svc h' = svc h)
  ∧ (let h' := snd (poll_timed_out sn h) in
     published (env h') = published (env h) ++ [Unresponsive sn]
     ∧ timers (env h') = timers (env h) ∧ svc h' = svc h)
  ∧ (∀ t, _timeoutForUnresponsiveMap (svc h) !! sn = Some t →
          let h' := snd (terminate j h) in
          fst (terminate j h) = Ok tt
          ∧ timers (env h') !! t = None
          ∧ _timeoutForUnresponsiveMap (svc h') !! sn = None)
  ∧ (∀ a σ t i delay js data n1 n2,
       reachable a σ → host σ = h → JobStatus sn j t i ∈ pending σ →
       timers (env h) !! t = Some (PingTimedOut, delay) →
       heap (env h) !! j = Some js → destroyed (command js) = false →
       get data "id" = Some (JStr i) →
       n1 ∉ minted σ → n2 ∉ n1 :: minted σ →
       ∃ σ1 σ2,
         step (TimerFires t) n1 σ = Some σ1
         ∧ step (CommandData j data) n2 σ1 = Some σ2
         ∧ published (env (host σ1)) = published (env h) ++ [Unresponsive sn]
         ∧ published (env (host σ2)) = published (env (host σ1))
         ∧ timers (env (host σ2)) = delete t (timers (env h))
         ∧ svc (host σ2) = svc h
         ∧ pending σ ≡ₚ JobStatus sn j t i :: pending σ2)
  ∧ (∀ a σ t i delay js data e n1 n2,
       reachable a σ → host σ = h → JobStatus sn j t i ∈ pending σ →
       timers (env h) !! t = Some (PingTimedOut, delay) →
       heap (env h) !! j = Some js → destroyed (command js) = false →
       get data "id" = Some (JStr i) → _command_result data = Thrown e →
       n1 ∉ minted σ → n2 ∉ n1 :: minted σ →
       ∃ σ1 σ2,
         step (CommandData j data) n1 σ = Some σ1
         ∧ step (TimerFires t) n2 σ1 = Some σ2
         ∧ published (env (host σ1)) = published (env h) ++ [Unresponsive sn]
         ∧ published (env (host σ2)) = published (env (host σ1))
         ∧ timers (env (host σ2)) = delete t (timers (env h))
         ∧ svc (host σ2) = svc h
         ∧ pending σ ≡ₚ JobStatus sn j t i :: pending σ2).
Proof.
  intros Hsn Hj Hjs Hne Hjw.
  split; [done |].
  split; [| split; [| split; [| split; [| split; [| split; [| split]]]]]].
  - intros d j0 answer v <- Hok h'. subst h'.
    rewrite (executeSnap_answered_run d j0 j answer h v) by done.
    cbn. split; [done | apply lookup_insert_eq].
  - intros n r. subst r. rewrite poll_fired_run by eauto. by cbn.
  - intros timeout response v Hok h'. subst h'.
    rewrite (poll_answered_ok sn j timeout response v) by done.
    cbn. split; [done |]. split; [apply lookup_insert_eq | done].
  - intros timeout response e Hfail h'. subst h'.
    by rewrite (poll_answered_failed sn timeout response e).
  - by cbn.
  - intros t Ht h'. subst h'. rewrite (terminate_ok j jw sn) by done.
    cbn [fst snd]. rewrite terminated_svc, terminated_env, Ht. cbn.
    split; [done |]. split; apply lookup_delete_eq.
  - intros a σ t i delay js data n1 n2 Hreach <- Hin Ht Hheap Hlive Hid Hn1 Hn2.
    destruct (race_is_unique a σ sn j t i Hreach Hin)
      as [(rest & Htake & Hlate & Hp) _].
    destruct (race_timeout_first σ sn j t i rest delay js data n1 n2)
      as (σ1 & σ2 & H1 & H2 & Hp1 & Hp2 & Ht2 & Hs2 & Hrest); try done.
    exists σ1, σ2. by rewrite Hrest.
  - intros a σ t i delay js data e n1 n2 Hreach <- Hin Ht Hheap Hlive Hid Hfail
      Hn1 Hn2.
    destruct (race_is_unique a σ sn j t i Hreach Hin)
      as [_ (rest & Htake & Hlate & Hp)].
    destruct (f_filed (reachable_Filed a σ Hreach) j i) as [Hi Hfiled].
    { apply list_elem_of_omap. by exists (JobStatus sn j t i). }
    destruct (race_failure_first σ sn j t i rest delay js data e n1 n2)
      as (σ1 & σ2 & H1 & H2 & Hp1 & Hp2 & Ht2 & Hs2 & Hrest); try done.
    exists σ1, σ2. by rewrite Hrest.
Qed.

Lemma sysP_reachable : reachable default_Args sysP.
Proof. exists (runsA ++ [(TimerFires 2, "q1")]). vm_compute. reflexivity. Qed.

Lemma sysP_pending : pending sysP = [JobStatus "A" "j1" 3 "q1"].
Proof. vm_compute. reflexivity. Qed.

Lemma sysP_fresh : ("q2" ∉ minted sysP) ∧ ("q3" ∉ "q2" :: minted sysP).
Proof. split; apply (bool_decide_unpack _); vm_compute; exact I. Qed.

Lemma liveness_loop_witness :
  (let r := poll_fired "A" "j1" "q1" (host sysA) in
   fst r = Ok (Await (JobStatus "A" "j1" 3 "q1"))
   ∧ timers (env (snd r)) !! 3%nat = Some (PingTimedOut, 30000))
  ∧ timers (env (host sysA)) !! 2%nat = Some (PollCallback "A" "j1", 5000)
  ∧ published (env (snd (poll_timed_out "A" (host sysA)))) = [Unresponsive "A"]
  ∧ timers (env (snd (terminate "j1" (host sysA)))) !! 2%nat = None
  ∧ ∃ σ1 σ2,
      step (TimerFires 3) "q2" sysP = Some σ1
      ∧ step (CommandData "j1" (ok_reply "q1")) "q3" σ1 = Some σ2
      ∧ published (env (host σ1)) = [Unresponsive "A"]
      ∧ published (env (host σ2)) = [Unresponsive "A"]
      ∧ timers (env (host σ2)) = ∅.
Proof.
  destruct (liveness_loop (host sysA) "A" "j1" (mkEnvMetadata "j1" "j1"))
    as (_ & _ & Hfired & _ & _ & Htimeout & Hterminate & _);
    [vm_compute; reflexivity | discriminate | vm_compute; reflexivity
    | discriminate | vm_compute; reflexivity |].
  destruct (liveness_loop (host sysP) "A" "j1" (mkEnvMetadata "j1" "j1"))
    as (_ & _ & _ & _ & _ & _ & _ & Hrace & _);
    [vm_compute; reflexivity | discriminate | vm_compute; reflexivity
    | discriminate | vm_compute; reflexivity |].
  split; [| split; [| split; [| split]]].
  - destruct (Hfired "q1") as (Hr & Ht & _). cbn zeta. split; [exact Hr |].
    rewrite Ht. vm_compute. reflexivity.
  - vm_compute. reflexivity.
  - destruct Htimeout as (Hp & _). rewrite Hp. vm_compute. reflexivity.
  - destruct (Hterminate 2%nat) as (_ & Hgone & _);
      [vm_compute; reflexivity | exact Hgone].
  - destruct (Hrace default_Args sysP 3%nat "q1" 30000
                (mkJobStreams (mkStream false false true)
                              (Some (createStream false)) (createStream false))
                (ok_reply "q1") "q2" "q3")
      as (σ1 & σ2 & H1 & H2 & Hp1 & Hp2 & Ht2 & _ & _);
      [exact sysP_reachable | reflexivity
      | rewrite sysP_pending; left
      | vm_compute; reflexivity | vm_compute; reflexivity | reflexivity
      | reflexivity | exact (proj1 sysP_fresh) | exact (proj2 sysP_fresh) |].
    exists σ1, σ2. split; [exact H1 |]. split; [exact H2 |].
    rewrite Hp2, Hp1, Ht2. vm_compute. repeat split.
Defined.

(** A healthy snap whose isolate stops answering pings: the poll timer
    fires, the ping stays unanswered, the timeout fires; [unresponsive] is
    published once, no timer is left, and an answer that comes late changes
    nothing. *)
Lemma unanswered_ping_published_once :
  ∃ σ,
    Service.run (runsA ++ [(TimerFires 2, "q1"); (TimerFires 3, "q2");
                           (CommandData "j1" (ok_reply "q1"), "q3")])
                (start default_Args)
    = Some σ
    ∧ published (env (host σ)) = [Unresponsive "A"]
    ∧ timers (env (host σ)) = ∅
    ∧ pending σ = [].
Proof.
  eexists. split; [vm_compute; reflexivity |]. vm_compute. repeat split.
Qed.

(** A snap terminated while a ping is in flight: [terminate] cancels the
    stored poll timer, not the timeout of the race, which still publishes
    [unresponsive] for the snap that is gone. *)
Lemma timeout_outlives_terminate :
  ∃ σ,
    Service.run (runsA ++ [(TimerFires 2, "q1");
                           (Call_terminateSnap "A", "q2");
                           (TimerFires 3, "q3")])
                (start default_Args)
    = Some σ
    ∧ jobs (svc (host σ)) = []
    ∧ snapToJobMap (svc (host σ)) !! "A" = None
    ∧ published (env (host σ)) = [Unresponsive "A"].
Proof.
  eexists. split; [vm_compute; reflexivity |]. vm_compute. repeat split.
Qed.

(** From the turn in which the first ping is answered on, the snap is in
    the mapping, also while the [executeSnap] command awaits its answer,
    and a further [executeSnap] of the snap is rejected. *)
Lemma executeSnap_rejected_once_spawned (d d' : SnapData) (j : string)
    (pong v : JsValue) (n n' : string) (h : Host) :
  is_Some (jobs_get (jobs (svc h)) j) → _command_result pong = Ok v →
  snapId d' = snapId d →
  let r := executeSnap_spawned d j pong n h in
  fst r = Ok (Await (ExecuteCommand d j n))
  ∧ snapToJobMap (svc (snd r)) !! snapId d = Some j
  ∧ executeSnap d' n' (snd r)
    = (Thrown (JErr ("Snap " +:+ quoted (snapId d)
                     +:+ " is already being executed.")), snd r).
Proof.
  intros Hjob Hpong Hsame r. subst r.
  rewrite (executeSnap_spawned_run d j pong n h v) by done. cbn [fst snd].
  assert (Hmapped : snapToJobMap
            (svc (sent_to j (request n "executeSnap"
                               [("params", SnapData_to_js d)])
                    (mapped (snapId d) j h))) !! snapId d = Some j)
    by (cbn; apply lookup_insert_eq).
  split; [done |]. split; [exact Hmapped |].
  rewrite <- Hsame. apply executeSnap_mapped_rejects. rewrite Hsame. eauto.
Qed.

(** *** The snap RPC hook, end to end *)

(** The engine keeps the message of an error when it is a string that is
    not empty. *)
Lemma serializeError_message (e : JsValue) (m : string) :
  get e "message" = Some (JStr m) → m ≠ "" →
  truthy e = true ∧ get (serializeError e) "message" = Some (JStr m).
Proof.
  intros He Hm. split; [by destruct e |].
  unfold serializeError. rewrite He. cbn [default from_option Datatypes.id].
  rewrite (truthy_JStr m Hm). cbn [typeof andb]. rewrite String.eqb_refl.
  by destruct (_ && _).
Qed.

(** The hook called while the job is in the jobs map and its command
    substream open, and the isolate answering with [fields] and the id of
    the request. *)
Lemma hook_call_answered `{!Compartment} (h : Host) (c : Controller)
    (hook : SnapRpcHook) (origin : string) (request_ : JsValue)
    (nanoid : string) (js : JobStreams) (fields : list (string * JsValue))
    (response : JsValue) :
  is_Some (jobs_get (jobs (svc h)) (hook_jobId hook)) →
  heap (env h) !! hook_jobId hook = Some js → destroyed (command js) = false →
  nanoid ≠ "" →
  (∀ id_, snd (handleSnapRpc id_
                 (JObj [("origin", JStr origin); ("request", request_);
                        ("target", JStr (hook_snapId hook))])
                 (mkController (snapRpcHandlers c) [] (console_error c)))
          = mkController (snapRpcHandlers c)
              [JObj (fields ++ [("id", id_); ("jsonrpc", JStr "2.0")])]
              (console_error c)) →
  (∀ id_, get (JObj (fields ++ [("id", id_); ("jsonrpc", JStr "2.0")])) "id"
          = Some id_) →
  (∀ id_, handled (JObj (fields ++ [("id", id_); ("jsonrpc", JStr "2.0")]))
          = Some response) →
  hook_call hook origin request_ nanoid h c
  = Some (match _command_result response with
          | Ok v => Ok v
          | Thrown e => Thrown e
          end).
Proof.
  intros [jw Hjw] Hjs Hopen Hn Hserve Hid Hhandled.
  unfold hook_call, rpcHook, bind, request. rewrite _command_send_run, Hjw.
  cbn [ret]. unfold sent_to at 1. cbn [sent env on_env upd_sent upd_idMap].
  rewrite last_snoc.
  unfold serve, onCommandRequest.
  cbn [truthy typeof isArray negb orb String.eqb Ascii.eqb Bool.eqb get assoc
       app valid_id].
  rewrite Hserve. cbn [snd commandStream].
  set (reply := JObj (fields ++ _)).
  set (h' := sent_to _ _ h).
  assert (Harr : arrive (hook_jobId hook) reply h'
                 = Some (Answered nanoid,
                         on_env (upd_idMap (unregister (hook_jobId hook) nanoid))
                                h')).
  { rewrite (arrive_with_id _ reply nanoid h' js); [| done | done | apply Hid].
    rewrite (truthy_JStr nanoid Hn). cbn [negb].
    change (idMap (env h'))
      with (register (hook_jobId hook) nanoid (idMap (env h))).
    by rewrite registered_register. }
  rewrite Harr. subst reply. rewrite Hhandled.
  cbn [awaits_response]. rewrite !String.eqb_refl. cbn [andb resume].
  unfold rpcHook_answered. by destruct (_command_result response).
Qed.

(** C8, amended: for a snap that is executing (its hook is installed, the
    job of the hook is in the jobs map and its command substream is open),
    calling the hook with [(origin, request)] resolves to the value the
    handler registered in the isolate returned for [(origin, request)]; if
    the handler throws or rejects with an error [e] whose message is a
    string that is not empty, the hook rejects with an error whose message
    is [e.message]; for any other truthy [e] the hook rejects with the
    message the engine gives the error, and for a falsy [e] it resolves,
    with [undefined]; if no handler is registered for the snap, the hook
    rejects with the error "No RPC handler registered for snap ...". *)
Theorem snapRpc_roundtrip `{!Compartment} (h : Host) (c : Controller)
    (s : string) (hook : SnapRpcHook) (origin : string) (request_ : JsValue)
    (nanoid : string) (js : JobStreams) :
  getRpcMessageHandler s h = Some hook →
  is_Some (jobs_get (jobs (svc h)) (hook_jobId hook)) →
  heap (env h) !! hook_jobId hook = Some js → destroyed (command js) = false →
  nanoid ≠ "" →
  (∀ handler v,
     snapRpcHandlers c !! hook_snapId hook = Some handler →
     handler (JStr origin) request_ = Returns v →
     hook_call hook origin request_ nanoid h c = Some (Ok v))
  ∧ (∀ handler e m,
       snapRpcHandlers c !! hook_snapId hook = Some handler →
       handler (JStr origin) request_ = Rejects e →
       get e "message" = Some (JStr m) → m ≠ "" →
       hook_call hook origin request_ nanoid h c = Some (Thrown (JErr m)))
  ∧ (∀ handler e,
       snapRpcHandlers c !! hook_snapId hook = Some handler →
       handler (JStr origin) request_ = Rejects e →
       hook_call hook origin request_ nanoid h c
       = Some (if truthy e
               then Thrown (newError (default JUndefined
                                        (get (serializeError e) "message")))
               else Ok JUndefined))
  ∧ (snapRpcHandlers c !! hook_snapId hook = None →
     hook_call hook origin request_ nanoid h c
     = Some (Thrown (JErr ("No RPC handler registered for snap "
                           +:+ quoted (hook_snapId hook) +:+ ".")))).
Proof.
  intros _ Hjob Hjs Hopen Hn.
  assert (Hrejects : ∀ handler e,
            snapRpcHandlers c !! hook_snapId hook = Some handler →
            handler (JStr origin) request_ = Rejects e →
            hook_call hook origin request_ nanoid h c
            = Some (if truthy e
                    then Thrown (newError (default JUndefined
                                             (get (serializeError e) "message")))
                    else Ok JUndefined)).
  { intros handler e Hh He.
    destruct (truthy e) eqn:Hte.
    - rewrite (hook_call_answered h c hook origin request_ nanoid js
                 [("error", e)] (JObj [("error", serializeError e)]));
        try done.
      + by rewrite _command_result_serialized.
      + intros id_. unfold handleSnapRpc, bind, gets.
        cbn [get assoc String.eqb Ascii.eqb Bool.eqb map_get snapRpcHandlers].
        by rewrite Hh, He.
      + intros id_. unfold handled.
        cbn [get assoc app String.eqb Ascii.eqb Bool.eqb default from_option
             Datatypes.id]. by rewrite Hte.
    - rewrite (hook_call_answered h c hook origin request_ nanoid js
                 [("error", e)]
                 (JObj [("result", JUndefined); ("error", e)])); try done.
      + unfold _command_result. cbn [get assoc String.eqb Ascii.eqb Bool.eqb].
        by rewrite Hte.
      + intros id_. unfold handleSnapRpc, bind, gets.
        cbn [get assoc String.eqb Ascii.eqb Bool.eqb map_get snapRpcHandlers].
        by rewrite Hh, He.
      + intros id_. unfold handled.
        cbn [get assoc app String.eqb Ascii.eqb Bool.eqb default from_option
             Datatypes.id hasKey existsb fst orb]. by rewrite Hte. }
  split; [| split; [| split; [exact Hrejects |]]].
  - intros handler v Hh Hv.
    rewrite (hook_call_answered h c hook origin request_ nanoid js
               [("result", v)] (JObj [("result", v); ("error", JUndefined)]));
      try done.
    + intros id_. unfold handleSnapRpc, bind, gets.
      cbn [get assoc String.eqb Ascii.eqb Bool.eqb map_get snapRpcHandlers].
      by rewrite Hh, Hv.
  - intros handler e m Hh He Hm Hne.
    destruct (serializeError_message e m Hm Hne) as [Hte Hmsg].
    by rewrite (Hrejects handler e Hh He), Hte, Hmsg.
  - intros Hnone.
    set (msg := "No RPC handler registered for snap "
                +:+ quoted (hook_snapId hook) +:+ ".").
    rewrite (hook_call_answered h c hook origin request_ nanoid js
               [("error", JErr msg)]
               (JObj [("error", serializeError (JErr msg))])); try done.
    + intros id_. unfold handleSnapRpc, bind, gets.
      cbn [get assoc String.eqb Ascii.eqb Bool.eqb map_get snapRpcHandlers
           toString].
      by rewrite Hnone.
Qed.

Lemma snapRpc_roundtrip_witness :
  hook_call (H := demo_Compartment) (mkSnapRpcHook "A" "j1") "origin1"
    (JObj [("method", JStr "hello")]) "r1" hostA ctrlA
  = Some (Ok (JStr "hello")).
Proof.
  assert (Hhook : getRpcMessageHandler "A" hostA = Some (mkSnapRpcHook "A" "j1"))
    by (vm_compute; reflexivity).
  assert (Hjob : is_Some (jobs_get (jobs (svc hostA)) "j1"))
    by (vm_compute; eexists; reflexivity).
  assert (Hjs : heap (env hostA) !! "j1"
                = Some (mkJobStreams (mkStream false false true)
                          (Some (createStream false)) (createStream false)))
    by (vm_compute; reflexivity).
  assert (Hn : "r1" ≠ "") by discriminate.
  destruct (snapRpc_roundtrip (H := demo_Compartment) hostA ctrlA "A"
              (mkSnapRpcHook "A" "j1") "origin1"
              (JObj [("method", JStr "hello")]) "r1" _ Hhook Hjob Hjs eq_refl Hn)
    as (Hreturns & _ & _ & _).
  apply (Hreturns echo_method); vm_compute; reflexivity.
Defined.

(** C8 as stated fails: a handler that rejects with an error whose message
    is empty makes the hook reject with the message of the engine, not with
    the empty one; a handler that throws [undefined] makes the hook resolve;
    and once the command substream of the job is destroyed (here by a
    message with an id that no request is filed under), the hook of the
    snap, which is still installed, never settles, whatever the handler
    returns. *)
Lemma hook_outcome_differs :
  let request_ := JObj [("method", JStr "hello")] in
  let hook := mkSnapRpcHook "A" "j1" in
  getRpcMessageHandler "A" hostA = Some hook
  ∧ get (JErr "") "message" = Some (JStr "")
  ∧ hook_call (H := demo_Compartment) hook "origin1" request_ "r1" hostA
      (handling "A" (λ _ _, Rejects (JErr "")))
    = Some (Thrown (JErr "Internal JSON-RPC error."))
  ∧ hook_call (H := demo_Compartment) hook "origin1" request_ "r1" hostA
      (handling "A" (λ _ _, Rejects JUndefined))
    = Some (Ok JUndefined)
  ∧ getRpcMessageHandler "A" (host sysZ) = Some hook
  ∧ jobs_get (jobs (svc (host sysZ))) "j1" = Some (mkEnvMetadata "j1" "j1")
  ∧ (snapRpcHandlers ctrlA !! "A" ≫= λ handler,
       Some (handler (JStr "origin1") request_))
    = Some (Returns (JStr "hello"))
  ∧ hook_call (H := demo_Compartment) hook "origin1" request_ "r1" (host sysZ)
      ctrlA
    = None.
Proof. vm_compute. repeat split. Qed.

(** *** The controller of the isolate, command by command *)



Lemma command_switch {A} (method : JsValue) (a b c d : A) :
  match method with
  | JStr "executeSnap" => a
  | JStr "ping" => b
  | JStr "snapRpc" => c
  | _ => d
  end
  = match method with
    | JStr m =>
        if String.eqb m "executeSnap" then a
        else if String.eqb m "ping" then b
        else if String.eqb m "snapRpc" then c
        else d
    | _ => d
    end.
Proof.
  destruct method as [| | | |m| | |]; try reflexivity.
  repeat next_char m.
Qed.

Lemma is_request_object_gets (message : JsValue) (k : string) :
  is_request_object message = true → is_Some (get message k).
Proof. destruct message; cbn; try discriminate; eauto. Qed.

Lemma is_request_object_test (message : JsValue) :
  negb (truthy message) || negb (String.eqb (typeof message) "object")
  || isArray message
  = negb (is_request_object message).
Proof.
  unfold is_request_object.
  destruct (truthy message), (String.eqb (typeof message) "object"),
    (isArray message); reflexivity.
Qed.

Lemma isTruthyString_spec (v : JsValue) :
  isTruthyString v = true ↔ ∃ s, v = JStr s ∧ s ≠ "".
Proof.
  unfold isTruthyString. split.
  - destruct v as [| | | |s| | |]; cbn; try discriminate.
    destruct (String.eqb_spec s ""); [discriminate | eauto].
  - intros (s & -> & Hs). cbn. by destruct (String.eqb_spec s "").
Qed.

Lemma executeSnap_params_default (params : JsValue) (k : string) :
  params ≠ JNull →
  is_Some (get (match params with JUndefined => JObj [] | _ => params end) k).
Proof. destruct params; cbn; try done; eauto. Qed.


Lemma executeSnap_invalid `{!Compartment} (id_ params : JsValue)
    (c : Controller) :
  params ≠ JNull →
  (∀ s src, get params "snapId" = Some (JStr s) →
            get params "sourceCode" = Some (JStr src) → s = "" ∨ src = "") →
  Worker.executeSnap id_ params c
  = (Ok tt,
     mkController (snapRpcHandlers c)
       (commandStream c
        ++ [response_to id_ [("error", JErr "Invalid executeSnap parameters.")]])
       (console_error c)).
Proof.
  intros Hnull Hbad. unfold Worker.executeSnap.
  set (p := match params with JUndefined => JObj [] | _ => params end).
  destruct (executeSnap_params_default params "snapId" Hnull) as [a Ha].
  destruct (executeSnap_params_default params "sourceCode" Hnull) as [b Hb].
  fold p in Ha, Hb. rewrite Ha, Hb.
  destruct (isTruthyString a) eqn:Hta; [| reflexivity].
  destruct (isTruthyString b) eqn:Htb; [| reflexivity].
  exfalso. apply isTruthyString_spec in Hta as (s & -> & Hs).
  apply isTruthyString_spec in Htb as (src & -> & Hsrc).
  assert (Hp : p = params).
  { subst p. destruct params; try reflexivity. cbn in Ha. discriminate. }
  rewrite Hp in Ha, Hb. destruct (Hbad s src Ha Hb); done.
Qed.


Lemma onCommandRequest_object `{!Compartment}
    (message id_ method params : JsValue) (c : Controller) :
  is_request_object message = true →
  get message "id" = Some id_ → get message "method" = Some method →
  get message "params" = Some params →
  onCommandRequest message c
  = if valid_id id_ then
      match method with
      | JStr m =>
          if String.eqb m "executeSnap" then Worker.executeSnap id_ params c
          else if String.eqb m "ping" then
            respond id_ [("result", JStr "OK")] c
          else if String.eqb m "snapRpc" then handleSnapRpc id_ params c
          else respond id_ [("error", JErr ("Unrecognized command: "
                                            +:+ toString method +:+ "."))] c
      | _ => respond id_ [("error", JErr ("Unrecognized command: "
                                          +:+ toString method +:+ "."))] c
      end
    else log_error ("Command stream received invalid id "
                    +:+ quoted (toString id_) +:+ ".") c.
Proof.
  intros Hobj Hid Hmethod Hparams. unfold onCommandRequest.
  rewrite is_request_object_test, Hobj, Hid, Hmethod, Hparams. cbn [negb].
  destruct (valid_id id_); [| reflexivity]. cbn [negb].
  rewrite command_switch. destruct method as [| | | |m| | |]; try reflexivity.
  by destruct (String.eqb m "executeSnap"), (String.eqb m "ping"),
    (String.eqb m "snapRpc").
Qed.

(** A message that is not an object, or whose id is neither a string nor a
    number, or an [executeSnap] whose [params] are [null], or a [snapRpc]
    whose [params] are [null] or [undefined], is never answered: nothing is
    written to the command stream, and the handlers stay as they were. *)
Theorem onCommandRequest_unanswered `{!Compartment} (message : JsValue)
    (c : Controller) :
  is_request_object message = false
  ∨ (∃ id_, get message "id" = Some id_ ∧ valid_id id_ = false)
  ∨ (get message "method" = Some (JStr "executeSnap")
     ∧ get message "params" = Some JNull)
  ∨ (∃ params, get message "method" = Some (JStr "snapRpc")
               ∧ get message "params" = Some params
               ∧ is_nullish params = true) →
  let c' := snd (onCommandRequest message c) in
  commandStream c' = commandStream c
  ∧ snapRpcHandlers c' = snapRpcHandlers c.
Proof.
  intros Hcase. cbn zeta.
  destruct (is_request_object message) eqn:Hobj.
  2: { unfold onCommandRequest. by rewrite is_request_object_test, Hobj. }
  destruct (is_request_object_gets message "id" Hobj) as [i Hi].
  destruct (is_request_object_gets message "method" Hobj) as [m Hm].
  destruct (is_request_object_gets message "params" Hobj) as [p Hp].
  rewrite (onCommandRequest_object message i m p c) by done.
  destruct (valid_id i) eqn:Hvalid; [| done].
  destruct Hcase as [? | [(i' & Hi' & Hinv) | [[Hm' Hp'] | (p' & Hm' & Hp' & Hnull)]]];
    [done | congruence | |].
  - assert (m = JStr "executeSnap") as -> by congruence.
    assert (p = JNull) as -> by congruence. done.
  - assert (m = JStr "snapRpc") as -> by congruence.
    assert (p = p') as -> by congruence.
    destruct p'; try discriminate; done.
Qed.

Lemma onCommandRequest_unanswered_witness :
  commandStream
    (snd (@onCommandRequest demo_Compartment
            (JObj [("id", JBool true); ("method", JStr "ping")]) ctrlA))
  = commandStream ctrlA.
Proof.
  apply (@onCommandRequest_unanswered demo_Compartment
           (JObj [("id", JBool true); ("method", JStr "ping")]) ctrlA).
  right; left. exists (JBool true). split; reflexivity.
Defined.



(** The [executeSnap] command of the isolate refuses its parameters unless
    [snapId] and [sourceCode] are both non-empty strings ([params] may be
    absent or of any type but [null]): it answers with the error "Invalid
    executeSnap parameters.", evaluates nothing and leaves the handlers and
    the error log as they were. *)
Theorem executeSnap_invalid_parameters `{!Compartment} (id_ params : JsValue)
    (c : Controller) :
  params ≠ JNull →
  (∀ s src, get params "snapId" = Some (JStr s) →
            get params "sourceCode" = Some (JStr src) → s = "" ∨ src = "") →
  Worker.executeSnap id_ params c
  = (Ok tt,
     mkController (snapRpcHandlers c)
       (commandStream c
        ++ [response_to id_ [("error", JErr "Invalid executeSnap parameters.")]])
       (console_error c)).
Proof. exact (executeSnap_invalid id_ params c). Qed.

Lemma executeSnap_invalid_parameters_witness :
  commandStream
    (snd (@Worker.executeSnap demo_Compartment (JStr "c1")
            (JObj [("snapId", JStr "A"); ("sourceCode", JNum 1)])
            new_Controller))
  = [response_to (JStr "c1")
       [("error", JErr "Invalid executeSnap parameters.")]].
Proof.
  rewrite (@executeSnap_invalid_parameters demo_Compartment (JStr "c1")
             (JObj [("snapId", JStr "A"); ("sourceCode", JNum 1)])
             new_Controller); [reflexivity | discriminate |].
  intros s src _ Hsrc. discriminate Hsrc.
Defined.




(** *** Calls on jobs and snaps that are gone *)

Lemma terminate_unknown (j : string) (h : Host) :
  jobs_get (jobs (svc h)) j = None →
  terminate j h = (Thrown (job_not_found j), h).
Proof. intros Hj. unfold terminate, bind, gets. by rewrite Hj. Qed.

Lemma terminateSnap_unknown (s : string) (h : Host) :
  snapToJobMap (svc h) !! s = None →
  terminateSnap s h
  = (Thrown (JErr ("Job not found for snap with id " +:+ quoted s +:+ ".")),
     h).
Proof. intros Hs. unfold terminateSnap, bind, gets. by rewrite Hs. Qed.

(** [terminate] is not idempotent: once a job has been terminated, a second
    [terminate] of it throws "Job with id ... not found.", [terminateSnap]
    of its snap throws "Job not found for snap with id ...", and neither
    changes anything. *)
Theorem terminate_twice (h : Host) (j : string) (jw : EnvMetadata)
    (s : string) :
  jobs_get (jobs (svc h)) j = Some jw →
  jobToSnapMap (svc h) !! j = Some s → s ≠ "" →
  let h' := snd (terminate j h) in
  fst (terminate j h) = Ok tt
  ∧ terminate j h' = (Thrown (job_not_found j), h')
  ∧ terminateSnap s h'
    = (Thrown (JErr ("Job not found for snap with id " +:+ quoted s +:+ ".")),
       h').
Proof.
  intros Hjw Hs Hne. cbn zeta. rewrite (terminate_ok j jw s h) by done.
  cbn [fst snd]. split; [done |]. split.
  - apply terminate_unknown. rewrite terminated_svc. cbn.
    apply jobs_get_delete_eq.
  - apply terminateSnap_unknown. rewrite terminated_svc. cbn.
    apply lookup_delete_eq.
Qed.

Lemma terminate_twice_witness :
  terminate "j1" (snd (terminate "j1" (host sysA)))
  = (Thrown (job_not_found "j1"), snd (terminate "j1" (host sysA))).
Proof.
  destruct (terminate_twice (host sysA) "j1" (mkEnvMetadata "j1" "j1") "A")
    as (_ & Hagain & _);
    [vm_compute; reflexivity | vm_compute; reflexivity | discriminate |].
  exact Hagain.
Defined.



(** *** terminate leaves the other snaps alone *)

Lemma remove_element_other (i x : string) (doc : list string) :
  x ≠ i → x ∈ remove_element i doc ↔ x ∈ doc.
Proof.
  intros Hne. split; [apply remove_element_subset |].
  induction doc as [|y doc IH]; cbn; [done |].
  destruct (String.eqb_spec y i) as [->|Hy].
  - intros H. inversion H; subst; [done | assumption].
  - intros H. inversion H; subst; [left | right; auto].
Qed.

(** [terminate] of one job touches nothing of the others: every other job
    keeps its record, its mapping, its streams and its iframe, every other
    snap its mapping, its hook and its liveness timer, and nothing is
    published, provided or sent. *)
Theorem terminate_frame (h : Host) (j : string) (jw : EnvMetadata)
    (s : string) :
  wf h →
  jobs_get (jobs (svc h)) j = Some jw →
  jobToSnapMap (svc h) !! j = Some s → s ≠ "" →
  let h' := snd (terminate j h) in
  (∀ j', j' ≠ j →
     jobs_get (jobs (svc h')) j' = jobs_get (jobs (svc h)) j'
     ∧ jobToSnapMap (svc h') !! j' = jobToSnapMap (svc h) !! j'
     ∧ heap (env h') !! j' = heap (env h) !! j'
     ∧ (j' ∈ document (env h') ↔ j' ∈ document (env h)))
  ∧ (∀ s', s' ≠ s →
       snapToJobMap (svc h') !! s' = snapToJobMap (svc h) !! s'
       ∧ _snapRpcHooks (svc h') !! s' = _snapRpcHooks (svc h) !! s'
       ∧ _timeoutForUnresponsiveMap (svc h') !! s'
         = _timeoutForUnresponsiveMap (svc h) !! s')
  ∧ (∀ t, _timeoutForUnresponsiveMap (svc h) !! s ≠ Some t →
          timers (env h') !! t = timers (env h) !! t)
  ∧ published (env h') = published (env h)
  ∧ provided (env h') = provided (env h)
  ∧ sent (env h') = sent (env h).
Proof.
  intros Hwf Hjw Hs Hne. cbn zeta. rewrite (terminate_ok j jw s h) by done.
  cbn [snd]. destruct (wf_record Hwf j jw Hjw) as [Hid Hstreams].
  rewrite terminated_svc, terminated_env, Hid, Hstreams.
  split; [| split; [| split]].
  - intros j' Hj'. cbn.
    rewrite jobs_get_delete_ne, lookup_delete_ne by done.
    split; [done |]. split; [done |].
    destruct (_timeoutForUnresponsiveMap (svc h) !! s); cbn;
      rewrite lookup_alter_ne by done; (split; [done |]);
      by apply remove_element_other.
  - intros s' Hs'. cbn. by rewrite !lookup_delete_ne.
  - intros t Ht.
    destruct (_timeoutForUnresponsiveMap (svc h) !! s) as [t0|]; cbn; [| done].
    apply lookup_delete_ne. congruence.
  - by destruct (_timeoutForUnresponsiveMap (svc h) !! s).
Qed.

Lemma terminate_frame_witness :
  published (env (snd (terminate "j1" (host sysA)))) = published (env (host sysA))
  ∧ sent (env (snd (terminate "j1" (host sysA)))) = sent (env (host sysA)).
Proof.
  destruct (terminate_frame (host sysA) "j1" (mkEnvMetadata "j1" "j1") "A")
    as (_ & _ & _ & Hpub & _ & Hsent);
    [exact sysA_wf | vm_compute; reflexivity | vm_compute; reflexivity
    | discriminate |].
  split; [exact Hpub | exact Hsent].
Defined.

(** *** An out-of-band error before the job is mapped *)

(** An out-of-band error (a truthy [error], a null or undefined [id]) that
    arrives while the job of the stream is not mapped to a snap yet is
    dropped: nothing is published, and the listener is detached all the
    same, so that no later error of the job is published either, also once
    the job is mapped. *)
Theorem errorHandler_before_mapping (h : Host) (j : string)
    (data error id_ : JsValue) :
  listener_on h j →
  jobToSnapMap (svc h) !! j = None →
  get data "error" = Some error → truthy error = true →
  get data "id" = Some id_ → is_nullish id_ = true →
  let h' := snd (emit_data j data h) in
  published (env h') = published (env h)
  ∧ svc h' = svc h
  ∧ listener_off h' j
  ∧ ∀ s data', emit_data j data' (mapped s j h') = (Ok tt, mapped s j h').
Proof.
  intros (js & Hjs & Hon) Hunmapped Herr Htruthy Hid Hnull. cbn zeta.
  assert (Hrun : emit_data j data h
                 = (Ok tt, on_env (upd_heap (alter (set_errorHandler false) j)) h)).
  { unfold emit_data, errorHandler, bind, gets, modify.
    rewrite Hjs, Hon, Herr, Hid, Htruthy, Hnull. cbn [andb].
    by rewrite Hunmapped. }
  rewrite Hrun. cbn [snd]. split; [done |]. split; [done |].
  assert (Hoff : ∀ h1, heap (env h1)
                       = alter (set_errorHandler false) j (heap (env h)) →
                       listener_off h1 j).
  { intros h1 Hh1. exists (set_errorHandler false js). split; [| reflexivity].
    by rewrite Hh1, lookup_alter_eq, Hjs. }
  split; [by apply Hoff |].
  intros s data'. apply emit_data_detached. by apply Hoff.
Qed.

Lemma errorHandler_before_mapping_witness :
  published (env (snd (emit_data "j1" (oob_error "x") hostI))) = []
  ∧ listener_off (snd (emit_data "j1" (oob_error "x") hostI)) "j1".
Proof.
  destruct (errorHandler_before_mapping hostI "j1" (oob_error "x")
              (JObj [("message", JStr "x")]) JNull)
    as (Hpub & _ & Hoff & _).
  - exists (mkJobStreams (mkStream false false true)
                         (Some (createStream false)) (createStream false)).
    split; vm_compute; reflexivity.
  - vm_compute; reflexivity.
  - reflexivity.
  - reflexivity.
  - reflexivity.
  - reflexivity.
  - split; [rewrite Hpub; vm_compute; reflexivity | exact Hoff].
Defined.

(** *** terminateAllSnaps with a job that has no snap *)

Lemma for_of_app (k1 k2 : list string) (body : string → M Host unit)
    (h : Host) :
  for_of (k1 ++ k2) body h
  = match for_of k1 body h with
    | (Ok _, h1) => for_of k2 body h1
    | (Thrown e, h1) => (Thrown e, h1)
    end.
Proof.
  revert h. induction k1 as [|k k1 IH]; intros h; [reflexivity |].
  cbn [app for_of]. unfold bind.
  destruct (body k h) as [[[]|e] h1]; [apply IH | reflexivity].
Qed.

Lemma jobs_delete_absent (k : string) (l : list (string * EnvMetadata)) :
  k ∉ jobs_keys l → jobs_delete k l = l.
Proof.
  induction l as [|[k0 v0] l IH]; [done |]. cbn [jobs_keys List.map fst].
  intros Hk. apply not_elem_of_cons in Hk as [Hne Hk].
  rewrite jobs_delete_cons.
  destruct (String.eqb_spec k0 k); [congruence |]. f_equal. by apply IH.
Qed.

Lemma jobs_keys_app (l1 l2 : list (string * EnvMetadata)) :
  jobs_keys (l1 ++ l2) = jobs_keys l1 ++ jobs_keys l2.
Proof. unfold jobs_keys. apply map_app. Qed.

(** The loop of [terminateAllSnaps] over the first jobs of the map, all of
    them mapped to snaps. *)
Lemma for_of_terminate_prefix (l1 rest : list (string * EnvMetadata))
    (h : Host) :
  jobs (svc h) = l1 ++ rest →
  NoDup (jobs_keys (l1 ++ rest)) →
  (∀ j, j ∈ jobs_keys l1 →
        ∃ s, jobToSnapMap (svc h) !! j = Some s ∧ s ≠ "") →
  ∃ h1, for_of (jobs_keys l1) terminate h = (Ok tt, h1)
    ∧ jobs (svc h1) = rest
    ∧ (∀ j, j ∉ jobs_keys l1 →
            jobToSnapMap (svc h1) !! j = jobToSnapMap (svc h) !! j)
    ∧ (∀ s, (∀ j, j ∈ jobs_keys l1 → jobToSnapMap (svc h) !! j ≠ Some s) →
            _snapRpcHooks (svc h1) !! s = _snapRpcHooks (svc h) !! s).
Proof.
  revert h. induction l1 as [|[k kw] l1 IH]; intros h Hjobs Hnd Hall.
  - exists h. cbn. done.
  - cbn [app jobs_keys List.map fst] in *.
    apply NoDup_cons in Hnd as [Hk Hnd].
    destruct (Hall k) as (s & Hs & Hne); [left |].
    assert (Hkw : jobs_get (jobs (svc h)) k = Some kw).
    { rewrite Hjobs. cbn. by rewrite String.eqb_refl. }
    destruct (IH (terminated k kw s h)) as (h1 & Hrun & Hrest & Hmap & Hhooks).
    { rewrite terminated_svc. cbn. rewrite Hjobs, jobs_delete_cons.
      rewrite String.eqb_refl. by apply jobs_delete_absent. }
    { done. }
    { intros j Hj. destruct (Hall j) as (s' & Hs' & Hne'); [by right |].
      exists s'. rewrite terminated_svc. cbn.
      rewrite lookup_delete_ne; [done |]. intros <-. apply Hk.
      rewrite jobs_keys_app. apply elem_of_app. by left. }
    exists h1. split; [| split; [done | split]].
    + cbn [for_of]. unfold bind. by rewrite (terminate_ok k kw s h).
    + intros j Hj. apply not_elem_of_cons in Hj as [Hjk Hj].
      rewrite Hmap by done. rewrite terminated_svc. cbn.
      by rewrite lookup_delete_ne.
    + intros s' Hs'. rewrite Hhooks.
      * rewrite terminated_svc. cbn. apply lookup_delete_ne. intros <-.
        apply (Hs' k); [left | done].
      * intros j Hj. rewrite terminated_svc. cbn. intros Hl.
        apply lookup_delete_Some in Hl as [_ Hl]. apply (Hs' j); [by right | done].
Qed.

(** [terminateAllSnaps] stops at the first job, in the order of the jobs
    map, that no snap is mapped to (a job still awaiting its first ping, or
    left behind by a failed one): it throws "Failed to find a snap for job
    with id ...", the jobs before it are terminated, that job and all the
    jobs after it stay in the jobs map, and the hooks of the snaps that were
    not terminated are not cleared. *)
Theorem terminateAllSnaps_stops_at_unmapped_job (h : Host)
    (l1 l2 : list (string * EnvMetadata)) (j : string) (jw : EnvMetadata) :
  wf h →
  jobs (svc h) = l1 ++ (j, jw) :: l2 →
  (∀ j', j' ∈ jobs_keys l1 →
         ∃ s, jobToSnapMap (svc h) !! j' = Some s ∧ s ≠ "") →
  jobToSnapMap (svc h) !! j = None →
  ∃ h',
    terminateAllSnaps h
    = (Thrown (JErr ("Failed to find a snap for job with id " +:+ quoted j)),
       h')
    ∧ jobs (svc h') = (j, jw) :: l2
    ∧ ∀ s, (∀ j', j' ∈ jobs_keys l1 → jobToSnapMap (svc h) !! j' ≠ Some s) →
           _snapRpcHooks (svc h') !! s = _snapRpcHooks (svc h) !! s.
Proof.
  intros Hwf Hjobs Hall Hunmapped.
  pose proof (wf_keys Hwf) as Hnd. rewrite Hjobs in Hnd.
  destruct (for_of_terminate_prefix l1 ((j, jw) :: l2) h Hjobs Hnd Hall)
    as (h1 & Hrun & Hrest & Hmap & Hhooks).
  assert (Hj : j ∉ jobs_keys l1).
  { rewrite jobs_keys_app in Hnd. apply NoDup_app in Hnd as (_ & Hdisj & _).
    intros Hin. apply (Hdisj j Hin). left. }
  exists h1. split; [| split; [done | done]].
  unfold terminateAllSnaps, bind at 1, gets. rewrite Hjobs, jobs_keys_app.
  unfold bind. rewrite for_of_app, Hrun. cbn [jobs_keys List.map fst for_of].
  unfold bind at 1. unfold terminate at 1, bind, gets.
  rewrite Hrest. cbn [jobs_get]. rewrite String.eqb_refl.
  by rewrite (Hmap j Hj), Hunmapped.
Qed.

(** *** Timer handles *)

Lemma keeps_ret {A} (a : A) : keeps (ret a).
Proof. by intros h. Qed.

Lemma keeps_throw {A} (e : JsValue) : keeps (@throw Host A e).
Proof. by intros h. Qed.

Lemma keeps_gets {A} (f : Host → A) : keeps (gets f).
Proof. by intros h. Qed.

Lemma keeps_bind {A B} (m : M Host A) (k : A → M Host B) :
  keeps m → (∀ a, keeps (k a)) → keeps (bind m k).
Proof.
  intros Hm Hk h HT. unfold bind. specialize (Hm h HT).
  destruct (m h) as [[a|e] h1]; cbn [snd] in *; [by apply Hk | done].
Qed.

Lemma keeps_try_catch {A} (m : M Host A) (k : JsValue → M Host A) :
  keeps m → (∀ e, keeps (k e)) → keeps (try_catch m k).
Proof.
  intros Hm Hk h HT. unfold try_catch. specialize (Hm h HT).
  destruct (m h) as [[a|e] h1]; cbn [snd] in *; [done | by apply Hk].
Qed.

Lemma keeps_modify (f : Host → Host) :
  (∀ h, _timeoutForUnresponsiveMap (svc (f h))
        = _timeoutForUnresponsiveMap (svc h)
        ∧ timers (env (f h)) = timers (env h)
        ∧ nextTimer (env (f h)) = nextTimer (env h)) →
  keeps (modify f).
Proof.
  intros Hf h [H1 H2 H3]. destruct (Hf h) as (E1 & E2 & E3).
  change (Timed_at (svc (f h)) (timers (env (f h))) (nextTimer (env (f h)))).
  split; rewrite ?E1, ?E2, ?E3; assumption.
Qed.

Lemma keeps_setTimeout (cb : TimerCallback) (d : Z) : keeps (setTimeout cb d).
Proof.
  intros h [Hfresh Hstored Hpoll]. unfold Timed, setTimeout. proj. split.
  - intros t Ht. proj. rewrite lookup_insert in Ht.
    case_decide; [subst; lia |]. apply Hfresh in Ht. lia.
  - intros sn t Ht. proj. apply Hstored in Ht. lia.
  - intros sn t cb' d' Hsn Ht. proj. rewrite lookup_insert_ne in Ht; [eauto |].
    apply Hstored in Hsn. lia.
Qed.

Lemma Timed_delete_timer (t : nat) (h : Host) :
  Timed h → Timed (on_env (upd_timers (delete t)) h).
Proof.
  intros [Hfresh Hstored Hpoll]. unfold Timed. proj. split.
  - intros t' Ht'. proj. apply Hfresh. rewrite lookup_delete in Ht'.
    by case_decide; [destruct Ht' |].
  - done.
  - intros sn t' cb d Hsn Ht'. proj. apply lookup_delete_Some in Ht' as [_ Ht'].
    eauto.
Qed.

Lemma keeps_clearTimeout (o : option nat) : keeps (clearTimeout o).
Proof.
  destruct o as [t|]; [| by intros h]. intros h HT.
  by apply Timed_delete_timer.
Qed.

Lemma keeps_forget (sn : string) :
  keeps (modify (on_svc (upd_timeoutMap (delete sn)))).
Proof.
  intros h [Hfresh Hstored Hpoll]. unfold Timed, modify. proj. split.
  - done.
  - intros sn' t Ht. proj. apply lookup_delete_Some in Ht as [_ Ht]. eauto.
  - intros sn' t cb d Ht. proj. apply lookup_delete_Some in Ht as [_ Ht]. eauto.
Qed.

Lemma keeps__pollForJobStatus (sn : string) : keeps (_pollForJobStatus sn).
Proof.
  intros h HT.
  destruct (_pollForJobStatus_run sn h) as [[e ->] | (_ & j & _ & ->)]; [done |].
  destruct HT as [Hfresh Hstored Hpoll]. unfold Timed. proj. split.
  - intros t Ht. proj. rewrite lookup_insert in Ht.
    case_decide; [subst; lia |]. apply Hfresh in Ht. lia.
  - intros sn' t Ht. proj. rewrite lookup_insert in Ht.
    case_decide; [injection Ht as <-; lia |]. apply Hstored in Ht. lia.
  - intros sn' t cb d Hsn Ht. proj. rewrite lookup_insert in Hsn.
    case_decide as Heq.
    + subst sn'. injection Hsn as <-. rewrite lookup_insert_eq in Ht.
      injection Ht as <- <-. eauto.
    + rewrite lookup_insert_ne in Ht; [eauto |]. apply Hstored in Hsn. lia.
Qed.

(** Takes a computation apart into the steps above. *)
Ltac keeps_tac :=
  repeat first
    [ apply keeps_ret | apply keeps_throw | apply keeps_gets
    | apply keeps_setTimeout | apply keeps_clearTimeout | apply keeps_forget
    | apply keeps__pollForJobStatus
    | apply keeps_bind | apply keeps_try_catch
    | apply keeps_modify; intros ?; repeat split; reflexivity
    | match goal with |- ∀ _, _ => intros ? end
    | case_match ].

Lemma keeps__removeSnapAndJobMapping (j : string) :
  keeps (_removeSnapAndJobMapping j).
Proof. unfold _removeSnapAndJobMapping, _removeSnapHooks. keeps_tac. Qed.

Lemma keeps_terminate (j : string) : keeps (terminate j).
Proof.
  unfold terminate, _deleteJob. keeps_tac.
Qed.

Lemma keeps_terminateSnap (sn : string) : keeps (terminateSnap sn).
Proof. unfold terminateSnap. keeps_tac. Qed.

Lemma keeps_for_of_terminate (ks : list string) : keeps (for_of ks terminate).
Proof.
  induction ks as [|k ks IH]; cbn [for_of]; [apply keeps_ret |].
  apply keeps_bind; [apply keeps_terminate | by intros _].
Qed.

Lemma keeps_terminateAllSnaps : keeps terminateAllSnaps.
Proof.
  unfold terminateAllSnaps. apply keeps_bind; [apply keeps_gets |]. intros ks.
  apply keeps_bind; [apply keeps_for_of_terminate |]. keeps_tac.
Qed.

Lemma keeps__command_send (j : string) (message : JsValue) :
  keeps (_command_send j message).
Proof. unfold _command_send. keeps_tac. Qed.

Lemma keeps_executeSnap (d : SnapData) (n : string) : keeps (executeSnap d n).
Proof. unfold executeSnap, _createWindow. keeps_tac. Qed.

Lemma keeps__init_loaded (d : SnapData) (j : string) (t : nat)
    (faults : bool * bool * bool) (n : string) :
  keeps (_init_loaded d j t faults n).
Proof.
  unfold _init_loaded, _initStreams, _setJob. keeps_tac.
Qed.

Lemma keeps__createWindow_timeout (j : string) :
  keeps (_createWindow_timeout j).
Proof. unfold _createWindow_timeout. keeps_tac. Qed.

Lemma keeps_executeSnap_spawned (d : SnapData) (j : string) (r : JsValue)
    (n : string) :
  keeps (executeSnap_spawned d j r n).
Proof.
  unfold executeSnap_spawned, _mapSnapAndJob. keeps_tac.
Qed.

Lemma keeps_executeSnap_answered (d : SnapData) (j : string) (r : JsValue) :
  keeps (executeSnap_answered d j r).
Proof.
  unfold executeSnap_answered, setupSnapProvider, _createSnapHooks. keeps_tac.
Qed.

Lemma keeps_poll_fired (sn j n : string) : keeps (poll_fired sn j n).
Proof. unfold poll_fired, publish. keeps_tac. Qed.

Lemma keeps_poll_answered (sn : string) (t : nat) (r : JsValue) :
  keeps (poll_answered sn t r).
Proof. unfold poll_answered, publish. keeps_tac. Qed.

Lemma keeps_poll_timed_out (sn : string) : keeps (poll_timed_out sn).
Proof. unfold poll_timed_out, publish. keeps_tac. Qed.

Lemma keeps_rpcHook (hook : SnapRpcHook) (origin : string) (r : JsValue)
    (n : string) :
  keeps (rpcHook hook origin r n).
Proof. unfold rpcHook. keeps_tac. Qed.

Lemma keeps_rpcHook_answered (r : JsValue) : keeps (rpcHook_answered r).
Proof. unfold rpcHook_answered. keeps_tac. Qed.

Lemma keeps_emit_data (j : string) (data : JsValue) : keeps (emit_data j data).
Proof. unfold emit_data, errorHandler, publish. keeps_tac. Qed.

Lemma arrive_Timed (j : string) (data : JsValue) (h h' : Host) (a : Arrival) :
  arrive j data h = Some (a, h') → Timed h → Timed h'.
Proof.
  intros Harr HT. apply arrive_effect in Harr as (_ & id_ & _ & Ha).
  pose proof (keeps_emit_data j data h HT) as HT1.
  destruct a; [by destruct Ha as (_ & ->) | by destruct Ha as (_ & _ & _ & ->)
              | by destruct Ha as (_ & _ & ->)].
Qed.

Lemma keeps_resume (t : Task) (r : JsValue) (n : string) : keeps (resume t r n).
Proof.
  destruct t; cbn [resume];
    auto using keeps_executeSnap_spawned, keeps_executeSnap_answered,
      keeps_poll_answered, keeps_rpcHook_answered, keeps_ret.
Qed.

Lemma host_settle (c : Call) (r : Result Progress * Host) (σ : System) :
  host (settle c r σ) = snd r.
Proof. by destruct r as [[[t|v]|e] h]. Qed.

Lemma host_settle_sync (c : Call) (r : Result unit * Host) (σ : System) :
  host (settle_sync c r σ) = snd r.
Proof. unfold settle_sync. rewrite host_settle. by destruct r as [[[]|e] h]. Qed.

Lemma host_confirm (t : Task) (r : JsValue) (σ : System) :
  host (confirm t r σ) = host σ.
Proof. unfold confirm. by repeat case_match. Qed.

Lemma Timed_Some (x y : System) :
  Timed (host x) → Some x = Some y → Timed (host y).
Proof. by intros HT [= <-]. Qed.

Lemma step_Timed (ev : Event) (n : string) (σ σ' : System) :
  Timed (host σ) → step ev n σ = Some σ' → Timed (host σ').
Proof.
  intros HT. unfold step. case_decide; [discriminate |]. cbn zeta. proj.
  destruct ev as [d | sn | j | | sn origin r | j faults | j data | handle].
  - apply Timed_Some. rewrite host_settle. by apply keeps_executeSnap.
  - apply Timed_Some. rewrite host_settle_sync. by apply keeps_terminateSnap.
  - apply Timed_Some. rewrite host_settle_sync. by apply keeps_terminate.
  - apply Timed_Some. rewrite host_settle_sync. by apply keeps_terminateAllSnaps.
  - destruct (getRpcMessageHandler sn (host σ)); [| discriminate].
    apply Timed_Some. rewrite host_settle. by apply keeps_rpcHook.
  - destruct (take (is_creating j) (pending σ)) as [[[] rest]|]; try discriminate.
    apply Timed_Some. rewrite host_settle. by apply keeps__init_loaded.
  - destruct (arrive j data (host σ)) as [[arrival h1]|] eqn:Harr;
      [| discriminate].
    pose proof (arrive_Timed _ _ _ _ _ Harr HT) as HT1.
    destruct arrival as [| key |]; try (apply Timed_Some; exact HT1).
    destruct (take (awaits_response j key) (pending σ)) as [[t rest]|];
      [| apply Timed_Some; exact HT1].
    destruct (handled data) as [response|]; [| discriminate].
    apply Timed_Some. rewrite host_confirm, host_settle. by apply keeps_resume.
  - destruct (timers (env (host σ)) !! handle) as [[cb delay]|]; [| discriminate].
    pose proof (Timed_delete_timer handle (host σ) HT) as HT1.
    destruct cb as [j | sn j |].
    + destruct (take (is_creating j) (pending σ)) as [[t rest]|];
        apply Timed_Some; [| exact HT1].
      rewrite host_settle. by apply keeps__createWindow_timeout.
    + apply Timed_Some. rewrite host_settle. by apply keeps_poll_fired.
    + destruct (take (races_with handle) (pending σ)) as [[[] rest]|];
        apply Timed_Some; exact HT1.
Qed.

Lemma start_Timed (a : Args) : Timed (host (start a)).
Proof.
  split; cbn.
  - intros t [x Hx]. by rewrite lookup_empty in Hx.
  - intros sn t Ht. by rewrite lookup_empty in Ht.
  - intros sn t cb d Ht. by rewrite lookup_empty in Ht.
Qed.

Lemma run_Timed (evs : list (Event * string)) (σ σ' : System) :
  Timed (host σ) → Service.run evs σ = Some σ' → Timed (host σ').
Proof.
  revert σ. induction evs as [|[ev n] evs IH]; intros σ HT; cbn.
  - by intros [= <-].
  - destruct (step ev n σ) as [σ1|] eqn:Hstep; [| discriminate].
    apply IH. by eapply step_Timed.
Qed.

Lemma reachable_Timed (a : Args) (σ : System) : reachable a σ → Timed (host σ).
Proof. intros [evs Hrun]. eauto using run_Timed, start_Timed. Qed.

(** *** executeSnap from the call to its settling *)

Lemma jobs_delete_set_fresh (k : string) (v : EnvMetadata)
    (l : list (string * EnvMetadata)) :
  jobs_get l k = None → jobs_delete k (jobs_set k v l) = l.
Proof.
  induction l as [|[k0 v0] l IH]; cbn.
  - intros _. rewrite jobs_delete_cons. by rewrite String.eqb_refl.
  - destruct (String.eqb_spec k0 k) as [->|Hk]; [discriminate |].
    intros Hl. rewrite jobs_delete_cons.
    destruct (String.eqb_spec k0 k); [done |]. f_equal. by apply IH.
Qed.

Lemma remove_element_snoc (i : string) (doc : list string) :
  i ∉ doc → remove_element i (doc ++ [i]) = doc.
Proof.
  induction doc as [|y doc IH]; cbn.
  - intros _. by rewrite String.eqb_refl.
  - intros Hi. apply not_elem_of_cons in Hi as [Hne Hi].
    destruct (String.eqb_spec y i); [congruence |]. f_equal. by apply IH.
Qed.

Lemma Service_eq (s s' : Service) :
  _snapRpcHooks s = _snapRpcHooks s' → iframeUrl s = iframeUrl s' →
  jobs s = jobs s' → snapToJobMap s = snapToJobMap s' →
  jobToSnapMap s = jobToSnapMap s' →
  _createWindowTimeout s = _createWindowTimeout s' →
  _unresponsivePollingInterval s = _unresponsivePollingInterval s' →
  _unresponsiveTimeout s = _unresponsiveTimeout s' →
  _timeoutForUnresponsiveMap s = _timeoutForUnresponsiveMap s' →
  s = s'.
Proof. destruct s, s'. cbn. by intros -> -> -> -> -> -> -> -> ->. Qed.

Lemma reachable_fresh (a : Args) (σ : System) (s j : string) :
  reachable a σ → snapToJobMap (svc (host σ)) !! s = None → j ∉ minted σ →
  fresh_for (host σ) s j.
Proof.
  intros Hreach Hs Hj.
  pose proof (reachable_Inv a σ Hreach) as HI.
  pose proof (reachable_Timed a σ Hreach) as HT.
  assert (Hjob : jobs_get (jobs (svc (host σ))) j = None).
  { destruct (jobs_get (jobs (svc (host σ))) j) eqn:H; [| done].
    exfalso. apply Hj, (inv_jobs_minted HI). eauto. }
  split; try done.
  - destruct (_snapRpcHooks (svc (host σ)) !! s) eqn:H; [| done].
    destruct (inv_hooked HI s) as [? ?]; [eauto | congruence].
  - destruct (_timeoutForUnresponsiveMap (svc (host σ)) !! s) eqn:H; [| done].
    destruct (wf_timers (inv_wf HI) s) as [? ?]; [eauto | congruence].
  - destruct (jobToSnapMap (svc (host σ)) !! j) eqn:H; [| done].
    destruct (wf_jobs (inv_wf HI) j _ H) as [? ?]. congruence.
  - intros Hin. by apply Hj, (inv_doc_minted HI).
  - intros t Ht. destruct (timers (env (host σ)) !! t) eqn:H; [| done].
    assert (t < nextTimer (env (host σ)))%nat by (apply (t_fresh HT); eauto).
    lia.
Qed.

Lemma executeSnap_completed_run (d : SnapData) (faults : bool * bool * bool)
    (pong answer v : JsValue) (j id1 id2 : string) (h : Host) :
  snapToJobMap (svc h) !! snapId d = None → _command_result pong = Ok v →
  executeSnap_completed d (Loads faults pong answer) j id1 id2 h
  = finished (executeSnap_answered d j answer (commanded d j faults id1 id2 h)).
Proof.
  intros Hfree Hpong. unfold executeSnap_completed.
  rewrite executeSnap_run by done. rewrite _init_loaded_run.
  rewrite (executeSnap_spawned_run _ _ _ _ _ v); [reflexivity | | done].
  unfold answered, sent_to, spawned. proj. rewrite jobs_get_set_eq. eauto.
Qed.

Lemma commanded_svc (d : SnapData) (j : string) (faults : bool * bool * bool)
    (id1 id2 : string) (h : Host) :
  svc (commanded d j faults id1 id2 h)
  = upd_jobToSnap (insert j (snapId d))
      (upd_snapToJob (insert (snapId d) j)
         (upd_jobs (jobs_set j (mkEnvMetadata j j)) (svc h))).
Proof. reflexivity. Qed.


Lemma fresh_timers_restored (h : Host) (s j : string) (cb : TimerCallback * Z) :
  fresh_for h s j →
  delete (nextTimer (env h)) (<[nextTimer (env h) := cb]> (timers (env h)))
  = timers (env h).
Proof.
  intros Hf. rewrite delete_insert_eq. apply delete_id.
  by apply (fresh_handle Hf).
Qed.

Lemma commanded_job (d : SnapData) (j : string) (faults : bool * bool * bool)
    (id1 id2 : string) (h : Host) :
  jobs_get (jobs (svc (commanded d j faults id1 id2 h))) j
  = Some (mkEnvMetadata j j)
  ∧ jobToSnapMap (svc (commanded d j faults id1 id2 h)) !! j = Some (snapId d)
  ∧ snapToJobMap (svc (commanded d j faults id1 id2 h)) !! snapId d = Some j.
Proof.
  rewrite commanded_svc. proj.
  split; [apply jobs_get_set_eq |]. split; apply lookup_insert_eq.
Qed.



(** When the iframe does not load within [createWindowTimeout], the call
    rejects with "Timed out creating iframe window: ..." naming the iframe
    URL, the iframe is taken out of the document again, and the service,
    the streams, the pending timers and the messages sent are as they were
    before the call. *)
Theorem executeSnap_window_timeout (a : Args) (σ : System) (d : SnapData)
    (j id1 id2 : string) :
  reachable a σ →
  snapToJobMap (svc (host σ)) !! snapId d = None → j ∉ minted σ →
  let r := executeSnap_completed d TimesOut j id1 id2 (host σ) in
  fst r = Thrown (JErr ("Timed out creating iframe window: "
                        +:+ quoted (iframeUrl (svc (host σ)))))
  ∧ svc (snd r) = svc (host σ)
  ∧ document (env (snd r)) = document (env (host σ))
  ∧ timers (env (snd r)) = timers (env (host σ))
  ∧ heap (env (snd r)) = heap (env (host σ))
  ∧ sent (env (snd r)) = sent (env (host σ)).
Proof.
  intros Hreach Hfree Hj. cbn zeta.
  pose proof (reachable_fresh a σ (snapId d) j Hreach Hfree Hj) as Hf.
  unfold executeSnap_completed. rewrite executeSnap_run by done.
  unfold _createWindow_timeout, bind, modify, gets, throw, window_created.
  cbn [finished fst snd]. proj.
  split; [done |]. split; [done |].
  split; [apply remove_element_snoc, (fresh_iframe Hf) |].
  split; [by apply (fresh_timers_restored _ (snapId d) j) | done].
Qed.

Lemma executeSnap_window_timeout_witness :
  fst (executeSnap_completed snapA TimesOut "j1" "p1" "c1"
         (new_Host default_Args))
  = Thrown (JErr ("Timed out creating iframe window: "
                  +:+ quoted "https://iframe.example"))
  ∧ document (env (snd (executeSnap_completed snapA TimesOut "j1" "p1" "c1"
                          (new_Host default_Args)))) = [].
Proof.
  destruct (executeSnap_window_timeout default_Args (start default_Args) snapA
              "j1" "p1" "c1") as (Hr & _ & Hdoc & _).
  - by exists [].
  - reflexivity.
  - apply (bool_decide_unpack _). vm_compute. exact I.
  - split; [exact Hr | exact Hdoc].
Defined.

(** An id that [nanoid] may still return is not the empty string. *)
Lemma fresh_id_named (a : Args) (σ : System) (n : string) :
  reachable a σ → n ∉ minted σ → n ≠ "".
Proof.
  intros Hreach Hn ->. apply Hn. exact (f_minted (reachable_Filed a σ Hreach)).
Qed.

Lemma executeSnap_completed_ok (d : SnapData) (faults : bool * bool * bool)
    (pong answer v v' : JsValue) (j id1 id2 : string) (h : Host) :
  snapToJobMap (svc h) !! snapId d = None → j ≠ "" →
  _command_result pong = Ok v → _command_result answer = Ok v' →
  executeSnap_completed d (Loads faults pong answer) j id1 id2 h
  = (Ok v', executing d j faults id1 id2 h).
Proof.
  intros Hfree Hj Hpong Hanswer.
  rewrite (executeSnap_completed_run d faults pong answer v) by done.
  destruct (commanded_job d j faults id1 id2 h) as (_ & _ & Hmapped).
  by rewrite (executeSnap_answered_run d j j answer _ v').
Qed.

Lemma executing_svc (d : SnapData) (j : string) (faults : bool * bool * bool)
    (id1 id2 : string) (h : Host) :
  svc (executing d j faults id1 id2 h)
  = upd_hooks (insert (snapId d) (mkSnapRpcHook (snapId d) j))
      (upd_timeoutMap (insert (snapId d) (S (nextTimer (env h))))
         (upd_jobToSnap (insert j (snapId d))
            (upd_snapToJob (insert (snapId d) j)
               (upd_jobs (jobs_set j (mkEnvMetadata j j)) (svc h))))).
Proof. reflexivity. Qed.

Lemma executing_env (d : SnapData) (j : string) (faults : bool * bool * bool)
    (id1 id2 : string) (h : Host) :
  env (executing d j faults id1 id2 h)
  = mkPlatform (document (env h) ++ [j])
      (<[j := mkJobStreams (mkStream false faults.1.1 true)
                (Some (createStream faults.1.2)) (createStream faults.2)]>
         (heap (env h)))
      (<[S (nextTimer (env h)) :=
           (PollCallback (snapId d) j, _unresponsivePollingInterval (svc h))]>
         (delete (nextTimer (env h))
            (<[nextTimer (env h) :=
                 (WindowTimedOut j, _createWindowTimeout (svc h))]>
               (timers (env h)))))
      (S (S (nextTimer (env h))))
      (published (env h)) (provided (env h) ++ [(snapId d, j)])
      ((sent (env h) ++ [(j, request id1 "ping" [])])
       ++ [(j, request id2 "executeSnap" [("params", SnapData_to_js d)])])
      (unregister j id2
         (register j id2
            (unregister j id1 (register j id1 (idMap (env h)))))).
Proof. reflexivity. Qed.

(** A successful [executeSnap]: the first ping and then the [executeSnap]
    command are answered without an error, and the call resolves with the
    result of the command. By then the host has sent the job exactly these two requests,
    in this order; [setupSnapProvider] was called once, after the answer,
    with the snap id and the rpc stream of the job; the iframe of the job
    is the last child of the document; snap and job are mapped to each
    other, the hook of the snap is bound to the job, and the streams of the
    job are open with the error listener attached. *)
Theorem executeSnap_success (a : Args) (σ : System) (d : SnapData)
    (faults : bool * bool * bool) (pong answer v v' : JsValue)
    (j id1 id2 : string) :
  reachable a σ →
  snapToJobMap (svc (host σ)) !! snapId d = None → j ∉ minted σ →
  _command_result pong = Ok v → _command_result answer = Ok v' →
  let r := executeSnap_completed d (Loads faults pong answer) j id1 id2
             (host σ) in
  fst r = Ok v'
  ∧ sent (env (snd r))
    = sent (env (host σ))
      ++ [(j, request id1 "ping" []);
          (j, request id2 "executeSnap" [("params", SnapData_to_js d)])]
  ∧ provided (env (snd r)) = provided (env (host σ)) ++ [(snapId d, j)]
  ∧ document (env (snd r)) = document (env (host σ)) ++ [j]
  ∧ snapToJobMap (svc (snd r)) !! snapId d = Some j
  ∧ jobToSnapMap (svc (snd r)) !! j = Some (snapId d)
  ∧ getRpcMessageHandler (snapId d) (snd r) = Some (mkSnapRpcHook (snapId d) j)
  ∧ jobs (svc (snd r)) = jobs (svc (host σ)) ++ [(j, mkEnvMetadata j j)]
  ∧ (∃ js, heap (env (snd r)) !! j = Some js ∧ live js
           ∧ errorHandler_on (command js) = true)
  ∧ published (env (snd r)) = published (env (host σ)).
Proof.
  intros Hreach Hfree Hj Hpong Hanswer. cbn zeta.
  pose proof (fresh_id_named a σ j Hreach Hj) as Hne.
  pose proof (reachable_fresh a σ (snapId d) j Hreach Hfree Hj) as Hf.
  rewrite (executeSnap_completed_ok d faults pong answer v v') by done.
  cbn [fst snd]. split; [done |]. unfold getRpcMessageHandler.
  rewrite executing_svc, executing_env. proj.
  split; [by rewrite <- app_assoc |]. split; [done |]. split; [done |].
  split; [apply lookup_insert_eq |]. split; [apply lookup_insert_eq |].
  split; [apply lookup_insert_eq |]. split.
  - pose proof (fresh_job Hf) as Hjob. clear -Hjob.
    induction (jobs (svc (host σ))) as [|[k w] l IH]; [reflexivity |].
    cbn in Hjob |- *. destruct (String.eqb_spec k j); [discriminate |].
    f_equal. by apply IH.
  - split; [| done]. eexists. split; [apply lookup_insert_eq |].
    split; [| reflexivity]. split; [reflexivity |].
    split; [| reflexivity]. by intros r [= <-].
Qed.

Lemma executeSnap_success_witness :
  let r := executeSnap_completed snapA
             (Loads sound (ok_reply "p1") (ok_reply "c1")) "j1" "p1" "c1"
             (new_Host default_Args) in
  fst r = Ok (JStr "OK") ∧ provided (env (snd r)) = [("A", "j1")]
  ∧ document (env (snd r)) = ["j1"].
Proof.
  destruct (executeSnap_success default_Args (start default_Args) snapA sound
              (ok_reply "p1") (ok_reply "c1") (JStr "OK") (JStr "OK")
              "j1" "p1" "c1")
    as (Hr & _ & Hprovided & Hdoc & _).
  - by exists [].
  - reflexivity.
  - apply (bool_decide_unpack _). vm_compute. exact I.
  - reflexivity.
  - reflexivity.
  - split; [exact Hr |]. split; [exact Hprovided | exact Hdoc].
Defined.

Lemma terminateSnap_executing (d : SnapData) (j : string)
    (faults : bool * bool * bool) (id1 id2 : string) (h : Host) :
  snapId d ≠ "" → j ≠ "" →
  terminateSnap (snapId d) (executing d j faults id1 id2 h)
  = (Ok tt, terminated j (mkEnvMetadata j j) (snapId d)
              (executing d j faults id1 id2 h)).
Proof.
  intros Hs Hj. unfold terminateSnap, bind, gets. rewrite executing_svc. proj.
  rewrite lookup_insert_eq, (truthy_string_Some _ Hj).
  apply terminate_ok; [| | done]; rewrite executing_svc; proj;
    [apply jobs_get_set_eq | apply lookup_insert_eq].
Qed.

(** [executeSnap] followed by [terminateSnap] of the same snap is a round
    trip: [terminateSnap] does not throw, and the maps of the service, the
    document and the pending timers are again what they were before the
    snap was executed; the streams of the job are destroyed (unless their
    [destroy] threw). *)
Theorem executeSnap_then_terminateSnap (a : Args) (σ : System) (d : SnapData)
    (faults : bool * bool * bool) (pong answer v v' : JsValue)
    (j id1 id2 : string) :
  reachable a σ →
  snapToJobMap (svc (host σ)) !! snapId d = None → snapId d ≠ "" →
  j ∉ minted σ →
  _command_result pong = Ok v → _command_result answer = Ok v' →
  let h1 := snd (executeSnap_completed d (Loads faults pong answer) j id1 id2
                   (host σ)) in
  let r := terminateSnap (snapId d) h1 in
  fst r = Ok tt
  ∧ svc (snd r) = svc (host σ)
  ∧ document (env (snd r)) = document (env (host σ))
  ∧ timers (env (snd r)) = timers (env (host σ))
  ∧ (∃ js, heap (env (snd r)) !! j = Some js ∧ all_gone js).
Proof.
  intros Hreach Hfree Hs Hj Hpong Hanswer. cbn zeta.
  pose proof (fresh_id_named a σ j Hreach Hj) as Hne.
  pose proof (reachable_fresh a σ (snapId d) j Hreach Hfree Hj) as Hf.
  rewrite (executeSnap_completed_ok d faults pong answer v v') by done.
  cbn [snd]. rewrite terminateSnap_executing by done.
  cbn [fst snd]. split; [done |].
  rewrite terminated_svc, terminated_env, executing_svc, executing_env.
  cbn [id streams]. proj. rewrite lookup_insert_eq. proj.
  split; [| split; [| split]].
  - apply Service_eq; proj; try reflexivity.
    + rewrite delete_insert_eq. apply delete_id, (fresh_hook Hf).
    + apply jobs_delete_set_fresh, (fresh_job Hf).
    + rewrite delete_insert_eq. apply delete_id, (fresh_snap Hf).
    + rewrite delete_insert_eq. apply delete_id, (fresh_mapping Hf).
    + rewrite delete_insert_eq. apply delete_id, (fresh_timer Hf).
  - apply remove_element_snoc, (fresh_iframe Hf).
  - rewrite !delete_insert_eq.
    rewrite (delete_id (timers (env (host σ))) (nextTimer (env (host σ))))
      by (apply (fresh_handle Hf); lia).
    apply delete_id, (fresh_handle Hf). lia.
  - eexists. split; [rewrite lookup_alter_eq, lookup_insert_eq; reflexivity |].
    apply destroy_streams_gone.
Qed.

Lemma executeSnap_then_terminateSnap_witness :
  svc (snd (terminateSnap "A" seqA)) = svc (new_Host default_Args)
  ∧ document (env (snd (terminateSnap "A" seqA))) = [].
Proof.
  destruct (executeSnap_then_terminateSnap default_Args (start default_Args)
              snapA sound (ok_reply "p1") (ok_reply "c1") (JStr "OK")
              (JStr "OK") "j1" "p1" "c1")
    as (_ & Hsvc & Hdoc & _).
  - by exists [].
  - reflexivity.
  - discriminate.
  - apply (bool_decide_unpack _). vm_compute. exact I.
  - reflexivity.
  - reflexivity.
  - split; [exact Hsvc | exact Hdoc].
Defined.

(** *** A snap terminated while its job is being pinged *)

(** [terminate] cancels the poll timer stored for the snap, not the timeout
    of a ping that is in flight: when a snap is terminated while
    [_getJobStatus] awaits the answer of its job, the timeout still fires
    later and publishes [ServiceMessenger:unresponsive] for the snap,
    although by then the snap has no job, no mapping and no hook. *)
Theorem unresponsive_after_terminateSnap (a : Args) (σ : System)
    (sn j j' : string) (t : nat) (i : string) (delay : Z) (n1 n2 : string) :
  reachable a σ →
  JobStatus sn j t i ∈ pending σ →
  timers (env (host σ)) !! t = Some (PingTimedOut, delay) →
  snapToJobMap (svc (host σ)) !! sn = Some j' → sn ≠ "" → j' ≠ "" →
  n1 ∉ minted σ → n2 ∉ n1 :: minted σ →
  ∃ σ1 σ2,
    step (Call_terminateSnap sn) n1 σ = Some σ1
    ∧ step (TimerFires t) n2 σ1 = Some σ2
    ∧ results σ1 = results σ ++ [(Of_terminateSnap sn, Ok JUndefined)]
    ∧ snapToJobMap (svc (host σ1)) !! sn = None
    ∧ jobs_get (jobs (svc (host σ1))) j' = None
    ∧ getRpcMessageHandler sn (host σ1) = None
    ∧ published (env (host σ1)) = published (env (host σ))
    ∧ svc (host σ2) = svc (host σ1)
    ∧ published (env (host σ2)) = published (env (host σ)) ++ [Unresponsive sn].
Proof.
  intros Hreach Hin Ht Hmapped Hsn Hj' Hn1 Hn2.
  pose proof (reachable_Inv a σ Hreach) as HI.
  pose proof (reachable_Timed a σ Hreach) as HT.
  pose proof (wf_snaps (inv_wf HI) sn j' Hmapped) as Hback.
  destruct (wf_jobs (inv_wf HI) j' sn Hback) as [jw Hjw].
  destruct (race_is_unique a σ sn j t i Hreach Hin)
    as [(rest & Htake & _ & _) _].
  assert (Hrun : terminateSnap sn (host σ)
                 = (Ok tt, terminated j' jw sn (host σ))).
  { unfold terminateSnap, bind, gets.
    rewrite Hmapped, (truthy_string_Some _ Hj'). by apply terminate_ok. }
  assert (Hkept : timers (env (terminated j' jw sn (host σ))) !! t
                  = Some (PingTimedOut, delay)).
  { rewrite terminated_env.
    destruct (_timeoutForUnresponsiveMap (svc (host σ)) !! sn) as [t0|] eqn:Ht0;
      cbn; [| done].
    rewrite lookup_delete_ne; [done |]. intros ->.
    destruct (t_poll HT sn t _ _ Ht0 Ht) as [? [=]]. }
  assert (Hpub : published (env (terminated j' jw sn (host σ)))
                 = published (env (host σ))).
  { rewrite terminated_env.
    by destruct (_timeoutForUnresponsiveMap (svc (host σ)) !! sn). }
  eexists _, _. split.
  { unfold step. rewrite decide_False by done. cbn zeta. proj.
    rewrite Hrun. reflexivity. }
  split.
  { unfold step. rewrite decide_False by done. cbn zeta.
    cbn [settle_sync settle fst snd host pending minted confirmed results].
    rewrite Hkept, Htake. reflexivity. }
  cbn [settle_sync settle fst snd host pending minted confirmed results
       with_pending poll_timed_out publish bind modify ret].
  unfold getRpcMessageHandler. proj. rewrite terminated_svc. proj.
  split; [done |]. split; [apply lookup_delete_eq |].
  split; [apply jobs_get_delete_eq |]. split; [apply lookup_delete_eq |].
  split; [done |]. split; [done |]. by rewrite Hpub.
Qed.

Lemma unresponsive_after_terminateSnap_witness :
  ∃ σ1 σ2,
    step (Call_terminateSnap "A") "q2" sysP = Some σ1
    ∧ step (TimerFires 3) "q3" σ1 = Some σ2
    ∧ snapToJobMap (svc (host σ1)) !! "A" = None
    ∧ published (env (host σ2)) = [Unresponsive "A"].
Proof.
  destruct (unresponsive_after_terminateSnap default_Args sysP "A" "j1" "j1"
              3%nat "q1" 30000 "q2" "q3")
    as (σ1 & σ2 & H1 & H2 & _ & Hgone & _ & _ & _ & _ & Hpub);
    [exact sysP_reachable | rewrite sysP_pending; left
    | vm_compute; reflexivity | vm_compute; reflexivity
    | discriminate | discriminate
    | exact (proj1 sysP_fresh) | exact (proj2 sysP_fresh) |].
  exists σ1, σ2. split; [exact H1 |]. split; [exact H2 |].
  split; [exact Hgone |]. rewrite Hpub. vm_compute. reflexivity.
Defined.

(** *** Iframes and streams belong to jobs *)

Section housed.
Context (cr : list string).

Lemma houses_ret {A} (a : A) : houses cr (ret a).
Proof. by intros h. Qed.

Lemma houses_throw {A} (e : JsValue) : houses cr (@throw Host A e).
Proof. by intros h. Qed.

Lemma houses_bind {A B} (m : M Host A) (k : A → M Host B) :
  houses cr m → (∀ a, houses cr (k a)) → houses cr (bind m k).
Proof.
  intros Hm Hk h HH. unfold bind. specialize (Hm h HH).
  destruct (m h) as [[a|e] h1]; cbn [snd] in *; [by apply Hk | done].
Qed.

Lemma houses_try_catch {A} (m : M Host A) (k : JsValue → M Host A) :
  houses cr m → (∀ e, houses cr (k e)) → houses cr (try_catch m k).
Proof.
  intros Hm Hk h HH. unfold try_catch. specialize (Hm h HH).
  destruct (m h) as [[a|e] h1]; cbn [snd] in *; [done | by apply Hk].
Qed.

(** A computation that leaves the jobs, the document and the streams. *)
Lemma houses_frame {A} (m : M Host A) :
  (∀ h, jobs (svc (snd (m h))) = jobs (svc h)
        ∧ document (env (snd (m h))) = document (env h)
        ∧ heap (env (snd (m h))) = heap (env h)) →
  houses cr m.
Proof.
  intros Hm h HH. unfold Housed. by destruct (Hm h) as (-> & -> & ->).
Qed.

Lemma houses_clearTimeout (o : option nat) : houses cr (clearTimeout o).
Proof. destruct o; by apply houses_frame. Qed.

Lemma houses_alter (j : string) (f : JobStreams → JobStreams) :
  (∀ s, all_gone s → all_gone (f s)) →
  houses cr (modify (on_env (upd_heap (alter f j)))).
Proof.
  intros Hf h [Hnd Hrec Hcr Hdoc Hcreating Hheap]. unfold Housed, modify. proj.
  split; try done. intros j' s Hs.
  destruct (decide (j = j')) as [<- | Hne].
  - rewrite lookup_alter_eq in Hs.
    destruct (heap (env h) !! j) as [s0|] eqn:Hs0; [| done].
    injection Hs as <-. destruct (Hheap j s0 Hs0) as [? | Hgone]; [by left |].
    right. by apply Hf.
  - rewrite lookup_alter_ne in Hs by done. eauto.
Qed.

Lemma houses_detach (j : string) :
  houses cr (modify (on_env (upd_heap (alter (set_errorHandler false) j)))).
Proof. by apply houses_alter. Qed.

Lemma fail_command_gone (s : JobStreams) : all_gone s → all_gone (fail_command s).
Proof.
  intros (_ & Hrpc & Hconn). split; [| done]. unfold gone, fail_command.
  cbn [command]. unfold pump_destroy.
  destruct (destroyed (command s)) eqn:Hd; [by left |].
  destruct (destroy_throws (command s)) eqn:Ht; [by right | by left].
Qed.

Lemma Housed_terminated (j : string) (jw : EnvMetadata) (s : string)
    (h : Host) :
  jobs_get (jobs (svc h)) j = Some jw →
  Housed h cr → Housed (terminated j jw s h) cr.
Proof.
  intros Hjw [Hnd Hrec Hcr Hdoc Hcreating Hheap].
  destruct (Hrec j jw Hjw) as [Hid Hstreams].
  unfold Housed. rewrite terminated_svc, terminated_env, Hid, Hstreams.
  assert (HH : Housed_at (jobs_delete j (jobs (svc h)))
                 (remove_element j (document (env h)))
                 (alter destroy_streams j (heap (env h))) cr).
  { split.
    - by apply remove_element_NoDup.
    - intros j' jw' Hj'. destruct (decide (j = j')) as [<- | Hne].
      + by rewrite jobs_get_delete_eq in Hj'.
      + rewrite jobs_get_delete_ne in Hj' by done. eauto.
    - done.
    - intros j'. destruct (decide (j = j')) as [<- | Hne].
      + rewrite jobs_get_delete_eq. split.
        * intros Hin. by apply remove_element_gone in Hin.
        * intros [[? [=]] | Hin]. apply Hcreating in Hin. congruence.
      + rewrite jobs_get_delete_ne by done.
        rewrite remove_element_other by done. apply Hdoc.
    - intros j' Hin. destruct (decide (j = j')) as [<- | Hne].
      + apply jobs_get_delete_eq.
      + rewrite jobs_get_delete_ne by done. by apply Hcreating.
    - intros j' s' Hs'. destruct (decide (j = j')) as [<- | Hne].
      + rewrite lookup_alter_eq in Hs'.
        destruct (heap (env h) !! j) as [s0|]; [| done]. injection Hs' as <-.
        right. apply destroy_streams_gone.
      + rewrite lookup_alter_ne in Hs' by done.
        rewrite jobs_get_delete_ne by done. eauto. }
  by destruct (_timeoutForUnresponsiveMap (svc h) !! s).
Qed.

Lemma houses_terminate (j : string) : houses cr (terminate j).
Proof.
  intros h HH.
  destruct (terminate_cases j h) as [[e ->] | (jw & sn & Hjw & _ & _ & ->)];
    [done | by apply Housed_terminated].
Qed.

End housed.

(** Takes a computation apart into the steps above. *)
Ltac houses_tac :=
  repeat first
    [ apply houses_ret | apply houses_throw
    | apply houses_terminate | apply houses_clearTimeout | apply houses_detach
    | apply houses_frame; intros ?; repeat split; reflexivity
    | apply houses_bind | apply houses_try_catch
    | match goal with |- ∀ _, _ => intros ? end
    | case_match ].

Lemma yields_ret {A} (ok : A → Prop) (a : A) : ok a → yields ok (ret a).
Proof. by intros Ha h a' [= <-]. Qed.

Lemma yields_throw {A} (ok : A → Prop) (e : JsValue) : yields ok (throw e).
Proof. by intros h a. Qed.

Lemma yields_bind {A B} (ok : B → Prop) (m : M Host A) (k : A → M Host B) :
  (∀ a, yields ok (k a)) → yields ok (bind m k).
Proof.
  intros Hk h b. unfold bind. destruct (m h) as [[a|e] h1]; [apply Hk | done].
Qed.

Lemma yields_try_catch {A} (ok : A → Prop) (m : M Host A)
    (k : JsValue → M Host A) :
  yields ok m → (∀ e, yields ok (k e)) → yields ok (try_catch m k).
Proof.
  intros Hm Hk h a. unfold try_catch. specialize (Hm h).
  destruct (m h) as [[a'|e] h1]; [apply Hm | apply Hk].
Qed.

Ltac yields_tac :=
  repeat first
    [ apply yields_ret; done | apply yields_throw
    | apply yields_bind | apply yields_try_catch
    | match goal with |- ∀ _, _ => intros ? end
    | case_match ].

Lemma Housed_perm (h : Host) (cr cr' : list string) :
  cr ≡ₚ cr' → Housed h cr → Housed h cr'.
Proof.
  intros Hp [Hnd Hrec Hcr Hdoc Hcreating Hheap]. split; try done.
  - by rewrite <- Hp.
  - intros j. rewrite <- Hp. apply Hdoc.
  - intros j. rewrite <- Hp. apply Hcreating.
Qed.

Lemma houses_terminateSnap cr (sn : string) : houses cr (terminateSnap sn).
Proof. unfold terminateSnap. houses_tac. Qed.

Lemma houses_for_of_terminate cr (ks : list string) :
  houses cr (for_of ks terminate).
Proof.
  induction ks as [|k ks IH]; cbn [for_of]; [apply houses_ret |].
  apply houses_bind; [apply houses_terminate | by intros _].
Qed.

Lemma houses_terminateAllSnaps cr : houses cr terminateAllSnaps.
Proof.
  unfold terminateAllSnaps. apply houses_bind; [by apply houses_frame |].
  intros ks. apply houses_bind; [apply houses_for_of_terminate |].
  intros _. by apply houses_frame.
Qed.

Lemma houses__command_send cr (j : string) (message : JsValue) :
  houses cr (_command_send j message).
Proof. unfold _command_send. houses_tac. Qed.

Lemma houses__pollForJobStatus cr (sn : string) :
  houses cr (_pollForJobStatus sn).
Proof.
  apply houses_frame. intros h.
  by destruct (_pollForJobStatus_run sn h) as [[e ->] | (_ & j & _ & ->)].
Qed.

Lemma houses_executeSnap_spawned cr (d : SnapData) (j : string) (r : JsValue)
    (n : string) :
  houses cr (executeSnap_spawned d j r n).
Proof.
  unfold executeSnap_spawned, _mapSnapAndJob. houses_tac.
  all: apply houses__command_send.
Qed.

Lemma houses_executeSnap_answered cr (d : SnapData) (j : string)
    (r : JsValue) :
  houses cr (executeSnap_answered d j r).
Proof.
  unfold executeSnap_answered, setupSnapProvider, _createSnapHooks.
  houses_tac. all: apply houses__pollForJobStatus.
Qed.

Lemma houses_poll_fired cr (sn j n : string) : houses cr (poll_fired sn j n).
Proof.
  unfold poll_fired, publish. houses_tac. all: apply houses__command_send.
Qed.

Lemma houses_poll_answered cr (sn : string) (t : nat) (r : JsValue) :
  houses cr (poll_answered sn t r).
Proof.
  unfold poll_answered, publish. houses_tac.
  all: apply houses__pollForJobStatus.
Qed.

Lemma houses_rpcHook cr (hook : SnapRpcHook) (origin : string) (r : JsValue)
    (n : string) :
  houses cr (rpcHook hook origin r n).
Proof. unfold rpcHook. houses_tac. all: apply houses__command_send. Qed.

Lemma houses_rpcHook_answered cr (r : JsValue) :
  houses cr (rpcHook_answered r).
Proof. unfold rpcHook_answered. houses_tac. Qed.

Lemma houses_emit_data cr (j : string) (data : JsValue) :
  houses cr (emit_data j data).
Proof. unfold emit_data, errorHandler, publish. houses_tac. Qed.

Lemma arrive_Housed cr (j : string) (data : JsValue) (h h' : Host)
    (a : Arrival) :
  arrive j data h = Some (a, h') → Housed h cr → Housed h' cr.
Proof.
  intros Harr HH. apply arrive_effect in Harr as (_ & id_ & _ & Ha).
  pose proof (houses_emit_data cr j data h HH) as HH1.
  destruct a as [| key |].
  - by destruct Ha as (_ & ->).
  - by destruct Ha as (_ & _ & _ & ->).
  - destruct Ha as (_ & _ & ->).
    by apply (houses_alter cr j fail_command fail_command_gone).
Qed.

Lemma houses_resume cr (t : Task) (r : JsValue) (n : string) :
  houses cr (resume t r n).
Proof.
  destruct t; cbn [resume];
    auto using houses_executeSnap_spawned, houses_executeSnap_answered,
      houses_poll_answered, houses_rpcHook_answered, houses_ret.
Qed.

Lemma yields_resume (t : Task) (r : JsValue) (n : string) :
  yields settled (resume t r n).
Proof.
  destruct t; cbn [resume]; unfold executeSnap_spawned, executeSnap_answered,
    poll_answered, rpcHook_answered; yields_tac.
Qed.

Lemma yields_poll_fired (sn j n : string) : yields settled (poll_fired sn j n).
Proof. unfold poll_fired. yields_tac. Qed.

Lemma yields_rpcHook (hook : SnapRpcHook) (origin : string) (r : JsValue)
    (n : string) :
  yields settled (rpcHook hook origin r n).
Proof. unfold rpcHook. yields_tac. Qed.

Lemma pending_settle (c : Call) (r : Result Progress * Host) (σ : System) :
  pending (settle c r σ) = pending σ ++ awaited r.
Proof. destruct r as [[[t|v]|e] h]; cbn; by rewrite ?app_nil_r. Qed.

Lemma pending_settle_sync (c : Call) (r : Result unit * Host) (σ : System) :
  pending (settle_sync c r σ) = pending σ.
Proof.
  unfold settle_sync. rewrite pending_settle.
  destruct r as [[[]|e] h]; apply app_nil_r.
Qed.

Lemma pending_confirm (t : Task) (r : JsValue) (σ : System) :
  pending (confirm t r σ) = pending σ.
Proof. unfold confirm. by repeat case_match. Qed.

Lemma awaited_settled {A : Type} (m : M Host Progress) (h : Host) :
  yields settled m → omap creating (awaited (m h)) = [].
Proof.
  intros Hm. unfold awaited. specialize (Hm h).
  destruct (fst (m h)) as [[t|v]|e]; try reflexivity.
  cbn. by rewrite (Hm (Await t) eq_refl).
Qed.

(** The outcome of a stretch that does not wait for a window. *)
Lemma Housed_settle (c : Call) (m : M Host Progress) (h : Host) (σ : System) :
  houses (omap creating (pending σ)) m → yields settled m →
  Housed h (omap creating (pending σ)) →
  Housed_sys (settle c (m h) σ).
Proof.
  intros Hm Hy HH. unfold Housed_sys.
  rewrite host_settle, pending_settle, omap_app.
  rewrite (awaited_settled (A := unit) m h Hy), app_nil_r. by apply Hm.
Qed.

Lemma Housed_settle_sync (c : Call) (m : M Host unit) (h : Host) (σ : System) :
  houses (omap creating (pending σ)) m →
  Housed h (omap creating (pending σ)) →
  Housed_sys (settle_sync c (m h) σ).
Proof.
  intros Hm HH. unfold Housed_sys.
  rewrite host_settle_sync, pending_settle_sync. by apply Hm.
Qed.

Lemma executeSnap_Housed (d : SnapData) (n : string) (h : Host) cr :
  n ∉ document (env h) → jobs_get (jobs (svc h)) n = None →
  Housed h cr →
  Housed (snd (executeSnap d n h))
    (cr ++ omap creating (awaited (executeSnap d n h))).
Proof.
  intros Hdoc Hjob HH. unfold executeSnap, bind, gets.
  destruct (snapToJobMap (svc h) !! snapId d).
  { cbn. by rewrite app_nil_r. }
  unfold _createWindow, bind, gets, setTimeout, modify, awaited, Housed.
  cbn [fst snd ret]. proj.
  change (omap creating [CreatingWindow d n (nextTimer (env h))]) with [n].
  destruct HH as [Hnd Hrec Hcr Hd Hcreating Hheap].
  assert (Hn : n ∉ cr) by (intros Hin; apply Hdoc, Hd; by right).
  split; try done.
  - apply NoDup_app. split; [done |]. split; [| apply NoDup_singleton].
    intros x Hx Hx'. apply list_elem_of_singleton in Hx' as ->. done.
  - apply NoDup_app. split; [done |]. split; [| apply NoDup_singleton].
    intros x Hx Hx'. apply list_elem_of_singleton in Hx' as ->. done.
  - intros j. rewrite !elem_of_app, !list_elem_of_singleton.
    specialize (Hd j). tauto.
  - intros j Hj. apply elem_of_app in Hj as [Hj | Hj]; [by apply Hcreating |].
    by apply list_elem_of_singleton in Hj as ->.
Qed.

Lemma _init_loaded_Housed (d : SnapData) (j : string) (t : nat)
    (faults : bool * bool * bool) (n : string) (h : Host) cr :
  Housed h (j :: cr) → Housed (snd (_init_loaded d j t faults n h)) cr.
Proof.
  intros [Hnd Hrec Hcr Hd Hcreating Hheap]. rewrite _init_loaded_run.
  cbn [snd]. unfold Housed, sent_to, spawned. proj.
  apply NoDup_cons in Hcr as [Hj Hcr]. split; try done.
  - intros j' jw. destruct (decide (j = j')) as [<- | Hne].
    + rewrite jobs_get_set_eq. by intros [= <-].
    + rewrite jobs_get_set_ne by done. apply Hrec.
  - intros j'. destruct (decide (j = j')) as [<- | Hne].
    + rewrite jobs_get_set_eq. split; [eauto |]. intros _. apply Hd. right. left.
    + rewrite jobs_get_set_ne by done. specialize (Hd j').
      rewrite elem_of_cons in Hd. intuition congruence.
  - intros j' Hj'. rewrite jobs_get_set_ne; [apply Hcreating; by right |].
    by intros <-.
  - intros j' s. destruct (decide (j = j')) as [<- | Hne].
    + rewrite jobs_get_set_eq. eauto.
    + rewrite lookup_insert_ne, jobs_get_set_ne by done. apply Hheap.
Qed.

Lemma _createWindow_timeout_Housed (j : string) (h : Host) cr :
  Housed h (j :: cr) → Housed (snd (_createWindow_timeout j h)) cr.
Proof.
  intros [Hnd Hrec Hcr Hd Hcreating Hheap].
  unfold _createWindow_timeout, bind, modify, gets, throw. cbn [snd].
  unfold Housed. proj. apply NoDup_cons in Hcr as [Hj Hcr].
  split; try done.
  - by apply remove_element_NoDup.
  - intros j'. destruct (decide (j = j')) as [<- | Hne].
    + split; [intros Hin; by apply remove_element_gone in Hin |].
      intros [[? Hjob] | Hin]; [| done].
      rewrite Hcreating in Hjob; [done | left].
    + rewrite remove_element_other by done. specialize (Hd j').
      rewrite elem_of_cons in Hd. intuition congruence.
  - intros j' Hj'. apply Hcreating. by right.
Qed.

Lemma take_creating (f : Task → bool) (p : list Task) (t : Task)
    (rest : list Task) :
  take f p = Some (t, rest) →
  omap creating p ≡ₚ omap creating [t] ++ omap creating rest.
Proof.
  intros Htake. apply take_perm in Htake as [Hp _].
  rewrite <- omap_app. by apply omap_Permutation.
Qed.

Lemma Housed_sys_Some (σ σ' : System) :
  Housed_sys σ → Some σ = Some σ' → Housed_sys σ'.
Proof. by intros HH [= <-]. Qed.

Lemma step_Housed (ev : Event) (n : string) (σ σ' : System) :
  Inv σ → Housed_sys σ → step ev n σ = Some σ' → Housed_sys σ'.
Proof.
  intros HI HH. unfold step. case_decide as Hn; [discriminate |].
  set (σ1 := mkSystem (host σ) (pending σ) (n :: minted σ) (confirmed σ)
                      (results σ)).
  assert (HH1 : Housed (host σ1) (omap creating (pending σ1))) by exact HH.
  cbn zeta. fold σ1.
  destruct ev as [d | sn | j | | sn origin rq | j faults | j data | t].
  - apply Housed_sys_Some. unfold Housed_sys.
    rewrite host_settle, pending_settle, omap_app.
    apply executeSnap_Housed; [| | exact HH1].
    + intros Hin. by apply Hn, (inv_doc_minted HI).
    + destruct (jobs_get (jobs (svc (host σ))) n) eqn:Hjob; [| done].
      exfalso. apply Hn, (inv_jobs_minted HI). eauto.
  - apply Housed_sys_Some, Housed_settle_sync; [apply houses_terminateSnap | done].
  - apply Housed_sys_Some, Housed_settle_sync; [apply houses_terminate | done].
  - apply Housed_sys_Some, Housed_settle_sync;
      [apply houses_terminateAllSnaps | done].
  - destruct (getRpcMessageHandler sn (host σ1)); [| discriminate].
    apply Housed_sys_Some, Housed_settle;
      [apply houses_rpcHook | apply yields_rpcHook | done].
  - destruct (take (is_creating j) (pending σ1)) as [[[d j' tm | | | |] rest]|]
      eqn:Htake; try discriminate.
    apply Housed_sys_Some. unfold Housed_sys.
    rewrite host_settle, pending_settle, omap_app. cbn [pending with_pending].
    rewrite _init_loaded_run. cbn [awaited fst omap creating]. rewrite app_nil_r.
    rewrite <- (_init_loaded_run d j' tm faults n).
    apply _init_loaded_Housed. eapply Housed_perm; [| exact HH1].
    exact (take_creating _ _ _ _ Htake).
  - destruct (arrive j data (host σ1)) as [[arrival h1]|] eqn:Harr;
      [| discriminate].
    pose proof (arrive_Housed _ _ _ _ _ _ Harr HH1) as HH2.
    destruct arrival as [| key |]; try (apply Housed_sys_Some; exact HH2).
    destruct (take (awaits_response j key) (pending σ1)) as [[tk rest]|]
      eqn:Htake; [| apply Housed_sys_Some; exact HH2].
    destruct (handled data) as [response|]; [| discriminate].
    apply Housed_sys_Some. unfold Housed_sys.
    rewrite host_confirm, pending_confirm.
    apply (Housed_settle _ (resume tk response n) h1 (with_pending rest σ1));
      [apply houses_resume | apply yields_resume |].
    cbn [pending with_pending]. eapply Housed_perm; [| exact HH2].
    rewrite (take_creating _ _ _ _ Htake).
    apply take_perm in Htake as [_ Hf]. by destruct tk.
  - destruct (timers (env (host σ1)) !! t) as [[callback delay]|];
      [| discriminate].
    set (h1 := on_env (upd_timers (delete t)) (host σ1)).
    assert (HH2 : Housed h1 (omap creating (pending σ1))) by exact HH1.
    destruct callback as [j | sn j |].
    + destruct (take (is_creating j) (pending σ1)) as [[tk rest]|] eqn:Htake;
        [| apply Housed_sys_Some; exact HH2].
      apply Housed_sys_Some. unfold Housed_sys.
      rewrite host_settle, pending_settle, omap_app. cbn [pending with_pending].
      assert (Hnone : awaited (_createWindow_timeout j h1) = []) by reflexivity.
      rewrite Hnone. cbn [omap]. rewrite app_nil_r.
      apply _createWindow_timeout_Housed. eapply Housed_perm; [| exact HH2].
      rewrite (take_creating _ _ _ _ Htake).
      apply take_perm in Htake as [_ Hf].
      destruct tk as [d j' tm | | | |]; try discriminate.
      cbn in Hf. by apply String.eqb_eq in Hf as ->.
    + apply Housed_sys_Some, Housed_settle;
        [apply houses_poll_fired | apply yields_poll_fired | done].
    + destruct (take (races_with t) (pending σ1)) as [[[] rest]|] eqn:Htake;
        try (apply Housed_sys_Some; exact HH2).
      apply Housed_sys_Some. unfold Housed_sys.
      rewrite host_settle, pending_settle. cbn [pending with_pending].
      assert (Hnone : ∀ s, awaited (poll_timed_out s h1) = []) by reflexivity.
      rewrite Hnone, app_nil_r. eapply Housed_perm; [| exact HH2].
      by rewrite (take_creating _ _ _ _ Htake).
Qed.

Lemma start_Housed (a : Args) : Housed_sys (start a).
Proof.
  split; cbn; try done; try apply NoDup_nil_2.
  intros j. split; [intros H; inversion H |].
  intros [[? [=]] | H]; inversion H.
Qed.

Lemma run_Housed (evs : list (Event * string)) (σ σ' : System) :
  Inv σ → Housed_sys σ → Service.run evs σ = Some σ' → Housed_sys σ'.
Proof.
  revert σ. induction evs as [|[ev n] evs IH]; intros σ HI HH; cbn.
  - by intros [= <-].
  - destruct (step ev n σ) as [σ1|] eqn:Hstep; [| discriminate].
    apply IH; eauto using step_Inv, step_Housed.
Qed.

Lemma reachable_Housed (a : Args) (σ : System) :
  reachable a σ → Housed_sys σ.
Proof.
  intros [evs Hrun]. eauto using run_Housed, start_Housed, start_Inv.
Qed.

Lemma sysAB_reachable : reachable default_Args sysAB.
Proof.
  exists (runsA ++ [(Call_executeSnap (mkSnapData "B" "1"), "j2");
                    (IframeLoad "j2" sound, "p2")]).
  vm_compute. reflexivity.
Qed.

Lemma terminateAllSnaps_stops_at_unmapped_job_witness :
  ∃ h',
    terminateAllSnaps (host sysAB)
    = (Thrown (JErr ("Failed to find a snap for job with id " +:+ quoted "j2")),
       h')
    ∧ jobs (svc h') = [("j2", mkEnvMetadata "j2" "j2")].
Proof.
  destruct (terminateAllSnaps_stops_at_unmapped_job (host sysAB)
              [("j1", mkEnvMetadata "j1" "j1")] [] "j2"
              (mkEnvMetadata "j2" "j2"))
    as (h' & Hrun & Hjobs & _).
  - exact (inv_wf (reachable_Inv _ _ sysAB_reachable)).
  - vm_compute. reflexivity.
  - intros j' Hj'. apply list_elem_of_singleton in Hj' as ->.
    exists "A". split; [vm_compute; reflexivity | discriminate].
  - vm_compute. reflexivity.
  - exists h'. split; [exact Hrun | exact Hjobs].
Defined.

(** *** What every state of the service satisfies, continued *)

(** In every state the service reaches, the document holds exactly one
    iframe for each job of the jobs map and for each call of [executeSnap]
    that still waits for its window, and no other: an iframe never outlives
    its job, and no job is without its iframe. *)
Theorem document_holds_the_iframes_of_jobs (a : Args) (σ : System) :
  reachable a σ →
  NoDup (document (env (host σ)))
  ∧ ∀ j, j ∈ document (env (host σ))
         ↔ (is_Some (jobs_get (jobs (svc (host σ))) j)
            ∨ ∃ d t, CreatingWindow d j t ∈ pending σ).
Proof.
  intros Hreach. destruct (reachable_Housed a σ Hreach) as [Hnd _ _ Hdoc _ _].
  split; [done |]. intros j. rewrite (Hdoc j), list_elem_of_omap.
  split; (intros [? | Hc]; [by left | right]).
  - destruct Hc as ([d j' t | | | |] & Hin & [= ->]). eauto.
  - destruct Hc as (d & t & Hin). by exists (CreatingWindow d j t).
Qed.

Lemma document_holds_the_iframes_of_jobs_witness :
  "j2" ∈ document (env (host sysAB))
  ↔ (is_Some (jobs_get (jobs (svc (host sysAB))) "j2")
     ∨ ∃ d t, CreatingWindow d "j2" t ∈ pending sysAB).
Proof.
  exact (proj2 (document_holds_the_iframes_of_jobs default_Args sysAB
                  sysAB_reachable) "j2").
Defined.

(** In every state the service reaches, every job of the jobs map has its
    stream objects, and the streams of every other job the service ever
    made are destroyed (unless their [destroy] threw): no open stream is
    left without a job. *)
Theorem no_open_stream_without_job (a : Args) (σ : System) :
  reachable a σ →
  (∀ j, is_Some (jobs_get (jobs (svc (host σ))) j) →
        is_Some (heap (env (host σ)) !! j))
  ∧ (∀ j s, heap (env (host σ)) !! j = Some s →
            jobs_get (jobs (svc (host σ))) j = None → all_gone s).
Proof.
  intros Hreach.
  destruct (reachable_Housed a σ Hreach) as [_ _ _ _ _ Hheap].
  split; [exact (inv_streams (reachable_Inv a σ Hreach)) |].
  intros j s Hs Hjob. destruct (Hheap j s Hs) as [[? ?] | ?]; [| done].
  congruence.
Qed.

Lemma sysT_reachable : reachable default_Args sysT.
Proof.
  exists (runsA ++ [(Call_terminateSnap "A", "q1")]). vm_compute. reflexivity.
Qed.

Lemma no_open_stream_without_job_witness :
  ∃ s, heap (env (host sysT)) !! "j1" = Some s
       ∧ jobs_get (jobs (svc (host sysT))) "j1" = None ∧ all_gone s.
Proof.
  exists (mkJobStreams (mkStream true false false)
                       (Some (mkStream true false false))
                       (mkStream true false false)).
  assert (Hs : heap (env (host sysT)) !! "j1"
               = Some (mkJobStreams (mkStream true false false)
                         (Some (mkStream true false false))
                         (mkStream true false false)))
    by (vm_compute; reflexivity).
  assert (Hjob : jobs_get (jobs (svc (host sysT))) "j1" = None)
    by (vm_compute; reflexivity).
  split; [exact Hs |]. split; [exact Hjob |].
  exact (proj2 (no_open_stream_without_job default_Args sysT sysT_reachable)
           "j1" _ Hs Hjob).
Defined.

(** In every state the service reaches, a liveness timer handle is stored
    only for a snap that is mapped, and if the timer of the stored handle
    is still pending it is the poll of that very snap: the [clearTimeout]
    of [terminate] never cancels the timer of another snap or call. *)
Theorem stored_handle_is_the_poll_of_the_snap (a : Args) (σ : System)
    (sn : string) (t : nat) :
  reachable a σ →
  _timeoutForUnresponsiveMap (svc (host σ)) !! sn = Some t →
  is_Some (snapToJobMap (svc (host σ)) !! sn)
  ∧ ∀ cb d, timers (env (host σ)) !! t = Some (cb, d) →
            ∃ j, cb = PollCallback sn j.
Proof.
  intros Hreach Ht. split.
  - apply (wf_timers (inv_wf (reachable_Inv a σ Hreach))). eauto.
  - intros cb d. by apply (t_poll (reachable_Timed a σ Hreach)).
Qed.

Lemma stored_handle_is_the_poll_of_the_snap_witness :
  is_Some (snapToJobMap (svc (host sysA)) !! "A")
  ∧ ∃ j, PollCallback "A" "j1" = PollCallback "A" j.
Proof.
  destruct (stored_handle_is_the_poll_of_the_snap default_Args sysA "A" 2%nat
              sysA_reachable) as [Hmapped Hpoll]; [vm_compute; reflexivity |].
  split; [exact Hmapped |].
  apply (Hpoll (PollCallback "A" "j1") 5000). vm_compute. reflexivity.
Defined.

(** *** Replies and the requests they answer *)

(** In every state the service reaches, the reply to the request of a
    pending call, on the open command substream of its job, goes to that
    call and to no other: the call goes on with what the engine made of the
    reply, and the other pending calls stay as they are. *)
Theorem reply_reaches_its_call (a : Args) (σ : System) (t : Task)
    (j i : string) (js : JobStreams) (data response : JsValue) (n : string) :
  reachable a σ →
  t ∈ pending σ → awaited_request t = Some (j, i) →
  heap (env (host σ)) !! j = Some js → destroyed (command js) = false →
  get data "id" = Some (JStr i) → handled data = Some response →
  n ∉ minted σ →
  ∃ rest,
    pending σ ≡ₚ t :: rest
    ∧ (∀ x, x ∈ rest → awaits_response j i x = false)
    ∧ step (CommandData j data) n σ
      = Some (confirm t response
                (settle (call_of t)
                   (resume t response n
                      (on_env (upd_idMap (unregister j i)) (host σ)))
                   (mkSystem (host σ) rest (n :: minted σ) (confirmed σ)
                             (results σ)))).
Proof.
  intros Hreach Hin Ht Hjs Hopen Hid Hhandled Hn.
  destruct (reachable_Distinct a σ Hreach) as [Hids _ _ _].
  destruct (f_filed (reachable_Filed a σ Hreach) j i) as [Hi Hfiled].
  { apply list_elem_of_omap. by exists t. }
  destruct (take_the_one (awaits_response j i) request_id i t (pending σ))
    as (rest & Htake & Hp);
    [apply awaits_response_key | by apply awaits_response_awaited | done.. |].
  exists rest. split; [done |].
  split; [by apply (take_awaits_only j i (pending σ) t rest) |].
  unfold step. rewrite decide_False by done. cbn zeta. proj.
  rewrite (arrive_with_id j data i (host σ) js) by done.
  rewrite (truthy_JStr i Hi), Hfiled. cbn [negb].
  by rewrite Htake, Hhandled.
Qed.

Lemma reply_reaches_its_call_witness :
  ∃ σ', step (CommandData "j1" (ok_reply "q1")) "q2" sysP = Some σ'
        ∧ pending σ' = [] ∧ published (env (host σ')) = []
        ∧ timers (env (host σ')) !! 4%nat = Some (PollCallback "A" "j1", 5000).
Proof.
  destruct (reply_reaches_its_call default_Args sysP
              (JobStatus "A" "j1" 3 "q1") "j1" "q1"
              (mkJobStreams (mkStream false false true)
                            (Some (createStream false)) (createStream false))
              (ok_reply "q1")
              (JObj [("result", JStr "OK"); ("error", JUndefined)]) "q2")
    as (rest & Hp & _ & Hstep);
    [exact sysP_reachable | rewrite sysP_pending; left | reflexivity
    | vm_compute; reflexivity | reflexivity | reflexivity | reflexivity
    | exact (proj1 sysP_fresh) |].
  rewrite sysP_pending in Hp. apply Permutation_cons_inv, Permutation_nil_l in Hp.
  subst rest. eexists. split; [exact Hstep |]. vm_compute. repeat split.
Defined.

(** A message on the command substream of a job whose id no request of the
    job is filed under cuts the service off from the job: the stream
    middleware fails and the command substream is destroyed, the service
    itself (jobs, mapping, hooks, liveness timers) and the pending calls
    stay as they are, nothing is read from the job any more, and a call of
    a hook of the job sends its request and never settles. *)
Theorem stray_reply_cuts_off (σ : System) (j : string) (js : JobStreams)
    (data id_ : JsValue) (n : string) :
  heap (env (host σ)) !! j = Some js →
  destroyed (command js) = false → destroy_throws (command js) = false →
  get data "id" = Some id_ → truthy id_ = true →
  registered j (toString id_) (idMap (env (host σ))) = false →
  n ∉ minted σ →
  ∃ σ',
    step (CommandData j data) n σ = Some σ'
    ∧ svc (host σ') = svc (host σ) ∧ pending σ' = pending σ
    ∧ results σ' = results σ
    ∧ timers (env (host σ')) = timers (env (host σ))
    ∧ published (env (host σ')) = published (env (host σ))
    ∧ (∀ data' n', step (CommandData j data') n' σ' = None)
    ∧ (∀ (C : Compartment) hook origin rq n' c,
         hook_jobId hook = j → is_Some (jobs_get (jobs (svc (host σ))) j) →
         hook_call (H := C) hook origin rq n' (host σ') c = None).
Proof.
  intros Hjs Hopen Hsound Hid Hte Hstray Hn.
  assert (Hnn : is_nullish id_ = false) by by destruct id_.
  assert (Harr : arrive j data (host σ)
                 = Some (Failed,
                         on_env (upd_heap (alter fail_command j)) (host σ))).
  { unfold arrive. rewrite Hjs, Hid, Hopen. cbn zeta.
    rewrite (emit_data_with_id j data id_) by done.
    by rewrite Hte, Hstray. }
  set (h' := on_env (upd_heap (alter fail_command j)) (host σ)).
  assert (Hcut : ∀ h'' data', heap (env h'') = heap (env h') →
                              arrive j data' h'' = None).
  { intros h'' data' Hheap. unfold arrive. rewrite Hheap. subst h'. proj.
    rewrite lookup_alter_eq, Hjs. cbn [fmap option_fmap option_map].
    unfold fail_command, pump_destroy. rewrite Hopen, Hsound. cbn.
    by destruct (get data' "id"). }
  eexists. split.
  { unfold step. rewrite decide_False by done. cbn zeta. proj.
    rewrite Harr. reflexivity. }
  proj. do 5 (split; [done |]). split.
  - intros data' n'. unfold step. case_decide; [done |]. cbn zeta. proj.
    by rewrite Hcut.
  - intros C hook origin rq n' c <- [jw Hjw].
    unfold hook_call, rpcHook, bind, request. rewrite _command_send_run.
    fold h'. change (jobs (svc h')) with (jobs (svc (host σ))). rewrite Hjw.
    cbn [ret]. unfold sent_to at 1. cbn [sent env on_env upd_sent upd_idMap].
    rewrite last_snoc.
    destruct (serve c _).2 as [|reply replies]; [done |].
    by rewrite Hcut.
Qed.

Lemma stray_reply_cuts_off_witness :
  ∃ σ',
    step (CommandData "j1" (ok_reply "zz")) "q1" sysA = Some σ'
    ∧ svc (host σ') = svc (host sysA)
    ∧ getRpcMessageHandler "A" (host σ') = Some (mkSnapRpcHook "A" "j1")
    ∧ hook_call (H := demo_Compartment) (mkSnapRpcHook "A" "j1") "origin1"
        (JObj [("method", JStr "hello")]) "r1" (host σ') ctrlA = None.
Proof.
  destruct (stray_reply_cuts_off sysA "j1"
              (mkJobStreams (mkStream false false true)
                            (Some (createStream false)) (createStream false))
              (ok_reply "zz") (JStr "zz") "q1")
    as (σ' & Hstep & Hsvc & _ & _ & _ & _ & _ & Hhook);
    [vm_compute; reflexivity | reflexivity | reflexivity | reflexivity
    | reflexivity | vm_compute; reflexivity
    | apply (bool_decide_unpack _); vm_compute; exact I |].
  exists σ'. split; [exact Hstep |]. split; [exact Hsvc |]. split.
  - unfold getRpcMessageHandler. rewrite Hsvc. vm_compute. reflexivity.
  - apply (Hhook demo_Compartment); [reflexivity |].
    vm_compute. eexists. reflexivity.
Defined.

End Props.
